(** * LyarisClient: the excavation control loop and its recovery subsystem

    A shallow embedding of the mining bot's supervisory code
    (adaptive timings, zigzag planner, position confirmer, anti-stuck
    recovery ladder, navigator timeout wrapper and mining engine) and the
    properties its specification states about them.

    Conventions of the embedding:
    - JavaScript numbers that the program only ever uses as integers (block
      coordinates, the median latency in milliseconds, counters, clock
      readings) are [Z]; numbers that are genuinely fractional (the tick
      rate, entity positions) are exact rationals [Q];
    - an [async] method is a function of the observations its awaited
      operations deliver; a wait loop whose exit depends on the outside
      world reads a finite list of observations and yields [None] when the
      list ends before the loop does;
    - calls that other parties make while a method is suspended
      ([pause], [resume], [stop]) are part of those observations. *)

From Stdlib Require Import ZArith QArith Qround Qminmax List Bool String Lia Arith FinFun.
From Stdlib Require Import Permutation Sorted Lqa.
Import ListNotations.

Local Open Scope Z_scope.

(** [length] is the length of a list throughout. *)
Local Abbreviation length := Datatypes.length (only parsing).

(* ================================================================= *)
(** * Part I: the program *)
(* ================================================================= *)

(** ** vec3 and the shared types (types.ts) *)

Record Vec3 : Type := mkVec3 { x : Z; y : Z; z : Z }.

Definition Vec3_eqb (a b : Vec3) : bool :=
  (x a =? x b) && (y a =? y b) && (z a =? z b).

Definition offset (p : Vec3) (dx dy dz : Z) : Vec3 :=
  mkVec3 (x p + dx) (y p + dy) (z p + dz).

Record Area : Type := mkArea { corner1 : Vec3; corner2 : Vec3 }.

Record NormalizedArea : Type := mkNormalizedArea { min : Vec3; max : Vec3 }.

Record SavedMiningState : Type :=
  mkSaved { saved_area : NormalizedArea; saved_minedBlocks : Z }.

(** ** Counted loops

    [for (let i = lo; i <= hi; i++) s = body(i, s)] and its descending twin.
    The number of iterations left when the counter is [i] is
    [hi - i + 1] (none when that is not positive). *)

Fixpoint loop_up {S : Type} (n : nat) (i : Z) (body : Z -> S -> S) (s : S) : S :=
  match n with
  | O => s
  | Datatypes.S n' => loop_up n' (i + 1) body (body i s)
  end.

Fixpoint loop_down {S : Type} (n : nat) (i : Z) (body : Z -> S -> S) (s : S) : S :=
  match n with
  | O => s
  | Datatypes.S n' => loop_down n' (i - 1) body (body i s)
  end.

Definition for_up {S : Type} (lo hi : Z) (body : Z -> S -> S) (s : S) : S :=
  loop_up (Z.to_nat (hi - lo + 1)) lo body s.

Definition for_down {S : Type} (hi lo : Z) (body : Z -> S -> S) (s : S) : S :=
  loop_down (Z.to_nat (hi - lo + 1)) hi body s.

(** ** Comparisons of fractional numbers *)

(** [a < b] on rationals, as a boolean. *)
Definition Qltb (a b : Q) : bool := negb (Qle_bool b a).

(** ** network/ping-monitor.ts and network/adaptive-timings.ts *)

Record PingMonitor : Type := mkPingMonitor { currentPing : Z; tps : Q }.

Module AdaptiveTimings.

(** [Math.round]: the nearest integer, halves towards plus infinity. *)
Definition Math_round (q : Q) : Z := Qfloor (q + (1 # 2)).

Definition digTimeout (pm : PingMonitor) : Z :=
  let base := 6000 in
  let pingFactor := Z.max 0 (currentPing pm * 2) in
  let tpsFactor := (20 / Qmax 1 (tps pm))%Q in
  Z.min (Math_round (inject_Z (base + pingFactor) * tpsFactor)) 30000.

Definition pathfindTimeout (pm : PingMonitor) : Z :=
  let base := 8000 in
  Z.min (Math_round (inject_Z (base + currentPing pm * 3))) 30000.

Definition navigationTimeout (pm : PingMonitor) : Z :=
  let base := 180000 in
  Z.min (Math_round (inject_Z (base + currentPing pm * 10))) 300000.

Definition postDigWaitTicks (pm : PingMonitor) : Z :=
  if currentPing pm >? 400 then 6
  else if currentPing pm >? 200 then 4
  else if currentPing pm >? 100 then 3
  else 2.

Definition interBlockDelay (pm : PingMonitor) : Z :=
  Z.min (Math_round (Qmax 0 (inject_Z (currentPing pm - 50) * (4 # 10)))) 200.

Definition speedMultiplier (pm : PingMonitor) : Q :=
  if currentPing pm >? 400 then 45 # 100
  else if currentPing pm >? 200 then 55 # 100
  else if currentPing pm >? 100 then 65 # 100
  else 8 # 10.

Definition shouldAutoPause (pm : PingMonitor) : bool :=
  (currentPing pm >? 1000) || Qltb (tps pm) 5.

Definition stallTimeThreshold (pm : PingMonitor) : Z :=
  3000 + currentPing pm * 2.

Definition recoveryCooldown (pm : PingMonitor) : Z :=
  2000 + currentPing pm.

Definition stuckTicksThreshold (pm : PingMonitor) : Z :=
  if currentPing pm >? 300 then 5
  else if currentPing pm >? 150 then 4
  else 3.

Definition minRecoveryLevel (pm : PingMonitor) : Z :=
  if currentPing pm >? 300 then 2
  else if currentPing pm >? 150 then 1
  else 0.

Definition safedigTimeout (pm : PingMonitor) : Z :=
  Z.min (5000 + currentPing pm * 2) 15000.

Definition stuckCheckInterval (pm : PingMonitor) : Z := 500.

Definition rubberBandDistance (pm : PingMonitor) : Q :=
  if currentPing pm >? 300 then 1
  else if currentPing pm >? 150 then 7 # 10
  else 5 # 10.

End AdaptiveTimings.

(** ** mining/zigzag-planner.ts *)

Module ZigzagPlanner.

(** [positions.push(v)] appends at the end of the array. *)
Definition push (positions : list Vec3) (v : Vec3) : list Vec3 :=
  positions ++ [v].

Definition generateZigzagPositions (area : NormalizedArea) : list Vec3 :=
  for_down (y (max area)) (y (min area))
    (fun y positions =>
       snd (for_up (z (min area)) (z (max area))
              (fun z (st : bool * list Vec3) =>
                 let (reverseX, positions) := st in
                 let positions :=
                   if reverseX
                   then for_down (x (max area)) (x (min area))
                          (fun x positions => push positions (mkVec3 x y z))
                          positions
                   else for_up (x (min area)) (x (max area))
                          (fun x positions => push positions (mkVec3 x y z))
                          positions in
                 (negb reverseX, positions))
              (false, positions)))
    [].

End ZigzagPlanner.

(** ** The world as the bot sees it (prismarine-block, mineflayer) *)

Record Block : Type :=
  mkBlock { name : string; boundingBox : string; position : Vec3 }.

(** What the loaded chunks hold at a block position: the block's name and
    bounding-box kind, or nothing when the chunk is not loaded. *)
Definition World : Type := Vec3 -> option (string * string).

(** [bot.blockAt(p)]: the block at [p], carrying its own position. *)
Definition blockAt (w : World) (p : Vec3) : option Block :=
  match w p with
  | Some (n, bb) => Some (mkBlock n bb p)
  | None => None
  end.

(** Entity positions are fractional. *)
Record QVec3 : Type := mkQVec3 { qx : Q; qy : Q; qz : Q }.

Definition floored (p : QVec3) : Vec3 :=
  mkVec3 (Qfloor (qx p)) (Qfloor (qy p)) (Qfloor (qz p)).

Record Entity : Type := mkEntity { entity_position : QVec3; onGround : bool }.

(** ** inventory/tool-selector.ts *)

Module ToolSelector.

Definition SKIP_BLOCKS : list string :=
  [ "air"; "cave_air"; "void_air";
    "water"; "lava";
    "flowing_water"; "flowing_lava";
    "bedrock";
    "snow";
    "short_grass"; "tall_grass"; "fern"; "large_fern"; "dead_bush";
    "oak_leaves"; "oak_log";
    "chest"; "trapped_chest"; "crafting_table";
    "white_bed"; "red_bed"; "blue_bed"; "green_bed"; "yellow_bed";
    "black_bed"; "brown_bed"; "cyan_bed"; "gray_bed"; "light_blue_bed";
    "light_gray_bed"; "lime_bed"; "magenta_bed"; "orange_bed"; "pink_bed";
    "purple_bed"; "smithing_table"; "furnace" ]%string.

(** [SKIP_BLOCKS.has(n)] *)
Definition has (set : list string) (n : string) : bool :=
  existsb (String.eqb n) set.

Definition shouldMine (block : Block) : bool :=
  negb (has SKIP_BLOCKS (name block)).

End ToolSelector.

(** ** network/position-confirmer.ts *)

Module PositionConfirmer.

Definition isGone (block : option Block) : bool :=
  match block with
  | None => true
  | Some b =>
      (name b =? "air")%string || (name b =? "cave_air")%string
      || (name b =? "void_air")%string
  end.

(** [waitForBlockBreak]: [world i] is what the bot sees after the [i]-th
    awaited tick; [n] iterations are left and [i] ticks have been waited.
    The result pairs the returned boolean with the ticks waited. *)
Fixpoint waitForBlockBreak_loop (world : nat -> World) (pos : Vec3)
    (n : nat) (i : nat) : bool * nat :=
  match n with
  | O => (false, i)
  | S n' =>
      let block := blockAt (world i) pos in
      if isGone block then (true, S i)
      else waitForBlockBreak_loop world pos n' (S i)
  end.

Definition waitForBlockBreak (world : nat -> World) (pos : Vec3)
    (maxTicks : Z) : bool * nat :=
  waitForBlockBreak_loop world pos (Z.to_nat maxTicks) 0.

Definition getAdaptiveWaitTicks (pm : PingMonitor) : Z :=
  let ping := currentPing pm in
  if ping >? 400 then 6
  else if ping >? 200 then 4
  else if ping >? 100 then 3
  else 2.

Definition waitAfterDig (pm : PingMonitor) (world : nat -> World)
    (pos : Vec3) : bool * nat :=
  let ticks := getAdaptiveWaitTicks pm in
  waitForBlockBreak world pos ticks.

End PositionConfirmer.

(** ** safety/anti-stuck.ts *)

Inductive Control : Type :=
  forward | back | left | right | jump | sprint | sneak.

(** What the bot is told to do, in order. *)
Inductive Action : Type :=
| Dig (b : Block)
| WaitTicks (n : Z)
| Sleep (ms : Z)
| SetControlState (c : Control) (v : bool)
| ClearControlStates
| LookAway
| PathfinderStop.

(** What the bot observes at one moment: the loaded world, its own entity
    (absent before spawn and after a disconnect) and the heading that
    [getMovementDirection] derives from the goal, the velocity or the yaw. *)
Record View : Type :=
  mkView { world : World; entity : option Entity; heading : option (Q * Q) }.

Module AntiStuck.

Definition MAX_RECOVERY_LEVEL : Z := 5.
Definition SAFE_POSITIONS_KEEP : nat := 15.
Definition SAFE_SAVE_INTERVAL : Z := 5000.
Definition POSITION_HISTORY_SIZE : nat := 30.
Definition LOOP_COUNT : Z := 4.

(** Squared distance; [a.distanceTo(b) < r] is [dist2 a b < r * r] for a
    non-negative [r], and likewise for [>]. *)
Definition dist2 (a b : QVec3) : Q :=
  ((qx a - qx b) * (qx a - qx b) + (qy a - qy b) * (qy a - qy b)
   + (qz a - qz b) * (qz a - qz b))%Q.

Definition push {A : Type} (l : list A) (a : A) : list A := l ++ [a].

(** *** Scans *)

(** The bounds of the bot's box are taken in exact arithmetic. The source
    adds the doubles 0.3 and 1.8, so at a position within a rounding error
    of a block face it can leave out a block that this scan returns; it
    never returns one that this scan leaves out. *)
Definition getOverlappingBlocks (v : View) : list Block :=
  match entity v with
  | None => []
  | Some ent =>
      let pos := entity_position ent in
      let minX := (qx pos - (3 # 10))%Q in
      let maxX := (qx pos + (3 # 10))%Q in
      let minY := qy pos in
      let maxY := (qy pos + (18 # 10))%Q in
      let minZ := (qz pos - (3 # 10))%Q in
      let maxZ := (qz pos + (3 # 10))%Q in
      for_up (Qfloor minX) (Qfloor maxX) (fun bx blocks =>
        for_up (Qfloor minY) (Qfloor maxY) (fun by_ blocks =>
          for_up (Qfloor minZ) (Qfloor maxZ) (fun bz blocks =>
            match blockAt (world v) (mkVec3 bx by_ bz) with
            | None => blocks
            | Some b =>
                if negb (boundingBox b =? "block")%string
                   || (name b =? "bedrock")%string
                then blocks
                else
                  let bMin := position b in
                  let bMax := offset (position b) 1 1 1 in
                  if Qltb minX (inject_Z (x bMax)) && Qltb (inject_Z (x bMin)) maxX
                     && Qltb minY (inject_Z (y bMax)) && Qltb (inject_Z (y bMin)) maxY
                     && Qltb minZ (inject_Z (z bMax)) && Qltb (inject_Z (z bMin)) maxZ
                  then push blocks b
                  else blocks
            end) blocks) blocks) []
  end.

Definition tryAdd (w : World) (p : Vec3) (st : list Vec3 * list Block)
    : list Vec3 * list Block :=
  let (checked, blocks) := st in
  if existsb (Vec3_eqb p) checked then st
  else
    let checked := p :: checked in
    match blockAt w p with
    | Some b =>
        if (boundingBox b =? "block")%string && ToolSelector.shouldMine b
        then (checked, push blocks b)
        else (checked, blocks)
    | None => (checked, blocks)
    end.

Definition getBlockingBlocks (v : View) : list Block :=
  match entity v with
  | None => []
  | Some ent =>
      match heading v with
      | None => []
      | Some (dirx, dirz) =>
          let pos := entity_position ent in
          let baseY := Qfloor (qy pos) in
          let sx := if Qltb (3 # 10) dirx then 1
                    else if Qltb dirx (- (3 # 10)) then -1 else 0 in
          let sz := if Qltb (3 # 10) dirz then 1
                    else if Qltb dirz (- (3 # 10)) then -1 else 0 in
          if (sx =? 0) && (sz =? 0) then []
          else
            let botBlockX := Qfloor (qx pos) in
            let botBlockZ := Qfloor (qz pos) in
            snd (fold_left
                   (fun st dy =>
                      let y := baseY + dy in
                      let st := if negb (sx =? 0)
                                then tryAdd (world v) (mkVec3 (botBlockX + sx) y botBlockZ) st
                                else st in
                      let st := if negb (sz =? 0)
                                then tryAdd (world v) (mkVec3 botBlockX y (botBlockZ + sz)) st
                                else st in
                      if negb (sx =? 0) && negb (sz =? 0)
                      then tryAdd (world v) (mkVec3 (botBlockX + sx) y (botBlockZ + sz)) st
                      else st)
                   [0; 1] ([], []))
      end
  end.

(** *** Clearing helpers and the recovery levels, as the actions they issue

    A scan that digs while it goes visits every position once, so one
    [View] per scan records what [blockAt] answered at each visit. *)

Definition digAll (blocks : list Block) (after : list Action) : list Action :=
  flat_map (fun b => Dig b :: after) blocks.

Definition clearOverlapping (v : View) : list Action :=
  digAll (filter ToolSelector.shouldMine (getOverlappingBlocks v)) [WaitTicks 2].

Definition recoverLevel0_jump (v : View) : list Action :=
  let blocking := getBlockingBlocks v in
  digAll blocking []
  ++ [SetControlState jump true; Sleep 300; SetControlState jump false].

Definition recoverLevel1_jumpAndMove (v v1 v2 : View) : list Action :=
  match entity v with
  | None => []
  | Some ent =>
      let botPos := entity_position ent in
      let blocking := getBlockingBlocks v in
      let overlapping := getOverlappingBlocks v1 in
      let stillOverlapping := getOverlappingBlocks v2 in
      digAll blocking [WaitTicks 1]
      ++ digAll (filter ToolSelector.shouldMine overlapping) []
      ++ [SetControlState forward true; SetControlState jump true; Sleep 400;
          ClearControlStates]
      ++ match stillOverlapping with
         | [] => []
         | b0 :: _ =>
             let escapeX := (qx botPos - (inject_Z (x (position b0)) + (1 # 2)))%Q in
             let escapeZ := (qz botPos - (inject_Z (z (position b0)) + (1 # 2)))%Q in
             (* len > 0.01 *)
             if Qltb (1 # 10000) (escapeX * escapeX + escapeZ * escapeZ)%Q
             then [LookAway; SetControlState jump true;
                   SetControlState forward true; Sleep 300; ClearControlStates]
             else []
         end
  end.

Definition recoverLevel2_digOverlapping (v : View) : list Action :=
  [SetControlState jump true; Sleep 200; SetControlState jump false]
  ++ digAll (filter ToolSelector.shouldMine (getOverlappingBlocks v)) [].

Definition recoverLevel3_clearSpace (v : View) : list Action :=
  match entity v with
  | None => []
  | Some ent =>
      let center := floored (entity_position ent) in
      for_up 0 1 (fun dy acts =>
        for_up (-1) 1 (fun dx acts =>
          for_up (-1) 1 (fun dz acts =>
            let pos := offset center dx dy dz in
            match blockAt (world v) pos with
            | Some block =>
                if (boundingBox block =? "block")%string
                   && ToolSelector.shouldMine block
                then push acts (Dig block) else acts
            | None => acts
            end) acts) acts) []
      ++ [SetControlState jump true; Sleep 300; SetControlState jump false]
  end.

Definition recoverLevel4_digUp (v v3 v4 : View) : list Action :=
  match entity v with
  | None => []
  | Some ent =>
      let pos := floored (entity_position ent) in
      recoverLevel3_clearSpace v3
      ++ for_up 2 4 (fun dy acts =>
           match blockAt (world v4) (offset pos 0 dy 0) with
           | Some above =>
               if (boundingBox above =? "block")%string
                  && ToolSelector.shouldMine above
               then push acts (Dig above) else acts
           | None => acts
           end) []
      ++ [SetControlState jump true; Sleep 500; SetControlState jump false]
  end.

Definition recoverLevel5_emergency (v : View) : list Action :=
  match entity v with
  | None => []
  | Some ent =>
      let pos := floored (entity_position ent) in
      for_up (-1) 3 (fun dy acts =>
        for_up (-1) 1 (fun dx acts =>
          for_up (-1) 1 (fun dz acts =>
            if (dx =? 0) && (dz =? 0) && (dy =? -1) then acts
            else
              let blockPos := offset pos dx dy dz in
              match blockAt (world v) blockPos with
              | Some block =>
                  if (boundingBox block =? "block")%string
                     && negb (name block =? "bedrock")%string
                  then push acts (Dig block) else acts
              | None => acts
              end) acts) acts) []
      ++ [SetControlState jump true; Sleep 500; ClearControlStates;
          PathfinderStop]
  end.

Definition forceClearArea (v : View) : list Action :=
  recoverLevel3_clearSpace v.

(** The views a recovery action reads, in reading order. *)
Record Views : Type := mkViews { v0 : View; v1 : View; v2 : View }.

(** The [switch] of [triggerRecovery]. *)
Definition dispatch (level : Z) (vs : Views) : list Action :=
  if level =? 0 then recoverLevel0_jump (v0 vs)
  else if level =? 1 then recoverLevel1_jumpAndMove (v0 vs) (v1 vs) (v2 vs)
  else if level =? 2 then recoverLevel2_digOverlapping (v0 vs)
  else if level =? 3 then recoverLevel3_clearSpace (v0 vs)
  else if level =? 4 then recoverLevel4_digUp (v0 vs) (v1 vs) (v2 vs)
  else recoverLevel5_emergency (v0 vs).

(** *** The monitor's state *)

Record Stats : Type := mkStats {
  totalRecoveries : Z; suffocations : Z; stalls : Z; rubberBands : Z;
  loops : Z }.

Inductive SafetyEvent : Type :=
| SafetyStuck (level : Z) (reason : string)
| SafetyUnstuck.

(** Where a suspended [triggerRecovery] call stands: inside the action of
    the level it dispatched on, or in the 300 ms sleep before the
    re-check. *)
Inductive Phase : Type :=
| InAction (level : Z)
| InSleep.

(** The fields of the class, the events it has emitted, and its suspended
    calls ([suspended] for [triggerRecovery], [clearing] for
    [clearBlockingPath]). *)
Record State : Type := mkState {
  active : bool;
  recovering : bool;
  lastTickPos : option QVec3;
  stuckTicks : Z;
  lastMovePos : option QVec3;
  lastMoveTime : Z;
  posHistory : list (QVec3 * Z);
  safePositions : list QVec3;
  lastSafeSave : Z;
  recoveryLevel : Z;
  lastRecoveryTime : Z;
  consecutiveStucks : Z;
  blockClearAttempted : bool;
  stats : Stats;
  emitted : list SafetyEvent;
  suspended : option Phase;
  clearing : bool }.

Definition set_active (v : bool) (st : State) : State :=
  mkState v (recovering st) (lastTickPos st) (stuckTicks st) (lastMovePos st)
          (lastMoveTime st) (posHistory st) (safePositions st)
          (lastSafeSave st) (recoveryLevel st) (lastRecoveryTime st)
          (consecutiveStucks st) (blockClearAttempted st) (stats st)
          (emitted st) (suspended st) (clearing st) .
Definition set_recovering (v : bool) (st : State) : State :=
  mkState (active st) v (lastTickPos st) (stuckTicks st) (lastMovePos st)
          (lastMoveTime st) (posHistory st) (safePositions st)
          (lastSafeSave st) (recoveryLevel st) (lastRecoveryTime st)
          (consecutiveStucks st) (blockClearAttempted st) (stats st)
          (emitted st) (suspended st) (clearing st) .
Definition set_lastTickPos (v : option QVec3) (st : State) : State :=
  mkState (active st) (recovering st) v (stuckTicks st) (lastMovePos st)
          (lastMoveTime st) (posHistory st) (safePositions st)
          (lastSafeSave st) (recoveryLevel st) (lastRecoveryTime st)
          (consecutiveStucks st) (blockClearAttempted st) (stats st)
          (emitted st) (suspended st) (clearing st) .
Definition set_stuckTicks (v : Z) (st : State) : State :=
  mkState (active st) (recovering st) (lastTickPos st) v (lastMovePos st)
          (lastMoveTime st) (posHistory st) (safePositions st)
          (lastSafeSave st) (recoveryLevel st) (lastRecoveryTime st)
          (consecutiveStucks st) (blockClearAttempted st) (stats st)
          (emitted st) (suspended st) (clearing st) .
Definition set_lastMovePos (v : option QVec3) (st : State) : State :=
  mkState (active st) (recovering st) (lastTickPos st) (stuckTicks st) v
          (lastMoveTime st) (posHistory st) (safePositions st)
          (lastSafeSave st) (recoveryLevel st) (lastRecoveryTime st)
          (consecutiveStucks st) (blockClearAttempted st) (stats st)
          (emitted st) (suspended st) (clearing st) .
Definition set_lastMoveTime (v : Z) (st : State) : State :=
  mkState (active st) (recovering st) (lastTickPos st) (stuckTicks st)
          (lastMovePos st) v (posHistory st) (safePositions st)
          (lastSafeSave st) (recoveryLevel st) (lastRecoveryTime st)
          (consecutiveStucks st) (blockClearAttempted st) (stats st)
          (emitted st) (suspended st) (clearing st) .
Definition set_posHistory (v : list (QVec3 * Z)) (st : State) : State :=
  mkState (active st) (recovering st) (lastTickPos st) (stuckTicks st)
          (lastMovePos st) (lastMoveTime st) v (safePositions st)
          (lastSafeSave st) (recoveryLevel st) (lastRecoveryTime st)
          (consecutiveStucks st) (blockClearAttempted st) (stats st)
          (emitted st) (suspended st) (clearing st) .
Definition set_safePositions (v : list QVec3) (st : State) : State :=
  mkState (active st) (recovering st) (lastTickPos st) (stuckTicks st)
          (lastMovePos st) (lastMoveTime st) (posHistory st) v
          (lastSafeSave st) (recoveryLevel st) (lastRecoveryTime st)
          (consecutiveStucks st) (blockClearAttempted st) (stats st)
          (emitted st) (suspended st) (clearing st) .
Definition set_lastSafeSave (v : Z) (st : State) : State :=
  mkState (active st) (recovering st) (lastTickPos st) (stuckTicks st)
          (lastMovePos st) (lastMoveTime st) (posHistory st)
          (safePositions st) v (recoveryLevel st) (lastRecoveryTime st)
          (consecutiveStucks st) (blockClearAttempted st) (stats st)
          (emitted st) (suspended st) (clearing st) .
Definition set_recoveryLevel (v : Z) (st : State) : State :=
  mkState (active st) (recovering st) (lastTickPos st) (stuckTicks st)
          (lastMovePos st) (lastMoveTime st) (posHistory st)
          (safePositions st) (lastSafeSave st) v (lastRecoveryTime st)
          (consecutiveStucks st) (blockClearAttempted st) (stats st)
          (emitted st) (suspended st) (clearing st) .
Definition set_lastRecoveryTime (v : Z) (st : State) : State :=
  mkState (active st) (recovering st) (lastTickPos st) (stuckTicks st)
          (lastMovePos st) (lastMoveTime st) (posHistory st)
          (safePositions st) (lastSafeSave st) (recoveryLevel st) v
          (consecutiveStucks st) (blockClearAttempted st) (stats st)
          (emitted st) (suspended st) (clearing st) .
Definition set_consecutiveStucks (v : Z) (st : State) : State :=
  mkState (active st) (recovering st) (lastTickPos st) (stuckTicks st)
          (lastMovePos st) (lastMoveTime st) (posHistory st)
          (safePositions st) (lastSafeSave st) (recoveryLevel st)
          (lastRecoveryTime st) v (blockClearAttempted st) (stats st)
          (emitted st) (suspended st) (clearing st) .
Definition set_blockClearAttempted (v : bool) (st : State) : State :=
  mkState (active st) (recovering st) (lastTickPos st) (stuckTicks st)
          (lastMovePos st) (lastMoveTime st) (posHistory st)
          (safePositions st) (lastSafeSave st) (recoveryLevel st)
          (lastRecoveryTime st) (consecutiveStucks st) v (stats st)
          (emitted st) (suspended st) (clearing st) .
Definition set_stats (v : Stats) (st : State) : State :=
  mkState (active st) (recovering st) (lastTickPos st) (stuckTicks st)
          (lastMovePos st) (lastMoveTime st) (posHistory st)
          (safePositions st) (lastSafeSave st) (recoveryLevel st)
          (lastRecoveryTime st) (consecutiveStucks st)
          (blockClearAttempted st) v (emitted st) (suspended st) (clearing st)
          .
Definition set_emitted (v : list SafetyEvent) (st : State) : State :=
  mkState (active st) (recovering st) (lastTickPos st) (stuckTicks st)
          (lastMovePos st) (lastMoveTime st) (posHistory st)
          (safePositions st) (lastSafeSave st) (recoveryLevel st)
          (lastRecoveryTime st) (consecutiveStucks st)
          (blockClearAttempted st) (stats st) v (suspended st) (clearing st) .
Definition set_suspended (v : option Phase) (st : State) : State :=
  mkState (active st) (recovering st) (lastTickPos st) (stuckTicks st)
          (lastMovePos st) (lastMoveTime st) (posHistory st)
          (safePositions st) (lastSafeSave st) (recoveryLevel st)
          (lastRecoveryTime st) (consecutiveStucks st)
          (blockClearAttempted st) (stats st) (emitted st) v (clearing st) .
Definition set_clearing (v : bool) (st : State) : State :=
  mkState (active st) (recovering st) (lastTickPos st) (stuckTicks st)
          (lastMovePos st) (lastMoveTime st) (posHistory st)
          (safePositions st) (lastSafeSave st) (recoveryLevel st)
          (lastRecoveryTime st) (consecutiveStucks st)
          (blockClearAttempted st) (stats st) (emitted st) (suspended st) v.

Definition initial : State :=
  mkState false false None 0 None 0 [] [] 0 0 0 0 false
          (mkStats 0 0 0 0 0) [] None false.

Definition isEmpty {A : Type} (l : list A) : bool :=
  match l with [] => true | _ => false end.

Definition lastOf {A : Type} (l : list A) : option A :=
  match rev l with [] => None | a :: _ => Some a end.

(** [array.shift()] *)
Definition shift {A : Type} (l : list A) : list A := tl l.

Definition entityPos (v : View) : option QVec3 :=
  option_map entity_position (entity v).

(** *** Public API *)

Definition enable (now : Z) (v : View) (st : State) : State :=
  if active st then st
  else
    let st := set_active true st in
    (* startTickMonitor *)
    let st := set_lastTickPos (entityPos v) st in
    let st := set_stuckTicks 0 st in
    (* startStallMonitor *)
    let st := set_lastMovePos (entityPos v) st in
    set_lastMoveTime now st.

Definition disable (st : State) : State :=
  if negb (active st) then st
  else
    let st := set_active false st in
    let st := set_recoveryLevel 0 st in
    let st := set_consecutiveStucks 0 st in
    let st := set_stuckTicks 0 st in
    let st := set_blockClearAttempted false st in
    set_posHistory [] st.

Definition markSafePosition (v : View) (st : State) : State :=
  match entity v with
  | None => st
  | Some ent =>
      let pos := entity_position ent in
      let tooClose :=
        match lastOf (safePositions st) with
        | Some last => Qltb (dist2 pos last) 1
        | None => false
        end in
      if tooClose then st
      else
        let sp := push (safePositions st) pos in
        let sp := if (SAFE_POSITIONS_KEEP <? length sp)%nat then shift sp else sp in
        set_safePositions sp st
  end.

Definition reset (now : Z) (st : State) : State :=
  let st := set_recoveryLevel 0 st in
  let st := set_consecutiveStucks 0 st in
  let st := set_stuckTicks 0 st in
  let st := set_blockClearAttempted false st in
  let st := set_posHistory [] st in
  let st := set_safePositions [] st in
  let st := set_lastMovePos None st in
  let st := set_lastMoveTime now st in
  set_stats (mkStats 0 0 0 0 0) st.

(** [clearBlockingPath] up to its first suspension, and its [finally]. *)
Definition clearBlockingPath (v : View) (st : State) : State * list Action :=
  if recovering st then (st, [])
  else
    let blocking := getBlockingBlocks v in
    if isEmpty blocking then (st, [])
    else (set_clearing true (set_recovering true st),
          digAll blocking [WaitTicks 2]).

Definition clearBlockingPath_finally (st : State) : State :=
  if clearing st then set_clearing false (set_recovering false st) else st.

(** *** Recovery dispatcher *)

Definition count_recovery (s : Stats) : Stats :=
  mkStats (totalRecoveries s + 1) (suffocations s) (stalls s) (rubberBands s)
          (loops s).

Definition count_suffocation (s : Stats) : Stats :=
  mkStats (totalRecoveries s) (suffocations s + 1) (stalls s) (rubberBands s)
          (loops s).

Definition count_stall (s : Stats) : Stats :=
  mkStats (totalRecoveries s) (suffocations s) (stalls s + 1) (rubberBands s)
          (loops s).

Definition count_rubberBand (s : Stats) : Stats :=
  mkStats (totalRecoveries s) (suffocations s) (stalls s) (rubberBands s + 1)
          (loops s).

Definition count_loop (s : Stats) : Stats :=
  mkStats (totalRecoveries s) (suffocations s) (stalls s) (rubberBands s)
          (loops s + 1).

(** [triggerRecovery] from its call to the first suspension inside the
    action it dispatches: the two guards, the bookkeeping, the floor
    raise, the [safety:stuck] event and the [switch]. *)
Definition triggerRecovery (reason : string) (now : Z) (pm : PingMonitor)
    (st : State) : State :=
  if recovering st then st
  else if now - lastRecoveryTime st <? AdaptiveTimings.recoveryCooldown pm
  then st
  else
    let st := set_recovering true st in
    let st := set_lastRecoveryTime now st in
    let st := set_stats (count_recovery (stats st)) st in
    let st := set_consecutiveStucks (consecutiveStucks st + 1) st in
    let minLevel := AdaptiveTimings.minRecoveryLevel pm in
    let st := if recoveryLevel st <? minLevel
              then set_recoveryLevel minLevel st else st in
    let st := set_emitted
                (push (emitted st) (SafetyStuck (recoveryLevel st) reason)) st in
    set_suspended (Some (InAction (recoveryLevel st))) st.

(** The [default] branch of the [switch]. *)
Definition isEmergency (level : Z) : bool :=
  negb ((level =? 0) || (level =? 1) || (level =? 2) || (level =? 3)
        || (level =? 4)).

(** The dispatched action runs to its end. Levels 0 to 4 write no field;
    the emergency level ends by resetting the ladder, unless it returned
    at once for want of an entity. *)
Definition triggerRecovery_action (vs : Views) (st : State)
    : State * list Action :=
  match suspended st with
  | Some (InAction level) =>
      let st :=
        if isEmergency level
        then match entity (v0 vs) with
             | None => st
             | Some _ => set_consecutiveStucks 0 (set_recoveryLevel 0 st)
             end
        else st in
      (set_suspended (Some InSleep) st, dispatch level vs)
  | _ => (st, [])
  end.

(** After the 300 ms sleep: the re-check, the level update and [finally]. *)
Definition triggerRecovery_recheck (v : View) (st : State) : State :=
  match suspended st with
  | Some InSleep =>
      let stillStuck := negb (isEmpty (getOverlappingBlocks v))
                        || negb (isEmpty (getBlockingBlocks v)) in
      let st :=
        if stillStuck
        then set_recoveryLevel
               (Z.min (recoveryLevel st + 1) MAX_RECOVERY_LEVEL) st
        else
          let st := set_recoveryLevel (Z.max 0 (recoveryLevel st - 1)) st in
          let st := set_stuckTicks 0 st in
          set_emitted (push (emitted st) SafetyUnstuck) st in
      set_suspended None (set_recovering false st)
  | _ => st
  end.

(** The action throws: [catch] and [finally]. *)
Definition triggerRecovery_catch (st : State) : State :=
  match suspended st with
  | Some (InAction _) =>
      let st := set_recoveryLevel
                  (Z.min (recoveryLevel st + 1) MAX_RECOVERY_LEVEL) st in
      set_suspended None (set_recovering false st)
  | _ => st
  end.

(** *** Tick monitor (suffocation and rubber-band) *)

Definition tickListener (now : Z) (pm : PingMonitor) (v : View)
    (st : State) : State :=
  match entity v with
  | None => st
  | Some ent =>
      if recovering st then st
      else
        let pos := entity_position ent in
        let st :=
          match lastTickPos st with
          | Some last =>
              let delta2 := dist2 pos last in
              let rb := AdaptiveTimings.rubberBandDistance pm in
              if Qltb (rb * rb) delta2 && Qltb delta2 (20 * 20)
              then set_stats (count_rubberBand (stats st)) st
              else st
          | None => st
          end in
        let st := set_lastTickPos (Some pos) st in
        let overlapping := getOverlappingBlocks v in
        let st :=
          if negb (isEmpty overlapping)
          then
            let st := set_stuckTicks (stuckTicks st + 1) st in
            if (stuckTicks st >=? AdaptiveTimings.stuckTicksThreshold pm)
               && negb (recovering st)
            then
              let st := set_stats (count_suffocation (stats st)) st in
              triggerRecovery "suffocation" now pm st
            else st
          else
            let st := if stuckTicks st >? 0
                      then set_recoveryLevel (Z.max 0 (recoveryLevel st - 1)) st
                      else st in
            set_stuckTicks 0 st in
        if isEmpty overlapping && onGround ent
        then
          if now - lastSafeSave st >? SAFE_SAVE_INTERVAL
          then set_lastSafeSave now (markSafePosition v st)
          else st
        else st
  end.

(** *** Stall monitor and loop detection *)

Definition checkForLoop (now : Z) (pm : PingMonitor) (st : State) : State :=
  (* posHistory.length < POSITION_HISTORY_SIZE * 0.5 *)
  if (2 * length (posHistory st) <? POSITION_HISTORY_SIZE)%nat then st
  else
    match lastOf (posHistory st) with
    | None => st
    | Some (current, _) =>
        let count :=
          fold_left
            (fun (acc : Z * bool) (entry : QVec3 * Z) =>
               let (returns, lastWasNear) := acc in
               (* LOOP_RADIUS = 2.5 *)
               let near := Qltb (dist2 (fst entry) current) ((25 # 10) * (25 # 10)) in
               ((if near && negb lastWasNear then returns + 1 else returns),
                near))
            (posHistory st) (0, true) in
        if fst count >=? LOOP_COUNT
        then
          let st := set_stats (count_loop (stats st)) st in
          let st := set_posHistory [] st in
          triggerRecovery "loop" now pm st
        else st
    end.

Definition stallCheck (now : Z) (pm : PingMonitor) (v : View)
    (pathfinderActive : bool) (st : State) : State * list Action :=
  match entity v with
  | None => (st, [])
  | Some ent =>
      if recovering st then (st, [])
      else
        let pos := entity_position ent in
        let hist := push (posHistory st) (pos, now) in
        let hist := if (POSITION_HISTORY_SIZE <? length hist)%nat
                    then shift hist else hist in
        let st := set_posHistory hist st in
        let (st, acts) :=
          match lastMovePos st with
          | None => (st, [])
          | Some last =>
              (* moved > 0.15 *)
              if Qltb ((15 # 100) * (15 # 100)) (dist2 pos last)
              then
                let st := set_lastMovePos (Some pos) st in
                let st := set_lastMoveTime now st in
                let st := set_consecutiveStucks 0 st in
                (set_blockClearAttempted false st, [])
              else if now - lastMoveTime st >? AdaptiveTimings.stallTimeThreshold pm
              then
                if pathfinderActive && negb (recovering st)
                then
                  let blocking := getBlockingBlocks v in
                  if negb (isEmpty blocking) && negb (blockClearAttempted st)
                  then
                    let st := set_blockClearAttempted true st in
                    let (st, acts) := clearBlockingPath v st in
                    (set_lastMoveTime now st, acts)
                  else
                    let st := set_stats (count_stall (stats st)) st in
                    let st := set_blockClearAttempted false st in
                    let st := triggerRecovery "stall" now pm st in
                    (set_lastMoveTime now st, [])
                else (st, [])
              else (st, [])
          end in
        (checkForLoop now pm st, acts)
  end.

(** *** The monitor as a machine

    One event is one uninterrupted stretch of the class's code: a public
    call, a firing of a monitor, or the resumption of a suspended call.
    The monitors fire only while registered, that is while [active]. *)
Inductive Event : Type :=
| EvEnable (now : Z) (v : View)
| EvDisable
| EvReset (now : Z)
| EvMarkSafePosition (v : View)
| EvPhysicTick (now : Z) (pm : PingMonitor) (v : View)
| EvStallCheck (now : Z) (pm : PingMonitor) (v : View) (pathfinderActive : bool)
| EvClearBlockingPath (v : View)
| EvClearBlockingPathDone
| EvActionDone (vs : Views)
| EvActionThrows
| EvRecheck (v : View).

Definition step (st : State) (ev : Event) : State :=
  match ev with
  | EvEnable now v => enable now v st
  | EvDisable => disable st
  | EvReset now => reset now st
  | EvMarkSafePosition v => markSafePosition v st
  | EvPhysicTick now pm v =>
      if active st then tickListener now pm v st else st
  | EvStallCheck now pm v pathfinderActive =>
      if active st then fst (stallCheck now pm v pathfinderActive st) else st
  | EvClearBlockingPath v => fst (clearBlockingPath v st)
  | EvClearBlockingPathDone => clearBlockingPath_finally st
  | EvActionDone vs => fst (triggerRecovery_action vs st)
  | EvActionThrows => triggerRecovery_catch st
  | EvRecheck v => triggerRecovery_recheck v st
  end.

Definition run (evs : list Event) (st : State) : State :=
  fold_left step evs st.

(** The actions a machine run issues: those of the clearing helpers and
    of every recovery level that ran. *)
Definition actionsOf (st : State) (ev : Event) : list Action :=
  match ev with
  | EvStallCheck now pm v pathfinderActive =>
      if active st then snd (stallCheck now pm v pathfinderActive st) else []
  | EvClearBlockingPath v => snd (clearBlockingPath v st)
  | EvActionDone vs => snd (triggerRecovery_action vs st)
  | _ => []
  end.

Fixpoint trace (evs : list Event) (st : State) : list Action :=
  match evs with
  | [] => []
  | ev :: evs' => actionsOf st ev ++ trace evs' (step st ev)
  end.

End AntiStuck.

(** ** mining/navigator.ts: the timeout wrapper *)

Module Navigator.

Definition Control_eqb (a b : Control) : bool :=
  match a, b with
  | forward, forward | back, back | left, left | right, right
  | jump, jump | sprint, sprint | sneak, sneak => true
  | _, _ => false
  end.

(** The bot's control inputs: which ones are held down. *)
Definition Controls : Type := Control -> bool.

Definition setControlState (c : Control) (v : bool) (cs : Controls) : Controls :=
  fun c' => if Control_eqb c c' then v else cs c'.

Definition clearControlStates (cs : Controls) : Controls := fun _ => false.

(** The goal solver behind [bot.pathfinder.goto]. *)
Inductive Solver : Type :=
| Solving       (* the goto promise is pending *)
| Cancelled     (* [pathfinder.stop()] was called, the promise still pending *)
| Ended.        (* the goto promise has settled *)

Inductive Settlement : Type :=
| Resolved
| Rejected (err : string).

(** One [gotoWithTimeout] call: its closure variables ([isDone],
    [stuckChecker], [timer], [lastPos], [stuckMs]), the 250 ms
    jump-release timeouts it has scheduled, the state of the promise it
    returned, and the parts of the bot it acts on. *)
Record Call : Type := mkCall {
  isDone : bool;
  stuckChecker : bool;
  timer : bool;
  lastPos : QVec3;
  stuckMs : Z;
  jumpReleases : nat;
  settled : option Settlement;
  controls : Controls;
  solver : Solver;
  clearRequests : nat }.

(** The executor of the promise, run with the entity at [pos]. *)
Definition gotoWithTimeout (pos : QVec3) (cs : Controls) : Call :=
  mkCall false true true pos 0 0 None cs Solving 0.

Definition finish (err : option string) (c : Call) : Call :=
  if isDone c then c
  else
    mkCall true false false (lastPos c) (stuckMs c) (jumpReleases c)
           (Some (match err with Some e => Rejected e | None => Resolved end))
           (clearControlStates (controls c)) (solver c) (clearRequests c).

Definition pathfinder_stop (c : Call) : Call :=
  mkCall (isDone c) (stuckChecker c) (timer c) (lastPos c) (stuckMs c)
         (jumpReleases c) (settled c) (controls c)
         (match solver c with Solving => Cancelled | s => s end)
         (clearRequests c).

(** The body of the [setInterval] callback. [canClear] says that an
    anti-stuck is attached and not recovering. *)
Definition stuckCheck (entityPos : option QVec3) (canClear : bool)
    (stuckInterval : Z) (c : Call) : Call :=
  match entityPos with
  | None => c
  | Some pos =>
      if isDone c then c
      else if Qltb (AntiStuck.dist2 pos (lastPos c)) ((2 # 10) * (2 # 10))
      then
        let stuckMs' := stuckMs c + stuckInterval in
        if stuckMs' >=? 2000
        then
          mkCall (isDone c) (stuckChecker c) (timer c) (lastPos c) 0
                 (S (jumpReleases c)) (settled c)
                 (setControlState jump true (controls c)) (solver c)
                 (if canClear then S (clearRequests c) else clearRequests c)
        else
          mkCall (isDone c) (stuckChecker c) (timer c) (lastPos c) stuckMs'
                 (jumpReleases c) (settled c) (controls c) (solver c)
                 (clearRequests c)
      else
        mkCall (isDone c) (stuckChecker c) (timer c) pos 0
               (jumpReleases c) (settled c) (controls c) (solver c)
               (clearRequests c)
  end.

(** The 250 ms timeout that lets go of the jump key. *)
Definition jumpRelease (c : Call) : Call :=
  mkCall (isDone c) (stuckChecker c) (timer c) (lastPos c) (stuckMs c)
         (pred (jumpReleases c)) (settled c)
         (if isDone c then controls c
          else setControlState jump false (controls c))
         (solver c) (clearRequests c).

(** The timeout callback. *)
Definition onTimeout (c : Call) : Call :=
  finish (Some "Path timeout"%string) (pathfinder_stop c).

Definition solverEnds (c : Call) : Call :=
  mkCall (isDone c) (stuckChecker c) (timer c) (lastPos c) (stuckMs c)
         (jumpReleases c) (settled c) (controls c) Ended (clearRequests c).

(** [Navigator.stop()] *)
Definition stop (c : Call) : Call :=
  let c := pathfinder_stop c in
  mkCall (isDone c) (stuckChecker c) (timer c) (lastPos c) (stuckMs c)
         (jumpReleases c) (settled c) (clearControlStates (controls c))
         (solver c) (clearRequests c).

(** What can happen while the call is in flight. Timers fire only while
    registered; the solver drives the controls only while it is solving,
    and its promise settles once. *)
Inductive Event : Type :=
| EvStuckCheck (entityPos : option QVec3) (canClear : bool) (pm : PingMonitor)
| EvJumpRelease
| EvTimeout
| EvSolverInput (c : Control) (v : bool)
| EvSolverResolves
| EvSolverRejects (err : string)
| EvStop.

Definition step (c : Call) (ev : Event) : Call :=
  match ev with
  | EvStuckCheck entityPos canClear pm =>
      if stuckChecker c
      then stuckCheck entityPos canClear (AdaptiveTimings.stuckCheckInterval pm) c
      else c
  | EvJumpRelease =>
      match jumpReleases c with O => c | S _ => jumpRelease c end
  | EvTimeout => if timer c then onTimeout c else c
  | EvSolverInput k v =>
      match solver c with
      | Solving =>
          mkCall (isDone c) (stuckChecker c) (timer c) (lastPos c) (stuckMs c)
                 (jumpReleases c) (settled c)
                 (setControlState k v (controls c)) (solver c) (clearRequests c)
      | _ => c
      end
  | EvSolverResolves =>
      match solver c with
      | Ended => c
      | _ => finish None (solverEnds c)
      end
  | EvSolverRejects err =>
      match solver c with
      | Ended => c
      | _ => finish (Some err) (solverEnds c)
      end
  | EvStop => stop c
  end.

Definition run (evs : list Event) (c : Call) : Call := fold_left step evs c.

End Navigator.

(** ** mining/state-manager.ts and mining/mining-engine.ts *)

Module MiningEngine.

Definition normalizeArea (area : Area) : NormalizedArea :=
  mkNormalizedArea
    (mkVec3 (Z.min (x (corner1 area)) (x (corner2 area)))
            (Z.min (y (corner1 area)) (y (corner2 area)))
            (Z.min (z (corner1 area)) (z (corner2 area))))
    (mkVec3 (Z.max (x (corner1 area)) (x (corner2 area)))
            (Z.max (y (corner1 area)) (y (corner2 area)))
            (Z.max (z (corner1 area)) (z (corner2 area)))).

Definition areaSize (area : NormalizedArea) : Z :=
  (x (max area) - x (min area) + 1) *
  (y (max area) - y (min area) + 1) *
  (z (max area) - z (min area) + 1).

Inductive MiningStatus : Type :=
  Idle | Mining | Paused | Traveling | Finished | Error.

Definition status_eqb (a b : MiningStatus) : bool :=
  match a, b with
  | Idle, Idle | Mining, Mining | Paused, Paused | Traveling, Traveling
  | Finished, Finished | Error, Error => true
  | _, _ => false
  end.

Inductive BotEvent : Type :=
| MiningStarted (area : NormalizedArea)
| MiningProgress (mined total : Z)
| MiningPaused (reason : string)
| MiningResumed
| MiningFinished
| MiningError (msg : string)
| MiningBlockMined (pos : Vec3) (blockName : string)
| InventoryFull.

(** Everything the engine does to the outside, in order: events on the
    bus, writes and deletions of the state file, and the calls to its
    collaborators. [WaitAfterDig] carries what the confirmer answered. *)
Inductive Effect : Type :=
| Emit (ev : BotEvent)
| FileSave (s : SavedMiningState)
| FileClear
| AntiStuckEnable
| AntiStuckDisable
| AntiStuckClearOverlapping
| AntiStuckMarkSafePosition
| NavigatorConfigureForMining
| NavigatorStop
| NavigatorGoNear (pos : Vec3) (range : Z)
| DepositToChest
| EatIfNeeded
| EquipFor (b : Block)
| BotLookAt (b : Block)
| BotDig (b : Block)
| BotStopDigging
| WaitAfterDig (pos : Vec3) (confirmed : bool) (ticks : nat)
| SleepMs (ms : Z).

(** The engine's [state] record (the fields it writes), the state file of
    its [StateManager], and the effects so far. *)
Record Engine : Type := mkEngine {
  status : MiningStatus;
  area : option NormalizedArea;
  totalBlocks : Z;
  minedBlocks : Z;
  currentTool : option string;
  error : option string;
  stateFile : option SavedMiningState;
  effects : list Effect }.

Definition set_status (v : MiningStatus) (e : Engine) : Engine :=
  mkEngine v (area e) (totalBlocks e) (minedBlocks e) (currentTool e)
           (error e) (stateFile e) (effects e) .
Definition set_area (v : option NormalizedArea) (e : Engine) : Engine :=
  mkEngine (status e) v (totalBlocks e) (minedBlocks e) (currentTool e)
           (error e) (stateFile e) (effects e) .
Definition set_totalBlocks (v : Z) (e : Engine) : Engine :=
  mkEngine (status e) (area e) v (minedBlocks e) (currentTool e) (error e)
           (stateFile e) (effects e) .
Definition set_minedBlocks (v : Z) (e : Engine) : Engine :=
  mkEngine (status e) (area e) (totalBlocks e) v (currentTool e) (error e)
           (stateFile e) (effects e) .
Definition set_currentTool (v : option string) (e : Engine) : Engine :=
  mkEngine (status e) (area e) (totalBlocks e) (minedBlocks e) v (error e)
           (stateFile e) (effects e) .
Definition set_error (v : option string) (e : Engine) : Engine :=
  mkEngine (status e) (area e) (totalBlocks e) (minedBlocks e) (currentTool e)
           v (stateFile e) (effects e) .
Definition set_stateFile (v : option SavedMiningState) (e : Engine) : Engine :=
  mkEngine (status e) (area e) (totalBlocks e) (minedBlocks e) (currentTool e)
           (error e) v (effects e) .
Definition set_effects (v : list Effect) (e : Engine) : Engine :=
  mkEngine (status e) (area e) (totalBlocks e) (minedBlocks e) (currentTool e)
           (error e) (stateFile e) v.

Definition initial : Engine :=
  mkEngine Idle None 0 0 None None None [].

Definition effect (f : Effect) (e : Engine) : Engine :=
  set_effects (effects e ++ [f]) e.

Definition emit (ev : BotEvent) (e : Engine) : Engine := effect (Emit ev) e.

(** [stateManager.save] and [stateManager.clear] *)
Definition save (area : NormalizedArea) (minedBlocks : Z) (e : Engine) : Engine :=
  let data := mkSaved (mkNormalizedArea
                         (mkVec3 (x (min area)) (y (min area)) (z (min area)))
                         (mkVec3 (x (max area)) (y (max area)) (z (max area))))
                      minedBlocks in
  effect (FileSave data) (set_stateFile (Some data) e).

Definition clear (e : Engine) : Engine :=
  effect FileClear (set_stateFile None e).

(** *** Public API *)

Definition pause (e : Engine) : Engine :=
  if status_eqb (status e) Mining
  then
    let e := set_status Paused e in
    let e := match area e with
             | Some a => save a (minedBlocks e) e
             | None => e
             end in
    emit (MiningPaused "user") e
  else e.

Definition resume (e : Engine) : Engine :=
  if status_eqb (status e) Paused
  then emit MiningResumed (set_status Mining e)
  else e.

Definition stop (e : Engine) : Engine :=
  let e := set_status Idle e in
  let e := set_error None e in
  let e := effect NavigatorStop e in
  let e := effect AntiStuckDisable e in
  clear e.

(** Calls that arrive from outside while the engine is suspended. The
    properties of the engine are about runs that receive [pause], [resume]
    and [stop]; a second [start] call or a [goToBase] call that arrives
    while a run is suspended is not modelled. *)
Inductive Command : Type := CmdPause | CmdResume | CmdStop.

Definition command (e : Engine) (c : Command) : Engine :=
  match c with
  | CmdPause => pause e
  | CmdResume => resume e
  | CmdStop => stop e
  end.

(** An awaited operation: the commands that ran meanwhile. *)
Definition await (during : list Command) (e : Engine) : Engine :=
  fold_left command during e.

(** How a method ends: it returns, it throws, or it waits for ever. *)
Inductive Run (A : Type) : Type :=
| Ret (a : A) (e : Engine)
| Throw (msg : string) (e : Engine)
| Hang.
Arguments Ret {A} a e.
Arguments Throw {A} msg e.
Arguments Hang {A}.

(** *** mineBlock *)

Inductive DigResult : Type := DigResolved | DigRejected | DigTimedOut.

(** What one pass of the attempt loop meets, in the order it asks. *)
Record AttemptObs : Type := mkAttemptObs {
  during_clearOverlapping : list Command;
  block : option Block;                     (* bot.blockAt(pos) *)
  isFull : bool;                            (* inventoryManager.isFull() *)
  during_deposit : list Command;
  freed : bool;                             (* depositToChest's answer *)
  capacity_wait : list (list Command * bool); (* each sleep(1000), then isFull() *)
  entity_missing : bool;                    (* bot.entity is not there *)
  out_of_reach : bool;   (* distance > REACH_DISTANCE || !canSeeBlock(block) *)
  during_goNear : list Command;
  targetBlock : option Block;               (* bot.blockAt(pos), again *)
  during_equip : list Command;
  tool : string;
  during_lookAt : list Command;
  lookAt_ok : bool;
  reachable_after : bool;
  during_dig : list Command;
  dig : DigResult;
  confirm_pm : PingMonitor;
  confirm_world : nat -> World;
  during_confirm : list Command;
  during_retry_sleep : list Command }.

(** How [mineBlock] returned. *)
Inductive Exit : Type :=
| Stopped          (* status was idle at the head of a pass *)
| NothingToMine    (* no block, or one that should not be mined *)
| NotMining        (* the wait for inventory space ended in another status *)
| Mined            (* the pass reached [return; // Success] *)
| Exhausted.       (* the loop condition failed *)

Inductive AttemptResult : Type :=
| Return (how : Exit) (e : Engine)
| Retry (e : Engine)
| Crash (msg : string) (e : Engine)
| Stuck.

Definition worthMining (b : option Block) : bool :=
  match b with
  | Some b => ToolSelector.shouldMine b
  | None => false
  end.

(** [while (status === 'paused') { await sleep(1000); if (!isFull()) ... }] *)
Fixpoint awaitCapacity (w : list (list Command * bool)) (e : Engine)
    : option Engine :=
  if status_eqb (status e) Paused
  then match w with
       | [] => None
       | (during, full) :: w' =>
           let e := await during (effect (SleepMs 1000) e) in
           if negb full
           then Some (set_error None (set_status Mining e))
           else awaitCapacity w' e
       end
  else Some e.

(** The inventory check of a pass; [None] when the wait never ends, else
    the engine and whether the pass goes on. *)
Definition checkInventory (area : NormalizedArea) (o : AttemptObs)
    (e : Engine) : option (Engine * bool) :=
  if isFull o
  then
    let e := set_error (Some "Depositing items..."%string) e in
    let e := emit InventoryFull e in
    let e := await (during_deposit o) (effect DepositToChest e) in
    let e := set_error None e in
    if negb (freed o)
    then
      let e := set_status Paused e in
      let e := set_error (Some "Inventory full, no chest found"%string) e in
      let e := save area (minedBlocks e) e in
      match awaitCapacity (capacity_wait o) e with
      | None => None
      | Some e => Some (e, status_eqb (status e) Mining)
      end
    else Some (e, true)
  else Some (e, true).

(** The [try] block up to the end of the dig: the engine and whether it
    got through without throwing. *)
Definition lookAndDig (target : Block) (o : AttemptObs) (e : Engine)
    : Engine * bool :=
  let e := await (during_lookAt o) (effect (BotLookAt target) e) in
  if negb (lookAt_ok o) then (e, false)
  else if negb (reachable_after o) then (e, false)
  else
    let e := effect (BotDig target) e in
    match dig o with
    | DigResolved => (await (during_dig o) e, true)
    | DigRejected => (await (during_dig o) e, false)
    | DigTimedOut =>
        (await (during_dig o) (effect (SleepMs 300) (effect BotStopDigging e)),
         false)
    end.

Definition attempt (pos : Vec3) (area : NormalizedArea) (o : AttemptObs)
    (e : Engine) : AttemptResult :=
  if status_eqb (status e) Idle then Return Stopped e
  else
    let e := await (during_clearOverlapping o)
               (effect AntiStuckClearOverlapping e) in
    if negb (worthMining (block o)) then Return NothingToMine e
    else
      match checkInventory area o e with
      | None => Stuck
      | Some (e, false) => Return NotMining e
      | Some (e, true) =>
          if entity_missing o
          then Crash "Cannot read properties of undefined"%string e
          else
            let e := if out_of_reach o
                     then await (during_goNear o) (effect (NavigatorGoNear pos 2) e)
                     else e in
            match targetBlock o with
            | None => Return NothingToMine e
            | Some target =>
                if negb (ToolSelector.shouldMine target)
                then Return NothingToMine e
                else
                  let e := await (during_equip o) (effect (EquipFor target) e) in
                  let e := set_currentTool (Some (tool o)) e in
                  match lookAndDig target o e with
                  | (e, true) =>
                      let (confirmed, ticks) :=
                        PositionConfirmer.waitAfterDig
                          (confirm_pm o) (confirm_world o) pos in
                      let e := await (during_confirm o)
                                 (effect (WaitAfterDig pos confirmed ticks) e) in
                      let e := effect AntiStuckMarkSafePosition e in
                      let e := save area (minedBlocks e) e in
                      let e := emit (MiningBlockMined pos (name target)) e in
                      Return Mined e
                  | (e, false) =>
                      Retry (await (during_retry_sleep o) (effect (SleepMs 500) e))
                  end
            end
      end.

Definition maxAttempts : Z := 3.

(** [while (attempts < maxAttempts)], with [left] passes to go and
    [attempts] failed ones behind. The result also counts the passes
    begun. *)
Fixpoint mineBlock_loop (left : nat) (attempts : nat) (pos : Vec3)
    (area : NormalizedArea) (obs : nat -> AttemptObs) (e : Engine)
    : Run (Exit * nat) :=
  match left with
  | O => Ret (Exhausted, attempts) e
  | S left' =>
      match attempt pos area (obs attempts) e with
      | Return how e => Ret (how, S attempts) e
      | Retry e => mineBlock_loop left' (S attempts) pos area obs e
      | Crash msg e => Throw msg e
      | Stuck => Hang
      end
  end.

Definition mineBlock (pos : Vec3) (area : NormalizedArea)
    (obs : nat -> AttemptObs) (e : Engine) : Run (Exit * nat) :=
  mineBlock_loop (Z.to_nat (maxAttempts - 0)) 0 pos area obs e.

(** *** mineArea *)

Record AppConfig : Type :=
  mkAppConfig { healToThreshold : Q; foodThreshold : Z }.

(** What one iteration of the target loop meets before and after its
    [mineBlock] call. *)
Record IterObs : Type := mkIterObs {
  during_save_sleep : list Command;
  pm_check : PingMonitor;                   (* telemetry at the auto-pause check *)
  connection_wait : list (list Command * PingMonitor); (* each sleep(2000), then telemetry *)
  health : Q;                               (* bot.health *)
  heal_wait : list (list Command * list Command * Q); (* eat, sleep(2000), then health *)
  pause_wait : list (list Command);         (* each sleep(500) *)
  during_eat : list Command;
  attempts : nat -> AttemptObs;
  pm_delay : PingMonitor;
  during_delay : list Command }.

(** [while (shouldAutoPause && status === 'paused') await sleep(2000)] *)
Fixpoint awaitConnection (pm : PingMonitor)
    (w : list (list Command * PingMonitor)) (e : Engine) : option Engine :=
  if AdaptiveTimings.shouldAutoPause pm && status_eqb (status e) Paused
  then match w with
       | [] => None
       | (during, pm') :: w' =>
           awaitConnection pm' w' (await during (effect (SleepMs 2000) e))
       end
  else Some e.

Definition autoPause_enter (e : Engine) : Engine :=
  let e := set_status Paused e in
  let e := set_error (Some "Auto-paused: bad connection"%string) e in
  emit (MiningPaused "high_ping") e.

Definition autoPause_leave (e : Engine) : Engine :=
  if status_eqb (status e) Paused
  then set_error None (set_status Mining e)
  else e.

Definition autoPause (o : IterObs) (e : Engine) : option Engine :=
  if AdaptiveTimings.shouldAutoPause (pm_check o) && status_eqb (status e) Mining
  then match awaitConnection (pm_check o) (connection_wait o) (autoPause_enter e) with
       | Some e => Some (autoPause_leave e)
       | None => None
       end
  else Some e.

(** [while (bot.health < healToThreshold) { eat; sleep; if idle return }];
    the boolean says that the loop returned from [mineArea]. *)
Fixpoint awaitHealing (cfg : AppConfig) (h : Q)
    (w : list (list Command * list Command * Q)) (e : Engine)
    : option (Engine * bool) :=
  if Qltb h (healToThreshold cfg)
  then match w with
       | [] => None
       | (during_eat, during_sleep, h') :: w' =>
           let e := await during_eat (effect EatIfNeeded e) in
           let e := await during_sleep (effect (SleepMs 2000) e) in
           if status_eqb (status e) Idle then Some (e, true)
           else awaitHealing cfg h' w' e
       end
  else Some (e, false).

Definition healthCheck (cfg : AppConfig) (o : IterObs) (e : Engine)
    : option (Engine * bool) :=
  if Qltb (health o) 14
  then
    let oldStatus := status e in
    let e := set_status Paused e in
    let e := set_error (Some "Healing..."%string) e in
    match awaitHealing cfg (health o) (heal_wait o) e with
    | None => None
    | Some (e, true) => Some (e, true)
    | Some (e, false) =>
        let e := set_status
                   (if status_eqb oldStatus Paused then Paused else Mining) e in
        Some (set_error None e, false)
    end
  else Some (e, false).

(** [while (status === 'paused') { await sleep(500); if idle return }] *)
Fixpoint awaitResume (w : list (list Command)) (e : Engine)
    : option (Engine * bool) :=
  if status_eqb (status e) Paused
  then match w with
       | [] => None
       | during :: w' =>
           let e := await during (effect (SleepMs 500) e) in
           if status_eqb (status e) Idle then Some (e, true)
           else awaitResume w' e
       end
  else Some (e, false).

(** The loop goes on to the next target, or [mineArea] returns. *)
Inductive Flow : Type := Next | Halt.

(** An iteration up to its [mineBlock] call. *)
Definition prelude (cfg : AppConfig) (area : NormalizedArea) (i : Z)
    (o : IterObs) (e : Engine) : Run Flow :=
  if status_eqb (status e) Idle then Ret Halt e
  else
    let e := if Z.rem i 50 =? 0
             then await (during_save_sleep o)
                    (effect (SleepMs 10) (save area (minedBlocks e) e))
             else e in
    match autoPause o e with
    | None => Hang
    | Some e =>
        match healthCheck cfg o e with
        | None => Hang
        | Some (e, true) => Ret Halt e
        | Some (e, false) =>
            match awaitResume (pause_wait o) e with
            | None => Hang
            | Some (e, true) => Ret Halt e
            | Some (e, false) =>
                Ret Next (await (during_eat o) (effect EatIfNeeded e))
            end
        end
    end.

(** An iteration after its [mineBlock] call. *)
Definition advance (i : Z) (o : IterObs) (e : Engine) : Engine :=
  let e := set_minedBlocks (i + 1) e in
  let e := emit (MiningProgress (minedBlocks e) (totalBlocks e)) e in
  let delay := AdaptiveTimings.interBlockDelay (pm_delay o) in
  if delay >? 0 then await (during_delay o) (effect (SleepMs delay) e) else e.

(** [positions[i]] *)
Definition positionAt (positions : list Vec3) (i : Z) : option Vec3 :=
  if i <? 0 then None else nth_error positions (Z.to_nat i).

Definition iteration (cfg : AppConfig) (positions : list Vec3)
    (area : NormalizedArea) (i : Z) (o : IterObs) (e : Engine) : Run Flow :=
  match prelude cfg area i o e with
  | Ret Next e =>
      match positionAt positions i with
      | None => Throw "Cannot read properties of undefined"%string e
      | Some pos =>
          match mineBlock pos area (attempts o) e with
          | Ret _ e => Ret Next (advance i o e)
          | Throw msg e => Throw msg e
          | Hang => Hang
          end
      end
  | r => r
  end.

(** [for (let i = startIndex; i < positions.length; i++)] with [n]
    iterations to go. *)
Fixpoint mineArea_loop (n : nat) (i : Z) (cfg : AppConfig)
    (positions : list Vec3) (area : NormalizedArea) (obs : Z -> IterObs)
    (e : Engine) : Run unit :=
  match n with
  | O => Ret tt e
  | S n' =>
      match iteration cfg positions area i (obs i) e with
      | Ret Next e => mineArea_loop n' (i + 1) cfg positions area obs e
      | Ret Halt e => Ret tt e
      | Throw msg e => Throw msg e
      | Hang => Hang
      end
  end.

Definition mineArea (cfg : AppConfig) (area : NormalizedArea)
    (startIndex : Z) (obs : Z -> IterObs) (e : Engine) : Run unit :=
  let positions := ZigzagPlanner.generateZigzagPositions area in
  let e := set_totalBlocks (Z.of_nat (length positions)) e in
  mineArea_loop (Z.to_nat (Z.of_nat (length positions) - startIndex))
                startIndex cfg positions area obs e.

(** *** start and resumeIfNeeded *)

(** The code after [await this.mineArea(...)]: the rest of [try], the
    [catch] and the [finally]. *)
Definition start_settle (r : Run unit) : Run unit :=
  match r with
  | Ret _ e =>
      let e := if status_eqb (status e) Mining
               then emit MiningFinished (clear (set_status Finished e))
               else e in
      Ret tt (effect AntiStuckDisable e)
  | Throw msg e =>
      let e := if negb (status_eqb (status e) Idle)
               then emit (MiningError msg)
                      (set_error (Some msg) (set_status Error e))
               else e in
      Ret tt (effect AntiStuckDisable e)
  | Hang => Hang
  end.

Definition start (cfg : AppConfig) (area : Area) (startIndex : Z)
    (obs : Z -> IterObs) (e : Engine) : Run unit :=
  if status_eqb (status e) Mining && (startIndex =? 0)
  then Throw "Already mining" e
  else
    let normalized := normalizeArea area in
    let e := set_status Mining e in
    let e := set_area (Some normalized) e in
    let e := set_minedBlocks startIndex e in
    let e := set_error None e in
    let e := effect NavigatorConfigureForMining e in
    let e := effect AntiStuckEnable e in
    let e := emit (MiningStarted normalized) e in
    start_settle (mineArea cfg normalized startIndex obs e).

Definition resumeIfNeeded (cfg : AppConfig) (obs : Z -> IterObs)
    (e : Engine) : Run unit :=
  match stateFile e with
  | None => Ret tt e
  | Some saved =>
      let area := mkArea (mkVec3 (x (min (saved_area saved)))
                                 (y (min (saved_area saved)))
                                 (z (min (saved_area saved))))
                         (mkVec3 (x (max (saved_area saved)))
                                 (y (max (saved_area saved)))
                                 (z (max (saved_area saved)))) in
      start cfg area (saved_minedBlocks saved) obs e
  end.

End MiningEngine.

(** ** network/ping-monitor.ts: the sampling *)

Module PingSampling.

Definition SAMPLE_SIZE : nat := 20.
Definition TPS_SAMPLE_SIZE : nat := 40.

Record State : Type := mkState {
  samples : list Z;
  lastTickTime : Z;
  tickDeltas : list Z;
  _currentPing : Z;
  _tps : Q }.

Definition initial : State := mkState [] 0 [] 0 20.

(** The getters [currentPing] and [tps], as the timings read them. *)
Definition monitor (st : State) : PingMonitor :=
  mkPingMonitor (_currentPing st) (_tps st).

(** [reduce((a, b) => a + b, 0)] *)
Definition sum (l : list Z) : Z := fold_left Z.add l 0.

Definition averagePing (st : State) : Z :=
  if (length (samples st) =? 0)%nat then 0
  else AdaptiveTimings.Math_round
         (inject_Z (sum (samples st)) / inject_Z (Z.of_nat (length (samples st)))).

Inductive Quality : Type := good | moderate | poor | critical.

Definition quality (st : State) : Quality :=
  let ping := _currentPing st in
  if ping <? 100 then good
  else if ping <? 250 then moderate
  else if ping <? 500 then poor
  else critical.

Record PingData : Type :=
  mkPingData { data_ping : Z; data_tps : Q; data_quality : Quality }.

Definition getData (st : State) : PingData :=
  mkPingData (_currentPing st)
             (inject_Z (AdaptiveTimings.Math_round (_tps st * 10)) / 10)
             (quality st).

Inductive PingEvent : Type :=
| PingUpdate (data : PingData)
| PingHigh (ping : Z)
| PingCritical (ping : Z).

(** [[...samples].sort((a, b) => a - b)]: the samples in ascending order. *)
Fixpoint insert (a : Z) (l : list Z) : list Z :=
  match l with
  | [] => [a]
  | b :: l' => if a <=? b then a :: l else b :: insert a l'
  end.

Definition sort (l : list Z) : list Z := fold_right insert [] l.

(** The callback of [startPingMeasurement]. [player] is [bot.player], whose
    [ping] may be undefined. *)
Definition measure (player : option (option Z)) (st : State)
    : State * list PingEvent :=
  match player with
  | None => (st, [])
  | Some p =>
      let ping := match p with Some v => v | None => 0 end in
      let samples := samples st ++ [ping] in
      let samples := if (SAMPLE_SIZE <? length samples)%nat
                     then tl samples else samples in
      let sorted := sort samples in
      let current := nth (Nat.div (length sorted) 2) sorted 0 in
      let st := mkState samples (lastTickTime st) (tickDeltas st) current
                        (_tps st) in
      (st,
       [PingUpdate (getData st)]
       ++ (if current >? 500 then [PingHigh current] else [])
       ++ (if current >? 1000 then [PingCritical current] else []))
  end.

(** [startTPSEstimation] and its [physicTick] listener. *)
Definition startTPSEstimation (now : Z) (st : State) : State :=
  mkState (samples st) now (tickDeltas st) (_currentPing st) (_tps st).

Definition tickListener (now : Z) (st : State) : State :=
  let delta := now - lastTickTime st in
  let deltas :=
    if (delta >? 0) && (delta <? 500)
    then
      let d := tickDeltas st ++ [delta] in
      if (TPS_SAMPLE_SIZE <? length d)%nat then tl d else d
    else tickDeltas st in
  let tps :=
    if (10 <=? length deltas)%nat
    then
      let avgDelta := (inject_Z (sum deltas)
                       / inject_Z (Z.of_nat (length deltas)))%Q in
      Qmin 20 (1000 / avgDelta)
    else _tps st in
  mkState (samples st) now deltas (_currentPing st) tps.

End PingSampling.

(** ** mining/mining-engine.ts: goToBase *)

Module BaseTravel.

Import MiningEngine.

(** [config.baseLocation]: x and z, and y when it is given. *)
Record BaseLocation : Type :=
  mkBase { base_x : Z; base_y : option Z; base_z : Z }.

(** The navigator calls of [goToBase]. *)
Inductive NavigatorCall : Type :=
| ConfigureForTravel
| GoToXZ (x z : Z)
| GoTo (x y z range : Z).

(** How the awaited navigation ended. *)
Inductive NavResult : Type :=
| Arrived
| NavFailed (msg : string).

(** [goToBase]: [during] are the pause, resume and stop calls that arrive
    while the navigation is awaited, [nav] is its outcome. The result
    lists the navigator calls made. Other writers of the engine's state
    during the walk (a [start] call, a second [goToBase] call, a mining
    run that is still suspended) are not part of this model. *)
Definition goToBase (baseLocation : option BaseLocation)
    (during : list Command) (nav : NavResult) (e : Engine)
    : Run (list NavigatorCall) :=
  match baseLocation with
  | None => Throw "Base coordinates not set in .env" e
  | Some base =>
      if status_eqb (status e) Mining || status_eqb (status e) Traveling
      then Throw "Bot is busy" e
      else
        let e := set_status Traveling e in
        let e := set_error (Some "Navigating to base..."%string) e in
        let e := effect AntiStuckEnable e in
        let call := match base_y base with
                    | None => GoToXZ (base_x base) (base_z base)
                    | Some y => GoTo (base_x base) y (base_z base) 2
                    end in
        let e := await during e in
        let e :=
          match nav with
          | Arrived =>
              if status_eqb (status e) Traveling
              then set_error None (set_status Idle e)
              else e
          | NavFailed msg =>
              if negb (status_eqb (status e) Idle)
              then set_error (Some ("Navigation error: " ++ msg)%string)
                     (set_status Error e)
              else e
          end in
        Ret [ConfigureForTravel; call] (effect AntiStuckDisable e)
  end.

End BaseTravel.

(** ** safety/creeper-guard.ts *)

Module CreeperGuard.

Record Config : Type :=
  mkConfig { creeperEvadeDistance : Q; creeperDisconnectDistance : Q }.

(** [loadConfig] sets both distances to constants. *)
Definition loadConfig : Config := mkConfig 5 3.

Inductive Reaction : Type :=
| EmitCreeperNearby
| EvadeFrom (threat : QVec3)
| BotQuit.

(** [dist < t], for a distance given by its square. *)
Definition closerThan (d2 t : Q) : bool := Qltb 0 t && Qltb d2 (t * t).

(** The tick listener: [bot] is the position of the bot's entity and
    [creeper] that of the nearest creeper, when they are there. *)
Definition tickListener (cfg : Config) (bot creeper : option QVec3)
    : list Reaction :=
  match bot with
  | None => []
  | Some pos =>
      match creeper with
      | None => []
      | Some c =>
          let d2 := AntiStuck.dist2 pos c in
          (if closerThan d2 10 then [EmitCreeperNearby] else [])
          ++ (if closerThan d2 (creeperEvadeDistance cfg)
              then [EvadeFrom c] else [])
          ++ (if closerThan d2 (creeperDisconnectDistance cfg)
              then [BotQuit] else [])
      end
  end.

(** The sound listener: [primed] says that the sound's name contains
    [creeper.primed]. *)
Definition soundListener (bot : option QVec3) (primed : bool)
    (position : QVec3) : list Reaction :=
  match bot with
  | None => []
  | Some pos =>
      if primed
      then if closerThan (AntiStuck.dist2 pos position) 7 then [BotQuit] else []
      else []
  end.

End CreeperGuard.

(** ** Vocabulary of the properties *)

Module PlannerShape.

Definition width (a : NormalizedArea) : nat :=
  Z.to_nat (x (max a) - x (min a) + 1).

Definition depth (a : NormalizedArea) : nat :=
  Z.to_nat (z (max a) - z (min a) + 1).

Definition height (a : NormalizedArea) : nat :=
  Z.to_nat (y (max a) - y (min a) + 1).

(** A point lies in the box spanned by a normalized area. *)
Definition in_box (a : NormalizedArea) (p : Vec3) : Prop :=
  x (min a) <= x p <= x (max a) /\
  y (min a) <= y p <= y (max a) /\
  z (min a) <= z p <= z (max a).

(** The counter values of an ascending and of a descending loop. *)
Fixpoint ups (n : nat) (i : Z) : list Z :=
  match n with
  | O => []
  | S n' => i :: ups n' (i + 1)
  end.

Fixpoint downs (n : nat) (i : Z) : list Z :=
  match n with
  | O => []
  | S n' => i :: downs n' (i - 1)
  end.

(** One z-row, one y-layer and the whole traversal, as the loops emit them. *)
Definition row (area : NormalizedArea) (yv zv : Z) (reverseX : bool)
    : list Vec3 :=
  map (fun xv => mkVec3 xv yv zv)
      (if reverseX then downs (width area) (x (max area))
       else ups (width area) (x (min area))).

Fixpoint rows (area : NormalizedArea) (n : nat) (zi : Z) (reverseX : bool)
    (yv : Z) : list Vec3 :=
  match n with
  | O => []
  | S n' => row area yv zi reverseX ++ rows area n' (zi + 1) (negb reverseX) yv
  end.

Fixpoint layers (area : NormalizedArea) (n : nat) (yi : Z) : list Vec3 :=
  match n with
  | O => []
  | S n' => rows area (depth area) (z (min area)) false yi
            ++ layers area n' (yi - 1)
  end.

End PlannerShape.

Module EngineShape.

Import MiningEngine.

Definition engineOf (r : AttemptResult) : option Engine :=
  match r with
  | Return _ e | Retry e | Crash _ e => Some e
  | Stuck => None
  end.

(** The number of [bot.dig] calls among the effects. *)
Definition isDig (f : Effect) : bool :=
  match f with BotDig _ => true | _ => false end.

Definition digs (e : Engine) : nat := length (filter isDig (effects e)).

(** A pass that fails inside the guarded block and that nothing
    interrupts. *)
Definition failingPass (o : AttemptObs) : Prop :=
  during_clearOverlapping o = [] /\
  worthMining (block o) = true /\
  isFull o = false /\
  entity_missing o = false /\
  during_goNear o = [] /\
  worthMining (targetBlock o) = true /\
  during_equip o = [] /\
  during_lookAt o = [] /\
  during_dig o = [] /\
  during_retry_sleep o = [] /\
  (lookAt_ok o = false \/ reachable_after o = false \/ dig o <> DigResolved).


(** An effect that is not a dig, or a dig of a block the tool selector
    lets through. *)
Definition minable (f : Effect) : Prop :=
  match f with
  | BotDig b => ToolSelector.shouldMine b = true
  | _ => True
  end.

Definition digsMinable (e : Engine) : Prop := Forall minable (effects e).

(** The engine a method leaves behind, when it ends. *)
Definition endOf {A : Type} (r : Run A) : option Engine :=
  match r with
  | Ret _ e | Throw _ e => Some e
  | Hang => None
  end.

(** A pass that nothing interrupts and whose dig resolves. *)
Definition cleanPass (o : AttemptObs) : Prop :=
  during_clearOverlapping o = [] /\
  worthMining (block o) = true /\
  isFull o = false /\
  entity_missing o = false /\
  during_goNear o = [] /\
  worthMining (targetBlock o) = true /\
  during_equip o = [] /\
  during_lookAt o = [] /\
  lookAt_ok o = true /\
  reachable_after o = true /\
  during_dig o = [] /\
  dig o = DigResolved /\
  during_confirm o = [].

(** An iteration that nothing interrupts: the connection and the health
    are good, and the first pass is clean. *)
Definition cleanIter (o : IterObs) : Prop :=
  during_save_sleep o = [] /\
  AdaptiveTimings.shouldAutoPause (pm_check o) = false /\
  Qltb (health o) 14 = false /\
  during_eat o = [] /\
  cleanPass (attempts o 0%nat) /\
  during_delay o = [].

(** The positions of the block-mined events among the effects, in order. *)
Definition minedAt (f : Effect) : list Vec3 :=
  match f with
  | Emit (MiningBlockMined pos _) => [pos]
  | _ => []
  end.

Definition minedPositions (e : Engine) : list Vec3 :=
  flat_map minedAt (effects e).

End EngineShape.

Module RecoveryShape.

Import AntiStuck.

Definition levelInRange (st : State) : Prop :=
  0 <= recoveryLevel st <= MAX_RECOVERY_LEVEL.

Definition notBedrock (b : Block) : Prop := name b <> "bedrock"%string.

Definition digsOnly (P : Block -> Prop) (acts : list Action) : Prop :=
  forall b, In (Dig b) acts -> P b.

End RecoveryShape.

Module NavigatorShape.

Import Navigator.

(** While the promise is pending the call is not done, its timers are
    registered and the solver's promise has not settled; once the promise
    has settled the call is done, every control is released, the timers
    are gone and the solver is no longer solving. *)
Definition wellFormed (c : Call) : Prop :=
  match settled c with
  | None =>
      isDone c = false /\ timer c = true /\ stuckChecker c = true /\
      solver c <> Ended
  | Some _ =>
      isDone c = true /\ (forall k, controls c k = false) /\
      timer c = false /\ stuckChecker c = false /\ solver c <> Solving
  end.

(** The entity at [p] has moved less than 0.2 blocks from [home]. *)
Definition stalledAt (home p : QVec3) : Prop :=
  Qltb (AntiStuck.dist2 p home) ((2 # 10) * (2 # 10)) = true.

(** Consecutive firings of the stuck checker, with the entity at the given
    positions. *)
Definition stuckChecks (canClear : bool) (pm : PingMonitor)
    (ps : list QVec3) (c : Call) : Call :=
  fold_left (fun c p => step c (EvStuckCheck (Some p) canClear pm)) ps c.

End NavigatorShape.

(** ** Sample worlds, telemetry and observations *)

Module Samples.

Import MiningEngine.

Definition stone (p : Vec3) : Block := mkBlock "stone" "block" p.

Definition stoneWorld : World := fun _ => Some ("stone", "block")%string.
Definition airWorld : World := fun _ => Some ("air", "empty")%string.
Definition bedrockWorld : World := fun _ => Some ("bedrock", "block")%string.

Definition calm : PingMonitor := mkPingMonitor 50 20.

Definition box2x1x2 : NormalizedArea :=
  mkNormalizedArea (mkVec3 0 0 0) (mkVec3 1 0 1).

(** A pass in which nothing interferes: the block is there, the inventory
    has room, the block is in reach, and the dig ends as [d]; afterwards
    the server shows [after]. *)
Definition pass (pos : Vec3) (d : DigResult) (after : World) : AttemptObs :=
  mkAttemptObs [] (Some (stone pos)) false [] true [] false false []
               (Some (stone pos)) [] "Hand" [] true true [] d
               calm (fun _ => after) [] [].

(** An iteration in which nothing interferes, with the given passes. *)
Definition quiet (passes : nat -> AttemptObs) : IterObs :=
  mkIterObs [] calm [] 20 [] [] [] passes calm [].

Definition cfg : AppConfig := mkAppConfig 18 18.

(** The engine in the middle of a run over [box2x1x2], at target [i]. *)
Definition midRun (i : Z) : Engine :=
  mkEngine Mining (Some box2x1x2) 4 i None None None [].

Definition standing (p : QVec3) (w : World) : View :=
  mkView w (Some (mkEntity p true)) (Some (1, 0)%Q).

End Samples.

Module SamplingShape.

Import PingSampling.

(** How many entries of a list pass a test. *)
Definition count (p : Z -> bool) (l : list Z) : nat := length (filter p l).

(** What the tick listener keeps true: every recorded interval lies
    strictly between 0 and 500 ms, at most 40 are kept, and the estimate is
    above 2 and at most 20 ticks per second. *)
Definition tpsInvariant (st : State) : Prop :=
  Forall (fun d => 0 < d < 500) (tickDeltas st) /\
  (length (tickDeltas st) <= TPS_SAMPLE_SIZE)%nat /\
  (2 < _tps st)%Q /\ (_tps st <= 20)%Q.

End SamplingShape.

Module MonitorShape.

Import AntiStuck.

(** Each saved position lies at least one block from the one saved
    before it. *)
Fixpoint spaced (l : list QVec3) : Prop :=
  match l with
  | a :: (b :: _) as rest => (1 <= dist2 b a)%Q /\ spaced rest
  | _ => True
  end.

Definition buffersBounded (st : State) : Prop :=
  (length (safePositions st) <= SAFE_POSITIONS_KEEP)%nat /\
  (length (posHistory st) <= POSITION_HISTORY_SIZE)%nat /\
  spaced (safePositions st).

(** The in-recovery flag is set exactly while one of the two suspending
    methods is in flight, and they are never in flight together. *)
Definition flagsConsistent (st : State) : Prop :=
  match suspended st, clearing st with
  | None, false => recovering st = false
  | Some _, false => recovering st = true
  | None, true => recovering st = true
  | Some _, true => False
  end.

Definition isStuckEvent (ev : SafetyEvent) : bool :=
  match ev with SafetyStuck _ _ => true | SafetyUnstuck => false end.

Definition stuckEvents (st : State) : nat :=
  length (filter isStuckEvent (emitted st)).

Definition unstuckEvents (st : State) : nat :=
  length (filter (fun ev => negb (isStuckEvent ev)) (emitted st)).

Definition pendingRecoveries (st : State) : nat :=
  match suspended st with Some _ => 1 | None => 0 end.

(** The bot's box overlaps a solid block in this view. *)
Definition suffocating (v : View) : Prop := getOverlappingBlocks v <> [].

(** A run of physics ticks under one telemetry reading. *)
Definition ticks (pm : PingMonitor) (l : list (Z * View)) (st : State) : State :=
  fold_left (fun s t => tickListener (fst t) pm (snd t) s) l st.

(** An entry of the position history lies outside the loop radius around
    [current]. *)
Definition outside (current : QVec3) (entry : QVec3 * Z) : bool :=
  negb (Qltb (dist2 (fst entry) current) ((25 # 10) * (25 # 10))).

(** The part of the state that the suspending methods write. *)
Definition flags (st : State)
    : bool * option Phase * bool * list SafetyEvent :=
  (recovering st, suspended st, clearing st, emitted st).

Definition exclusive (st : State) : Prop :=
  flagsConsistent st /\
  (unstuckEvents st + pendingRecoveries st <= stuckEvents st)%nat.

(** The unit cube of the block position [p] strictly intersects the bot's
    box (0.6 wide, 1.8 high) standing at [pos]. *)
Definition overlaps (pos : QVec3) (p : Vec3) : Prop :=
  (qx pos - (3 # 10) < inject_Z (x p + 1))%Q /\
  (inject_Z (x p) < qx pos + (3 # 10))%Q /\
  (qy pos < inject_Z (y p + 1))%Q /\
  (inject_Z (y p) < qy pos + (18 # 10))%Q /\
  (qz pos - (3 # 10) < inject_Z (z p + 1))%Q /\
  (inject_Z (z p) < qz pos + (3 # 10))%Q.

(** What the scan of [getOverlappingBlocks] adds at one block position. *)
Definition overlappingAt (v : View) (pos : QVec3) (p : Vec3) : list Block :=
  match blockAt (world v) p with
  | None => []
  | Some b =>
      if negb (boundingBox b =? "block")%string || (name b =? "bedrock")%string
      then []
      else
        if Qltb (qx pos - (3 # 10)) (inject_Z (x (offset (position b) 1 1 1)))
           && Qltb (inject_Z (x (position b))) (qx pos + (3 # 10))
           && Qltb (qy pos) (inject_Z (y (offset (position b) 1 1 1)))
           && Qltb (inject_Z (y (position b))) (qy pos + (18 # 10))
           && Qltb (qz pos - (3 # 10)) (inject_Z (z (offset (position b) 1 1 1)))
           && Qltb (inject_Z (z (position b))) (qz pos + (3 # 10))
        then [b]
        else []
  end.

(** A block next to the column the bot stands in (diagonals included), at
    the level of its feet or of its head. *)
Definition beside (pos : QVec3) (b : Block) : Prop :=
  let p := floored pos in
  (y (position b) = y p \/ y (position b) = y p + 1) /\
  -1 <= x (position b) - x p <= 1 /\
  -1 <= z (position b) - z p <= 1 /\
  (x (position b) <> x p \/ z (position b) <> z p).

End MonitorShape.

(* ================================================================= *)
(** * Part II: properties *)
(* ================================================================= *)

Example zigzag_2x1x2 :
  ZigzagPlanner.generateZigzagPositions
    (mkNormalizedArea (mkVec3 0 0 0) (mkVec3 1 0 1))
  = [mkVec3 0 0 0; mkVec3 1 0 0; mkVec3 1 0 1; mkVec3 0 0 1].
Proof. reflexivity. Qed.

Example digTimeout_samples :
  AdaptiveTimings.digTimeout (mkPingMonitor 0 20) = 6000 /\
  AdaptiveTimings.digTimeout (mkPingMonitor 500 20) = 7000 /\
  AdaptiveTimings.digTimeout (mkPingMonitor 500 (5 # 1)) = 28000 /\
  AdaptiveTimings.interBlockDelay (mkPingMonitor 300 20) = 100.
Proof. repeat split; vm_compute; reflexivity. Qed.

(** ** Adaptive timings *)

Lemma Math_round_inject_Z (n : Z) : AdaptiveTimings.Math_round (inject_Z n) = n.
Proof.
  unfold AdaptiveTimings.Math_round, Qfloor, Qplus, inject_Z; simpl.
  symmetry. apply Z.div_unique with (r := 1); lia.
Qed.

(** C7: the dig timeout grows from latency 0 to latency 500 at the nominal
    tick rate, and each capped timing quantity stays at or below its cap
    (30000, 30000, 300000, 200 and 15000 ms) for every latency and every
    tick rate. *)
Theorem timings_monotone_and_capped :
  AdaptiveTimings.digTimeout (mkPingMonitor 0 20)
    < AdaptiveTimings.digTimeout (mkPingMonitor 500 20) /\
  forall pm : PingMonitor,
    AdaptiveTimings.digTimeout pm <= 30000 /\
    AdaptiveTimings.pathfindTimeout pm <= 30000 /\
    AdaptiveTimings.navigationTimeout pm <= 300000 /\
    AdaptiveTimings.interBlockDelay pm <= 200 /\
    AdaptiveTimings.safedigTimeout pm <= 15000.
Proof.
  split.
  - vm_compute. reflexivity.
  - intro pm.
    unfold AdaptiveTimings.digTimeout, AdaptiveTimings.pathfindTimeout,
      AdaptiveTimings.navigationTimeout, AdaptiveTimings.interBlockDelay,
      AdaptiveTimings.safedigTimeout.
    repeat split; apply Z.le_min_r.
Qed.

(** ** The zigzag planner *)

Section Planner.

Import ZigzagPlanner PlannerShape.

Lemma loop_up_push (f : Z -> Vec3) (n : nat) :
  forall i ps,
    loop_up n i (fun v ps => push ps (f v)) ps = ps ++ map f (ups n i).
Proof.
  induction n as [|n IH]; intros i ps; simpl.
  - now rewrite app_nil_r.
  - rewrite IH. unfold push. now rewrite <- app_assoc.
Qed.

Lemma loop_down_push (f : Z -> Vec3) (n : nat) :
  forall i ps,
    loop_down n i (fun v ps => push ps (f v)) ps = ps ++ map f (downs n i).
Proof.
  induction n as [|n IH]; intros i ps; simpl.
  - now rewrite app_nil_r.
  - rewrite IH. unfold push. now rewrite <- app_assoc.
Qed.

Lemma ups_length n : forall i, length (ups n i) = n.
Proof. induction n; intros; simpl; auto. Qed.

Lemma downs_length n : forall i, length (downs n i) = n.
Proof. induction n; intros; simpl; auto. Qed.

Lemma ups_In n : forall i v, In v (ups n i) <-> i <= v < i + Z.of_nat n.
Proof.
  induction n as [|n IH]; intros i v; simpl.
  - lia.
  - rewrite IH. lia.
Qed.

Lemma downs_In n : forall i v, In v (downs n i) <-> i - Z.of_nat n < v <= i.
Proof.
  induction n as [|n IH]; intros i v; simpl.
  - lia.
  - rewrite IH. lia.
Qed.

Lemma ups_nth n : forall i c, (c < n)%nat ->
  nth_error (ups n i) c = Some (i + Z.of_nat c).
Proof.
  induction n as [|n IH]; intros i c Hc; [lia|].
  destruct c as [|c]; simpl.
  - f_equal. lia.
  - rewrite IH by lia. f_equal. lia.
Qed.

Lemma downs_nth n : forall i c, (c < n)%nat ->
  nth_error (downs n i) c = Some (i - Z.of_nat c).
Proof.
  induction n as [|n IH]; intros i c Hc; [lia|].
  destruct c as [|c]; simpl.
  - f_equal. lia.
  - rewrite IH by lia. f_equal. lia.
Qed.

Lemma ups_NoDup n : forall i, NoDup (ups n i).
Proof.
  induction n as [|n IH]; intros i; simpl; constructor.
  - rewrite ups_In. lia.
  - apply IH.
Qed.

Lemma downs_NoDup n : forall i, NoDup (downs n i).
Proof.
  induction n as [|n IH]; intros i; simpl; constructor.
  - rewrite downs_In. lia.
  - apply IH.
Qed.

Variable area : NormalizedArea.

Lemma z_loop_rows (yv : Z) (n : nat) :
  forall zi reverseX ps,
    snd (loop_up n zi
           (fun z (st : bool * list Vec3) =>
              let (reverseX, positions) := st in
              let positions :=
                if reverseX
                then for_down (x (max area)) (x (min area))
                       (fun x positions => push positions (mkVec3 x yv z))
                       positions
                else for_up (x (min area)) (x (max area))
                       (fun x positions => push positions (mkVec3 x yv z))
                       positions in
              (negb reverseX, positions))
           (reverseX, ps))
    = ps ++ rows area n zi reverseX yv.
Proof.
  induction n as [|n IH]; intros zi reverseX ps; simpl.
  - now rewrite app_nil_r.
  - rewrite IH. unfold row, for_up, for_down, width.
    destruct reverseX.
    + rewrite (loop_down_push (fun xv => mkVec3 xv yv zi)).
      now rewrite <- app_assoc.
    + rewrite (loop_up_push (fun xv => mkVec3 xv yv zi)).
      now rewrite <- app_assoc.
Qed.

Lemma y_loop_layers (n : nat) :
  forall yi ps,
    loop_down n yi
      (fun y positions =>
         snd (for_up (z (min area)) (z (max area))
                (fun z (st : bool * list Vec3) =>
                   let (reverseX, positions) := st in
                   let positions :=
                     if reverseX
                     then for_down (x (max area)) (x (min area))
                            (fun x positions => push positions (mkVec3 x y z))
                            positions
                     else for_up (x (min area)) (x (max area))
                            (fun x positions => push positions (mkVec3 x y z))
                            positions in
                   (negb reverseX, positions))
                (false, positions)))
      ps
    = ps ++ layers area n yi.
Proof.
  induction n as [|n IH]; intros yi ps; simpl.
  - now rewrite app_nil_r.
  - rewrite IH. unfold for_up at 1, depth.
    rewrite z_loop_rows. now rewrite <- app_assoc.
Qed.

Lemma generateZigzagPositions_layers :
  generateZigzagPositions area = layers area (height area) (y (max area)).
Proof.
  unfold generateZigzagPositions, for_down, height.
  now rewrite y_loop_layers.
Qed.

Lemma row_length yv zv rev : length (row area yv zv rev) = width area.
Proof.
  unfold row. rewrite length_map.
  destruct rev; [apply downs_length | apply ups_length].
Qed.

Lemma rows_length n : forall zi rev yv,
  length (rows area n zi rev yv) = (n * width area)%nat.
Proof.
  induction n as [|n IH]; intros; simpl; [reflexivity|].
  now rewrite length_app, row_length, IH.
Qed.

Lemma layers_length n : forall yi, length (layers area n yi) = (n * (depth area * width area))%nat.
Proof.
  induction n as [|n IH]; intros; simpl; [reflexivity|].
  now rewrite length_app, rows_length, IH.
Qed.

Lemma row_In yv zv rev p :
  In p (row area yv zv rev) <->
  y p = yv /\ z p = zv /\ x (min area) <= x p <= x (max area).
Proof.
  unfold row. rewrite in_map_iff. split.
  - intros [xv [<- Hin]]; simpl.
    destruct rev; [apply downs_In in Hin | apply ups_In in Hin];
      unfold width in Hin; lia.
  - intros (Hy & Hz & Hx). exists (x p). split.
    + destruct p; simpl in *; congruence.
    + destruct rev; [apply downs_In | apply ups_In]; unfold width; lia.
Qed.

Lemma rows_In n : forall zi rev yv p,
  In p (rows area n zi rev yv) <->
  y p = yv /\ zi <= z p < zi + Z.of_nat n /\
  x (min area) <= x p <= x (max area).
Proof.
  induction n as [|n IH]; intros zi rev yv p; simpl.
  - lia.
  - rewrite in_app_iff, row_In, IH. lia.
Qed.

Lemma layers_In n : forall yi p,
  In p (layers area n yi) <->
  yi - Z.of_nat n < y p <= yi /\
  z (min area) <= z p <= z (max area) /\
  x (min area) <= x p <= x (max area).
Proof.
  induction n as [|n IH]; intros yi p; simpl.
  - lia.
  - rewrite in_app_iff, rows_In, IH. unfold depth. lia.
Qed.

Lemma row_NoDup yv zv rev : NoDup (row area yv zv rev).
Proof.
  unfold row. apply Injective_map_NoDup.
  - intros a b Hab. now inversion Hab.
  - destruct rev; [apply downs_NoDup | apply ups_NoDup].
Qed.

Lemma rows_NoDup n : forall zi rev yv, NoDup (rows area n zi rev yv).
Proof.
  induction n as [|n IH]; intros zi rev yv; simpl; [constructor|].
  apply NoDup_app; [apply row_NoDup | apply IH |].
  intros p Hp Hq. apply row_In in Hp. apply rows_In in Hq. lia.
Qed.

Lemma layers_NoDup n : forall yi, NoDup (layers area n yi).
Proof.
  induction n as [|n IH]; intros yi; simpl; [constructor|].
  apply NoDup_app; [apply rows_NoDup | apply IH |].
  intros p Hp Hq. apply rows_In in Hp. apply layers_In in Hq. lia.
Qed.

Lemma row_nth yv zv rev c : (c < width area)%nat ->
  nth_error (row area yv zv rev) c
  = Some (mkVec3 (if rev then x (max area) - Z.of_nat c
                  else x (min area) + Z.of_nat c) yv zv).
Proof.
  intro Hc. unfold row. rewrite nth_error_map.
  destruct rev; [rewrite downs_nth | rewrite ups_nth]; auto.
Qed.

Lemma rows_nth n : forall zi rev yv r c, (r < n)%nat -> (c < width area)%nat ->
  nth_error (rows area n zi rev yv) (r * width area + c)
  = Some (mkVec3 (if xorb rev (Nat.odd r) then x (max area) - Z.of_nat c
                  else x (min area) + Z.of_nat c) yv (zi + Z.of_nat r)).
Proof.
  induction n as [|n IH]; intros zi rev yv r c Hr Hc; [lia|].
  simpl. destruct r as [|r].
  - simpl. rewrite nth_error_app1 by (rewrite row_length; lia).
    rewrite row_nth by assumption.
    rewrite xorb_false_r. do 2 f_equal. lia.
  - rewrite nth_error_app2 by (rewrite row_length; lia).
    rewrite row_length.
    replace (S r * width area + c - width area)%nat
      with (r * width area + c)%nat by lia.
    rewrite IH by lia.
    rewrite Nat.odd_succ, <- Nat.negb_odd.
    replace (xorb (negb rev) (Nat.odd r)) with (xorb rev (negb (Nat.odd r)))
      by (destruct rev, (Nat.odd r); reflexivity).
    do 2 f_equal. lia.
Qed.

Lemma layers_nth n : forall yi l r c,
  (l < n)%nat -> (r < depth area)%nat -> (c < width area)%nat ->
  nth_error (layers area n yi)
    (l * (depth area * width area) + r * width area + c)
  = Some (mkVec3 (if Nat.even r then x (min area) + Z.of_nat c
                  else x (max area) - Z.of_nat c)
                 (yi - Z.of_nat l) (z (min area) + Z.of_nat r)).
Proof.
  induction n as [|n IH]; intros yi l r c Hl Hr Hc; [lia|].
  assert (Hrc : (r * width area + c < depth area * width area)%nat) by nia.
  simpl. destruct l as [|l].
  - simpl. rewrite nth_error_app1 by (rewrite rows_length; lia).
    rewrite rows_nth by assumption. simpl.
    rewrite <- Nat.negb_even. destruct (Nat.even r); simpl; do 2 f_equal; lia.
  - rewrite nth_error_app2 by (rewrite rows_length; lia).
    rewrite rows_length.
    replace (S l * (depth area * width area) + r * width area + c
             - depth area * width area)%nat
      with (l * (depth area * width area) + r * width area + c)%nat by lia.
    rewrite IH by lia. do 2 f_equal. lia.
Qed.

End Planner.

Lemma normalizeArea_ordered (a : Area) :
  let n := MiningEngine.normalizeArea a in
  x (min n) <= x (max n) /\ y (min n) <= y (max n) /\ z (min n) <= z (max n).
Proof. simpl. lia. Qed.


(** C1: for a normalized area (min <= max on every axis) the planner returns
    as many coordinates as the area's volume, without repetition, and a
    point is in the sequence exactly when it is an integer point of the box.
    The order is: layer [l] (counted from the top) has y = max.y - l, row [r]
    of a layer has z = min.z + r, and column [c] of a row has x = min.x + c on
    even rows and x = max.x - c on odd rows; the coordinate of layer [l], row
    [r], column [c] sits at index l*(D*W) + r*W + c. The corners
    (0,0,0)-(1,0,1) give (0,0,0),(1,0,0),(1,0,1),(0,0,1). *)
Theorem generateZigzagPositions_spec (a : NormalizedArea) :
  x (min a) <= x (max a) -> y (min a) <= y (max a) -> z (min a) <= z (max a) ->
  let ps := ZigzagPlanner.generateZigzagPositions a in
  let W := PlannerShape.width a in
  let D := PlannerShape.depth a in
  let H := PlannerShape.height a in
  Z.of_nat (length ps) = MiningEngine.areaSize a /\
  NoDup ps /\
  (forall p, In p ps <-> PlannerShape.in_box a p) /\
  (forall l r c : nat, (l < H)%nat -> (r < D)%nat -> (c < W)%nat ->
     nth_error ps (l * (D * W) + r * W + c)
     = Some (mkVec3 (if Nat.even r then x (min a) + Z.of_nat c
                     else x (max a) - Z.of_nat c)
                    (y (max a) - Z.of_nat l)
                    (z (min a) + Z.of_nat r))) /\
  ZigzagPlanner.generateZigzagPositions
    (MiningEngine.normalizeArea (mkArea (mkVec3 0 0 0) (mkVec3 1 0 1)))
  = [mkVec3 0 0 0; mkVec3 1 0 0; mkVec3 1 0 1; mkVec3 0 0 1].
Proof.
  intros Hx Hy Hz ps W D H. subst ps W D H.
  rewrite generateZigzagPositions_layers.
  split; [|split; [|split; [|split]]].
  - rewrite layers_length.
    unfold MiningEngine.areaSize, PlannerShape.height, PlannerShape.depth,
      PlannerShape.width.
    rewrite !Nat2Z.inj_mul, !Z2Nat.id by lia. ring.
  - apply layers_NoDup.
  - intro p. unfold PlannerShape.in_box. rewrite layers_In.
    unfold PlannerShape.height. lia.
  - intros l r c Hl Hr Hc. apply layers_nth; assumption.
  - reflexivity.
Qed.

Lemma generateZigzagPositions_spec_witness :
  Z.of_nat (length (ZigzagPlanner.generateZigzagPositions
                      (mkNormalizedArea (mkVec3 0 0 0) (mkVec3 1 0 1)))) = 4 /\
  nth_error (ZigzagPlanner.generateZigzagPositions
               (mkNormalizedArea (mkVec3 0 0 0) (mkVec3 1 0 1))) 2
  = Some (mkVec3 1 0 1).
Proof.
  pose proof (generateZigzagPositions_spec
                (mkNormalizedArea (mkVec3 0 0 0) (mkVec3 1 0 1))) as S.
  simpl in S.
  destruct (S ltac:(lia) ltac:(lia) ltac:(lia)) as (Hlen & _ & _ & Hnth & _).
  split.
  - exact Hlen.
  - exact (Hnth 0%nat 1%nat 0%nat ltac:(vm_compute; lia) ltac:(vm_compute; lia)
             ltac:(vm_compute; lia)).
Defined.

(** ** The confirmation waiter *)

Section Confirmer.

Import PositionConfirmer.

Lemma waitForBlockBreak_loop_spec (world : nat -> World) (pos : Vec3) (n : nat) :
  forall i,
    let r := waitForBlockBreak_loop world pos n i in
    (i <= snd r <= i + n)%nat /\
    (fst r = true ->
       (i < snd r)%nat /\
       isGone (blockAt (world (snd r - 1)%nat) pos) = true /\
       forall j, (i <= j < snd r - 1)%nat ->
                 isGone (blockAt (world j) pos) = false) /\
    (fst r = false ->
       snd r = (i + n)%nat /\
       forall j, (i <= j < i + n)%nat ->
                 isGone (blockAt (world j) pos) = false).
Proof.
  induction n as [|n IH]; intro i; simpl.
  - repeat split; try lia; try discriminate; try (intros; lia).
  - destruct (isGone (blockAt (world i) pos)) eqn:Hg; simpl.
    + replace (i - 0)%nat with i by lia.
      repeat split; try lia; try assumption; try discriminate;
        try (intros; lia).
    + specialize (IH (S i)). simpl in IH.
      destruct IH as (Hb & Ht & Hf).
      split; [lia|]. split.
      * intro Hr. destruct (Ht Hr) as (H1 & H2 & H3).
        repeat split; try lia; try assumption.
        intros j Hj. destruct (Nat.eq_dec j i) as [->|]; [assumption|].
        apply H3. lia.
      * intro Hr. destruct (Hf Hr) as (H1 & H2).
        split; [lia|].
        intros j Hj. destruct (Nat.eq_dec j i) as [->|]; [assumption|].
        apply H2. lia.
Qed.

Lemma getAdaptiveWaitTicks_values (pm : PingMonitor) :
  getAdaptiveWaitTicks pm
  = if currentPing pm >? 400 then 6
    else if currentPing pm >? 200 then 4
    else if currentPing pm >? 100 then 3 else 2.
Proof. reflexivity. Qed.

Lemma getAdaptiveWaitTicks_agrees (pm : PingMonitor) :
  getAdaptiveWaitTicks pm = AdaptiveTimings.postDigWaitTicks pm.
Proof. reflexivity. Qed.

End Confirmer.

(** ** The mining engine *)

Section Engine.

Import MiningEngine EngineShape.

(** Destructs the scrutinee of the first [match] or [if] of the goal. *)
Ltac break_goal :=
  match goal with
  | |- context [match ?t with _ => _ end] => destruct t eqn:?
  end.

Ltac break_hyp H :=
  match type of H with
  | context [match ?t with _ => _ end] => destruct t eqn:?
  end.

(** *** Nothing but the loop itself writes the mined counter *)

Lemma command_minedBlocks (e : Engine) (c : Command) :
  minedBlocks (command e c) = minedBlocks e.
Proof.
  destruct c; simpl; unfold pause, resume; repeat break_goal; reflexivity.
Qed.

Lemma await_minedBlocks (during : list Command) :
  forall e, minedBlocks (await during e) = minedBlocks e.
Proof.
  unfold await. induction during as [|c cs IH]; intro e; simpl.
  - reflexivity.
  - rewrite IH. apply command_minedBlocks.
Qed.

Lemma awaitCapacity_minedBlocks (w : list (list Command * bool)) :
  forall e e', awaitCapacity w e = Some e' -> minedBlocks e' = minedBlocks e.
Proof.
  induction w as [|[during full] w IH]; intros e e' H; simpl in H.
  - destruct (status_eqb (status e) Paused); [discriminate|].
    now inversion H.
  - destruct (status_eqb (status e) Paused); [|now inversion H].
    destruct full; simpl in H.
    + apply IH in H. rewrite H. now rewrite await_minedBlocks.
    + inversion H; subst; simpl. now rewrite await_minedBlocks.
Qed.

Lemma checkInventory_minedBlocks area o e e' go :
  checkInventory area o e = Some (e', go) -> minedBlocks e' = minedBlocks e.
Proof.
  unfold checkInventory. intro H.
  destruct (isFull o); [|now inversion H].
  destruct (freed o); simpl in H.
  - inversion H; subst; simpl. now rewrite await_minedBlocks.
  - destruct (awaitCapacity _ _) as [e1|] eqn:Hw; [|discriminate].
    inversion H; subst. apply awaitCapacity_minedBlocks in Hw.
    rewrite Hw. simpl. now rewrite await_minedBlocks.
Qed.

Lemma lookAndDig_minedBlocks target o e :
  minedBlocks (fst (lookAndDig target o e)) = minedBlocks e.
Proof.
  unfold lookAndDig. repeat break_goal; simpl;
    rewrite ?await_minedBlocks; simpl; rewrite ?await_minedBlocks;
    reflexivity.
Qed.


Lemma advance_minedBlocks i o e : minedBlocks (advance i o e) = i + 1.
Proof.
  unfold advance. break_goal; [rewrite await_minedBlocks|]; reflexivity.
Qed.

(** *** The attempt loop is bounded *)

Lemma mineBlock_loop_passes pos area obs (left : nat) :
  forall attempts e how n e',
    mineBlock_loop left attempts pos area obs e = Ret (how, n) e' ->
    (n <= attempts + left)%nat.
Proof.
  induction left as [|left IH]; intros attempts e how n e' H; simpl in H.
  - inversion H; subst. lia.
  - destruct (attempt pos area (obs attempts) e) as [h e1|e1|m e1|];
      try discriminate.
    + inversion H; subst. lia.
    + apply IH in H. lia.
Qed.

Lemma digs_effect f e :
  digs (effect f e) = (digs e + if isDig f then 1 else 0)%nat.
Proof.
  unfold digs, effect; simpl. rewrite filter_app, length_app; simpl.
  destruct (isDig f); reflexivity.
Qed.

Lemma save_digs a n e : digs (save a n e) = digs e.
Proof.
  unfold digs, save, effect. simpl. rewrite filter_app, length_app. simpl. lia.
Qed.

Lemma emit_digs ev e : digs (emit ev e) = digs e.
Proof. unfold emit. rewrite digs_effect. simpl. lia. Qed.

Lemma command_digs e c : digs (command e c) = digs e.
Proof.
  destruct c; cbn [command].
  - unfold pause. destruct (status_eqb (status e) Mining); [|reflexivity].
    rewrite emit_digs. simpl. destruct (area e); rewrite ?save_digs; reflexivity.
  - unfold resume. destruct (status_eqb (status e) Paused); [|reflexivity].
    now rewrite emit_digs.
  - unfold digs, stop, clear, effect. simpl.
    rewrite !filter_app, !length_app. simpl. lia.
Qed.

Lemma await_digs (during : list Command) :
  forall e, digs (await during e) = digs e.
Proof.
  unfold await. induction during as [|c cs IH]; intro e; simpl.
  - reflexivity.
  - rewrite IH. apply command_digs.
Qed.

Lemma set_status_digs s e : digs (set_status s e) = digs e.
Proof. reflexivity. Qed.

Lemma set_error_digs s e : digs (set_error s e) = digs e.
Proof. reflexivity. Qed.

Lemma set_currentTool_digs s e : digs (set_currentTool s e) = digs e.
Proof. reflexivity. Qed.

Ltac digs_simpl :=
  repeat (rewrite ?await_digs, ?set_status_digs, ?set_error_digs,
            ?set_currentTool_digs, ?save_digs, ?emit_digs, ?digs_effect;
          simpl).

Lemma awaitCapacity_digs (w : list (list Command * bool)) :
  forall e e', awaitCapacity w e = Some e' -> digs e' = digs e.
Proof.
  induction w as [|[during full] w IH]; intros e e' H; simpl in H.
  - destruct (status_eqb (status e) Paused); [discriminate|].
    now inversion H.
  - destruct (status_eqb (status e) Paused); [|now inversion H].
    destruct full; simpl in H.
    + apply IH in H. rewrite H. digs_simpl. lia.
    + inversion H; subst. digs_simpl. lia.
Qed.

Lemma checkInventory_digs area o e e' go :
  checkInventory area o e = Some (e', go) -> digs e' = digs e.
Proof.
  unfold checkInventory. intro H.
  destruct (isFull o); [|now inversion H].
  destruct (freed o); simpl in H.
  - inversion H; subst. digs_simpl. lia.
  - destruct (awaitCapacity _ _) as [e1|] eqn:Hw; [|discriminate].
    inversion H; subst. apply awaitCapacity_digs in Hw.
    rewrite Hw. digs_simpl. lia.
Qed.

Lemma lookAndDig_digs target o e :
  (digs (fst (lookAndDig target o e)) <= digs e + 1)%nat.
Proof.
  unfold lookAndDig. repeat break_goal; simpl; digs_simpl; lia.
Qed.

Lemma attempt_digs pos area o e e' :
  engineOf (attempt pos area o e) = Some e' ->
  (digs e' <= digs e + 1)%nat.
Proof.
  unfold attempt. intro H.
  destruct (status_eqb (status e) Idle); [inversion H; lia|].
  destruct (negb (worthMining (block o))).
  { inversion H; subst. digs_simpl. lia. }
  destruct (checkInventory _ _ _) as [[e1 go]|] eqn:Hinv; [|discriminate].
  apply checkInventory_digs in Hinv. revert Hinv. digs_simpl. intro Hinv.
  destruct go; [|inversion H; subst; lia].
  destruct (entity_missing o); [inversion H; subst; lia|].
  set (e2 := if out_of_reach o then _ else e1) in H.
  assert (H2 : digs e2 = digs e).
  { subst e2. destruct (out_of_reach o); digs_simpl; lia. }
  clearbody e2.
  destruct (targetBlock o) as [target|]; [|inversion H; subst; lia].
  destruct (negb (ToolSelector.shouldMine target));
    [inversion H; subst; lia|].
  match type of H with
  | context [lookAndDig target o ?e3] =>
      pose proof (lookAndDig_digs target o e3) as H3;
      destruct (lookAndDig target o e3) as [e4 ok]
  end.
  revert H3. digs_simpl. intro H3.
  destruct ok.
  - destruct (PositionConfirmer.waitAfterDig _ _ _) as [confirmed ticks].
    inversion H; subst. digs_simpl. lia.
  - inversion H; subst. digs_simpl. lia.
Qed.

Lemma mineBlock_loop_digs pos area obs (left : nat) :
  forall attempts e r e',
    mineBlock_loop left attempts pos area obs e = Ret r e' ->
    (digs e' <= digs e + left)%nat.
Proof.
  induction left as [|left IH]; intros attempts e r e' H; simpl in H.
  - inversion H; subst. lia.
  - destruct (attempt pos area (obs attempts) e) as [h e1|e1|m e1|] eqn:Ha;
      try discriminate.
    + inversion H; subst.
      pose proof (attempt_digs pos area (obs attempts) e e') as Hd.
      rewrite Ha in Hd. specialize (Hd eq_refl). lia.
    + apply IH in H.
      pose proof (attempt_digs pos area (obs attempts) e e1) as Hd.
      rewrite Ha in Hd. specialize (Hd eq_refl). lia.
Qed.

(** *** The attempt loop returns when nothing blocks it *)

Lemma attempt_returns pos area o e :
  isFull o = false -> entity_missing o = false ->
  (exists how e', attempt pos area o e = Return how e') \/
  (exists e', attempt pos area o e = Retry e').
Proof.
  intros Hfull Hent. unfold attempt, checkInventory.
  rewrite Hfull, Hent.
  repeat break_goal; eauto.
Qed.

Lemma mineBlock_loop_returns pos area obs (left : nat) :
  (forall k, isFull (obs k) = false) ->
  (forall k, entity_missing (obs k) = false) ->
  forall attempts e,
    exists how n e',
      mineBlock_loop left attempts pos area obs e = Ret (how, n) e'.
Proof.
  intros Hfull Hent.
  induction left as [|left IH]; intros attempts e; simpl.
  - eauto.
  - destruct (attempt_returns pos area (obs attempts) e (Hfull _) (Hent _))
      as [(how & e' & ->)|(e' & ->)]; eauto.
Qed.

Lemma failingPass_retries pos area o e :
  failingPass o -> status e = Mining ->
  exists e', attempt pos area o e = Retry e' /\ status e' = Mining.
Proof.
  intros (H1 & H2 & H3 & H4 & H5 & H6 & H7 & H8 & H9 & H10 & H11) Hs.
  unfold attempt, checkInventory, lookAndDig.
  rewrite Hs, H1, H2, H3, H4, H5, H7, H8, H9, H10. simpl.
  destruct (targetBlock o) as [target|]; [|discriminate].
  simpl in H6. rewrite H6. simpl.
  destruct (out_of_reach o), (lookAt_ok o), (reachable_after o), (dig o);
    simpl; try (eexists; split; [reflexivity | assumption]);
    destruct H11 as [?|[?|?]]; congruence.
Qed.

Lemma failingPasses_exhaust pos area obs (left : nat) :
  forall attempts e,
    status e = Mining ->
    (forall k, (attempts <= k < attempts + left)%nat -> failingPass (obs k)) ->
    exists e',
      mineBlock_loop left attempts pos area obs e
      = Ret (Exhausted, (attempts + left)%nat) e' /\ status e' = Mining.
Proof.
  induction left as [|left IH]; intros attempts e Hs Hf; simpl.
  - exists e. rewrite Nat.add_0_r. auto.
  - destruct (failingPass_retries pos area (obs attempts) e) as (e1 & -> & Hs1);
      [apply Hf; lia | assumption |].
    destruct (IH (S attempts) e1 Hs1) as (e' & He' & Hs').
    { intros k Hk. apply Hf. lia. }
    exists e'. rewrite He'. split; [|assumption].
    replace (S attempts + left)%nat with (attempts + S left)%nat by lia.
    reflexivity.
Qed.

Lemma iteration_counter cfg positions area i o e e' :
  iteration cfg positions area i o e = Ret Next e' -> minedBlocks e' = i + 1.
Proof.
  intro H. unfold iteration in H.
  destruct (prelude cfg area i o e) as [[|] e1|m e1|]; try discriminate.
  destruct (positionAt positions i) as [pos|]; [|discriminate].
  destruct (mineBlock pos area (attempts o) e1) as [r e2|m e2|];
    try discriminate.
  inversion H; subst. apply advance_minedBlocks.
Qed.


(** C2: a target gets at most three passes of the attempt loop (and at
    most three dig calls); however [mineBlock] returns, the iteration then
    sets the mined counter to i+1; [mineBlock] does return whenever the
    inventory has room and the bot's entity is there; and three passes
    that all fail end the loop after exactly three passes, after which the
    iteration still goes on to the next target with the counter at i+1. *)
Theorem mineBlock_retries_then_advances
    (cfg : AppConfig) (positions : list Vec3) (area : NormalizedArea)
    (i : Z) (o : IterObs) (e : Engine) :
  (forall pos how n e',
      mineBlock pos area (attempts o) e = Ret (how, n) e' ->
      (n <= 3)%nat /\ (digs e' <= digs e + 3)%nat /\
      minedBlocks (advance i o e') = i + 1) /\
  (forall e', iteration cfg positions area i o e = Ret Next e' ->
              minedBlocks e' = i + 1 /\
              (minedBlocks e = i -> minedBlocks e' = minedBlocks e + 1)) /\
  (forall pos,
      (forall k, isFull (attempts o k) = false) ->
      (forall k, entity_missing (attempts o k) = false) ->
      exists how n e', mineBlock pos area (attempts o) e = Ret (how, n) e') /\
  (forall pos e1,
      prelude cfg area i o e = Ret Next e1 ->
      positionAt positions i = Some pos ->
      status e1 = Mining ->
      (forall k, (k < 3)%nat -> failingPass (attempts o k)) ->
      exists e2,
        mineBlock pos area (attempts o) e1 = Ret (Exhausted, 3%nat) e2 /\
        iteration cfg positions area i o e = Ret Next (advance i o e2) /\
        minedBlocks (advance i o e2) = i + 1).
Proof.
  split; [|split; [|split]].
  - intros pos how n e' H. unfold mineBlock in H.
    change (Z.to_nat (maxAttempts - 0)) with 3%nat in H.
    split; [|split].
    + apply mineBlock_loop_passes in H. lia.
    + apply mineBlock_loop_digs in H. lia.
    + apply advance_minedBlocks.
  - intros e' H. apply iteration_counter in H. split; [assumption | lia].
  - intros pos Hfull Hent. unfold mineBlock.
    apply mineBlock_loop_returns; assumption.
  - intros pos e1 Hpre Hpos Hs Hf.
    destruct (failingPasses_exhaust pos area (attempts o) 3 0 e1 Hs)
      as (e2 & He2 & _).
    { intros k Hk. apply Hf. lia. }
    exists e2. unfold iteration, mineBlock. rewrite Hpre, Hpos.
    change (Z.to_nat (maxAttempts - 0)) with 3%nat.
    rewrite He2. simpl. repeat split. apply advance_minedBlocks.
Qed.

Lemma mineBlock_retries_then_advances_witness :
  exists e',
    iteration Samples.cfg
      (ZigzagPlanner.generateZigzagPositions Samples.box2x1x2)
      Samples.box2x1x2 1
      (Samples.quiet (fun _ => Samples.pass (mkVec3 1 0 0) DigTimedOut
                                  Samples.stoneWorld))
      (Samples.midRun 1)
    = Ret Next e' /\ minedBlocks e' = 2.
Proof.
  destruct (mineBlock_retries_then_advances Samples.cfg
              (ZigzagPlanner.generateZigzagPositions Samples.box2x1x2)
              Samples.box2x1x2 1
              (Samples.quiet (fun _ => Samples.pass (mkVec3 1 0 0) DigTimedOut
                                          Samples.stoneWorld))
              (Samples.midRun 1)) as (_ & _ & _ & H).
  destruct (H (mkVec3 1 0 0)
              (await [] (effect EatIfNeeded (Samples.midRun 1))))
    as (e2 & _ & Hit & Hm).
  - vm_compute. reflexivity.
  - reflexivity.
  - reflexivity.
  - intros k _. unfold failingPass; simpl.
    repeat split; try reflexivity. right; right; discriminate.
  - eexists. split; [exact Hit | exact Hm].
Defined.

(** *** Auto-pause *)

Lemma awaitConnection_clears (bad : list (list Command * PingMonitor)) :
  forall pm pmGood rest e,
    AdaptiveTimings.shouldAutoPause pm = true ->
    status e = Paused ->
    Forall (fun s => fst s = [] /\ AdaptiveTimings.shouldAutoPause (snd s) = true) bad ->
    AdaptiveTimings.shouldAutoPause pmGood = false ->
    exists e',
      awaitConnection pm (bad ++ ([], pmGood) :: rest) e = Some e' /\
      status e' = Paused /\ minedBlocks e' = minedBlocks e.
Proof.
  induction bad as [|[during pm1] bad IH]; intros pm pmGood rest e Hpm Hs Hbad Hgood.
  - simpl. rewrite Hpm, Hs. simpl.
    destruct rest as [|[d p] rest]; simpl; rewrite Hgood; simpl;
      eexists; repeat split; reflexivity || assumption.
  - inversion Hbad as [|? ? [Hd Hp] Hbad']; subst. simpl in Hd, Hp. subst during.
    simpl. rewrite Hpm, Hs. simpl.
    destruct (IH pm1 pmGood rest (effect (SleepMs 2000) e) Hp Hs Hbad' Hgood)
      as (e' & He' & Hs' & Hm').
    exists e'. repeat split; assumption.
Qed.

Lemma awaitConnection_waits (bad : list (list Command * PingMonitor)) :
  forall pm pmGood rest e,
    AdaptiveTimings.shouldAutoPause pm = true ->
    status e = Paused ->
    Forall (fun s => fst s = [] /\ AdaptiveTimings.shouldAutoPause (snd s) = true) bad ->
    AdaptiveTimings.shouldAutoPause pmGood = false ->
    exists e',
      awaitConnection pm (bad ++ ([], pmGood) :: rest) e = Some e' /\
      status e' = Paused /\ minedBlocks e' = minedBlocks e /\
      error e' = error e /\
      effects e' = effects e ++ repeat (SleepMs 2000) (S (length bad)).
Proof.
  induction bad as [|[during pm1] bad IH]; intros pm pmGood rest e Hpm Hs Hbad Hgood.
  - simpl. rewrite Hpm, Hs. simpl.
    destruct rest as [|[d p] rest]; simpl; rewrite Hgood; simpl;
      eexists; repeat split; reflexivity || assumption.
  - inversion Hbad as [|? ? [Hd Hp] Hbad']; subst. simpl in Hd, Hp. subst during.
    simpl. rewrite Hpm, Hs. simpl.
    destruct (IH pm1 pmGood rest (effect (SleepMs 2000) e) Hp Hs Hbad' Hgood)
      as (e' & He' & Hs' & Hm' & Hr' & Hf').
    exists e'. split; [exact He'|]. split; [exact Hs'|].
    split; [exact Hm'|]. split; [exact Hr'|].
    rewrite Hf'. unfold effect. cbn [effects set_effects].
    rewrite <- app_assoc. reflexivity.
Qed.

Lemma Forall_firstn_keep {A : Type} (P : A -> Prop) (l : list A) :
  Forall P l -> forall k, Forall P (firstn k l).
Proof.
  induction 1 as [|a l Ha _ IH]; intros [|k]; simpl; constructor; auto.
Qed.

Lemma awaitConnection_pending (bad : list (list Command * PingMonitor)) :
  forall pm e,
    AdaptiveTimings.shouldAutoPause pm = true ->
    status e = Paused ->
    Forall (fun s => fst s = [] /\ AdaptiveTimings.shouldAutoPause (snd s) = true) bad ->
    awaitConnection pm bad e = None.
Proof.
  induction bad as [|[during pm1] bad IH]; intros pm e Hpm Hs Hbad.
  - simpl. now rewrite Hpm, Hs.
  - inversion Hbad as [|? ? [Hd Hp] Hbad']; subst. simpl in Hd, Hp. subst during.
    simpl. rewrite Hpm, Hs. simpl. now apply IH.
Qed.

(** C3, as the code has it: the trigger needs a latency above 1000 ms (or
    a tick rate below 5). When it holds at the check, an engine that is
    mining announces the pause with reason "high_ping" and waits, one
    sleep of 2000 ms after the other, for as long as the samples keep the
    trigger up: with only those samples the check has not returned. During
    that wait the status is paused: a resume call that arrives then is
    honoured and announced. Once a sample clears the trigger the check
    returns with the engine mining again, no error text, and the mined
    count as before. *)
Theorem autoPause_round_trip (o : IterObs) (e : Engine)
    (bad : list (list Command * PingMonitor)) (pmGood : PingMonitor)
    (rest : list (list Command * PingMonitor)) :
  1000 < currentPing (pm_check o) ->
  status e = Mining ->
  connection_wait o = bad ++ ([], pmGood) :: rest ->
  Forall (fun s => fst s = [] /\ AdaptiveTimings.shouldAutoPause (snd s) = true) bad ->
  AdaptiveTimings.shouldAutoPause pmGood = false ->
  AdaptiveTimings.shouldAutoPause (pm_check o) = true /\
  status (autoPause_enter e) = Paused /\
  effects (autoPause_enter e) = effects e ++ [Emit (MiningPaused "high_ping")] /\
  (exists e',
      autoPause o e = Some e' /\
      status e' = Mining /\ error e' = None /\
      minedBlocks e' = minedBlocks e /\
      effects e'
      = effects e ++ Emit (MiningPaused "high_ping")
                       :: repeat (SleepMs 2000) (S (length bad))) /\
  (forall (o1 : IterObs) (k : nat),
      pm_check o1 = pm_check o ->
      connection_wait o1 = firstn k bad ->
      autoPause o1 e = None) /\
  (forall (o2 : IterObs) (pm' : PingMonitor)
          (rest' : list (list Command * PingMonitor)),
      pm_check o2 = pm_check o ->
      connection_wait o2 = ([CmdResume], pm') :: rest' ->
      exists e2,
        autoPause o2 e = Some e2 /\
        status e2 = Mining /\ minedBlocks e2 = minedBlocks e /\
        effects e2
        = effects e ++ [Emit (MiningPaused "high_ping"); SleepMs 2000;
                        Emit MiningResumed]).
Proof.
  intros Hping Hs Hw Hbad Hgood.
  assert (Hpm : AdaptiveTimings.shouldAutoPause (pm_check o) = true).
  { unfold AdaptiveTimings.shouldAutoPause.
    replace (currentPing (pm_check o) >? 1000) with true; [reflexivity|].
    symmetry. apply Z.gtb_lt. assumption. }
  split; [assumption|]. split; [reflexivity|]. split; [reflexivity|].
  split; [|split].
  - unfold autoPause. rewrite Hpm, Hs, Hw. simpl.
    destruct (awaitConnection_waits bad (pm_check o) pmGood rest
                (autoPause_enter e) Hpm eq_refl Hbad Hgood)
      as (e' & -> & Hs' & Hm' & Hr' & Hf').
    exists (autoPause_leave e'). unfold autoPause_leave. rewrite Hs'.
    cbn [status_eqb status error minedBlocks effects set_error set_status].
    split; [reflexivity|]. split; [reflexivity|]. split; [reflexivity|].
    split; [exact Hm'|].
    rewrite Hf'. unfold autoPause_enter, emit, effect.
    cbn [effects set_effects set_error set_status].
    rewrite <- app_assoc. reflexivity.
  - intros o1 k Hp1 Hw1. unfold autoPause. rewrite Hp1, Hpm, Hs, Hw1.
    cbn [status_eqb andb].
    rewrite (awaitConnection_pending (firstn k bad) (pm_check o)
               (autoPause_enter e) Hpm eq_refl); [reflexivity|].
    now apply Forall_firstn_keep.
  - intros o2 pm' rest' Hp2 Hw2. unfold autoPause. rewrite Hp2, Hpm, Hs, Hw2.
    cbn [status_eqb andb awaitConnection].
    rewrite Hpm. cbn [autoPause_enter status set_error set_status emit effect
                      set_effects status_eqb andb await fold_left command].
    unfold resume.
    cbn [status set_error set_status emit effect set_effects status_eqb].
    assert (Eend : forall x,
               status x = Mining -> awaitConnection pm' rest' x = Some x).
    { intros x Hx. destruct rest' as [|[d p] r]; simpl; rewrite Hx;
        cbn [status_eqb]; rewrite andb_false_r; reflexivity. }
    rewrite Eend by reflexivity.
    eexists. split; [reflexivity|].
    unfold autoPause_leave. simpl.
    split; [reflexivity|]. split; [reflexivity|].
    rewrite <- !app_assoc. reflexivity.
Qed.

Lemma autoPause_round_trip_witness :
  exists e',
    autoPause (mkIterObs [] (mkPingMonitor 1001 20)
                 [([], mkPingMonitor 1500 20); ([], mkPingMonitor 200 20)]
                 20 [] [] [] (fun _ => Samples.pass (mkVec3 0 0 0) DigResolved
                                         Samples.airWorld)
                 Samples.calm [])
              (Samples.midRun 2) = Some e' /\
    status e' = Mining /\ error e' = None /\ minedBlocks e' = 2 /\
    effects e' = [Emit (MiningPaused "high_ping"); SleepMs 2000; SleepMs 2000].
Proof.
  destruct (autoPause_round_trip
              (mkIterObs [] (mkPingMonitor 1001 20)
                 [([], mkPingMonitor 1500 20); ([], mkPingMonitor 200 20)]
                 20 [] [] [] (fun _ => Samples.pass (mkVec3 0 0 0) DigResolved
                                         Samples.airWorld)
                 Samples.calm [])
              (Samples.midRun 2)
              [([], mkPingMonitor 1500 20)] (mkPingMonitor 200 20) [])
    as (_ & _ & _ & (e' & H) & _).
  - simpl. lia.
  - reflexivity.
  - reflexivity.
  - repeat constructor.
  - reflexivity.
  - exists e'. exact H.
Defined.

(** At a latency of exactly 1000 ms and 20 ticks per second the trigger
    is false and a mining engine passes the check untouched. *)
Lemma autoPause_not_at_1000 :
  AdaptiveTimings.shouldAutoPause (mkPingMonitor 1000 20) = false /\
  autoPause (mkIterObs [] (mkPingMonitor 1000 20)
               [([], mkPingMonitor 200 20)]
               20 [] [] [] (fun _ => Samples.pass (mkVec3 0 0 0) DigResolved
                                       Samples.airWorld)
               Samples.calm [])
            (Samples.midRun 2)
  = Some (Samples.midRun 2) /\
  status (Samples.midRun 2) = Mining /\
  effects (Samples.midRun 2) = [].
Proof. repeat split. Qed.

(** *** What a successful pass leaves behind *)

Lemma area_eta (a : NormalizedArea) :
  mkNormalizedArea (mkVec3 (x (min a)) (y (min a)) (z (min a)))
                   (mkVec3 (x (max a)) (y (max a)) (z (max a))) = a.
Proof. destruct a as [[? ? ?] [? ? ?]]. reflexivity. Qed.

Lemma command_effects_grow e c :
  exists added, effects (command e c) = effects e ++ added.
Proof.
  destruct c; cbn [command].
  - unfold pause. destruct (status_eqb (status e) Mining).
    + destruct (area e) eqn:Ha; unfold emit, effect, save; simpl; rewrite Ha;
        simpl; rewrite <- ?app_assoc; eexists; reflexivity.
    + exists []. now rewrite app_nil_r.
  - unfold resume. destruct (status_eqb (status e) Paused).
    + unfold emit, effect; simpl. eexists; reflexivity.
    + exists []. now rewrite app_nil_r.
  - unfold stop, clear, effect; simpl. rewrite <- !app_assoc.
    eexists; reflexivity.
Qed.

Lemma await_effects_grow (during : list Command) :
  forall e, exists added, effects (await during e) = effects e ++ added.
Proof.
  unfold await. induction during as [|c cs IH]; intro e; simpl.
  - exists []. now rewrite app_nil_r.
  - destruct (IH (command e c)) as (a2 & ->).
    destruct (command_effects_grow e c) as (a1 & ->).
    exists (a1 ++ a2). now rewrite app_assoc.
Qed.

Lemma status_eqb_eq a b : status_eqb a b = true <-> a = b.
Proof. destruct a, b; simpl; split; congruence. Qed.

Lemma status_eqb_neq a b : a <> b -> status_eqb a b = false.
Proof.
  intro H. destruct (status_eqb a b) eqn:E; [|reflexivity].
  apply status_eqb_eq in E. contradiction.
Qed.

Lemma attempt_mined pos area o e e' :
  attempt pos area o e = Return Mined e' ->
  exists target pre,
    targetBlock o = Some target /\
    dig o = DigResolved /\
    stateFile e' = Some (mkSaved area (minedBlocks e)) /\
    In (WaitAfterDig pos
          (fst (PositionConfirmer.waitAfterDig (confirm_pm o) (confirm_world o) pos))
          (snd (PositionConfirmer.waitAfterDig (confirm_pm o) (confirm_world o) pos)))
       pre /\
    effects e'
    = pre ++ [AntiStuckMarkSafePosition;
              FileSave (mkSaved area (minedBlocks e));
              Emit (MiningBlockMined pos (name target))].
Proof.
  unfold attempt. intro H.
  destruct (status_eqb (status e) Idle); [discriminate|].
  destruct (negb (worthMining (block o))); [discriminate|].
  destruct (checkInventory _ _ _) as [[e1 go]|] eqn:Hinv; [|discriminate].
  apply checkInventory_minedBlocks in Hinv.
  rewrite await_minedBlocks in Hinv. simpl in Hinv.
  destruct go; [|discriminate].
  destruct (entity_missing o); [discriminate|].
  set (e2 := if out_of_reach o then _ else e1) in H.
  assert (H2 : minedBlocks e2 = minedBlocks e).
  { subst e2. destruct (out_of_reach o); [rewrite await_minedBlocks|]; assumption. }
  clearbody e2.
  destruct (targetBlock o) as [target|]; [|discriminate].
  destruct (negb (ToolSelector.shouldMine target)); [discriminate|].
  match type of H with
  | context [lookAndDig target o ?e3] =>
      pose proof (lookAndDig_minedBlocks target o e3) as H3;
      assert (Hd : snd (lookAndDig target o e3) = true -> dig o = DigResolved)
        by (unfold lookAndDig; repeat break_goal; simpl; congruence);
      destruct (lookAndDig target o e3) as [e4 ok]
  end.
  simpl in H3, Hd. rewrite await_minedBlocks in H3. simpl in H3.
  destruct ok; [|discriminate].
  destruct (PositionConfirmer.waitAfterDig _ _ _) as [confirmed ticks] eqn:Hw.
  match type of H with
  | context [await (during_confirm o) ?e5] =>
      destruct (await_effects_grow (during_confirm o) e5) as (added & Hadd);
      pose proof (await_minedBlocks (during_confirm o) e5) as Hm5;
      set (e6 := await (during_confirm o) e5) in *
  end.
  simpl in Hm5.
  inversion H; subst e'; clear H.
  exists target, (effects e6).
  assert (Hmined : minedBlocks e6 = minedBlocks e) by congruence.
  split; [reflexivity|]. split; [auto|].
  unfold emit, effect, save; simpl. rewrite Hmined, area_eta.
  split; [reflexivity|]. split.
  - rewrite Hadd. simpl. apply in_or_app. left. apply in_or_app. right.
    left. reflexivity.
  - rewrite <- !app_assoc. reflexivity.
Qed.

Lemma attempt_reaches_success pos area o e target :
  status e <> Idle ->
  worthMining (block o) = true -> isFull o = false ->
  entity_missing o = false ->
  targetBlock o = Some target -> ToolSelector.shouldMine target = true ->
  lookAt_ok o = true -> reachable_after o = true -> dig o = DigResolved ->
  exists e', attempt pos area o e = Return Mined e'.
Proof.
  intros Hs Hb Hf He Ht Hm Hl Hr Hd.
  unfold attempt, checkInventory, lookAndDig.
  rewrite (status_eqb_neq _ _ Hs), Hb, Hf, He, Ht, Hm, Hl, Hr, Hd. simpl.
  destruct (PositionConfirmer.waitAfterDig _ _ _). eexists; reflexivity.
Qed.

(** C4, as the code has it: after a dig the waiter polls one tick at a
    time, at most 6, 4, 3 or 2 times for a latency above 400, 200, 100 or
    not, stops at the first tick that shows the location empty, and
    returns whether it saw one. The pass that called it does not look at
    the answer: once the dig has resolved, the pass marks the safe
    position, saves the progress, announces the block as mined and
    returns as a success, whether the waiter answered true or false. *)
Theorem waitAfterDig_polls_and_is_not_consulted
    (pos : Vec3) (area : NormalizedArea) (o : AttemptObs) (e : Engine)
    (target : Block) :
  let r := PositionConfirmer.waitAfterDig (confirm_pm o) (confirm_world o) pos in
  let L := currentPing (confirm_pm o) in
  let count := if L >? 400 then 6%nat else if L >? 200 then 4%nat
               else if L >? 100 then 3%nat else 2%nat in
  (snd r <= count)%nat /\
  (fst r = true <->
   exists j, (j < count)%nat /\
             PositionConfirmer.isGone (blockAt (confirm_world o j) pos) = true) /\
  (fst r = true ->
   PositionConfirmer.isGone (blockAt (confirm_world o (snd r - 1)%nat) pos) = true /\
   forall j, (j < snd r - 1)%nat ->
             PositionConfirmer.isGone (blockAt (confirm_world o j) pos) = false) /\
  (fst r = false -> snd r = count) /\
  (status e <> Idle ->
   worthMining (block o) = true -> isFull o = false ->
   entity_missing o = false ->
   targetBlock o = Some target -> ToolSelector.shouldMine target = true ->
   lookAt_ok o = true -> reachable_after o = true -> dig o = DigResolved ->
   exists e' pre,
     attempt pos area o e = Return Mined e' /\
     In (WaitAfterDig pos (fst r) (snd r)) pre /\
     effects e'
     = pre ++ [AntiStuckMarkSafePosition;
               FileSave (mkSaved area (minedBlocks e));
               Emit (MiningBlockMined pos (name target))]).
Proof.
  intros r L count.
  assert (Hcount : Z.to_nat (PositionConfirmer.getAdaptiveWaitTicks (confirm_pm o)) = count).
  { unfold PositionConfirmer.getAdaptiveWaitTicks, count, L.
    repeat break_goal; reflexivity. }
  pose proof (waitForBlockBreak_loop_spec (confirm_world o) pos count 0) as Hspec.
  assert (Hr : r = PositionConfirmer.waitForBlockBreak_loop
                     (confirm_world o) pos count 0).
  { subst r. unfold PositionConfirmer.waitAfterDig,
      PositionConfirmer.waitForBlockBreak. now rewrite Hcount. }
  clearbody r. subst r.
  set (r := PositionConfirmer.waitForBlockBreak_loop (confirm_world o) pos count 0) in *.
  simpl in Hspec. destruct Hspec as (Hb & Ht & Hf).
  split; [lia|]. split; [|split; [|split]].
  - split.
    + intro Hr. destruct (Ht Hr) as (H1 & H2 & _).
      exists (snd r - 1)%nat. split; [lia | assumption].
    + intros (j & Hj & Hg). destruct (fst r) eqn:Hr; [reflexivity|].
      destruct (Hf eq_refl) as (_ & Hall).
      rewrite Hall in Hg by lia. discriminate.
  - intro Hr. destruct (Ht Hr) as (H1 & H2 & H3).
    split; [assumption|]. intros j Hj. apply H3. lia.
  - intro Hr. destruct (Hf Hr) as (H1 & _). assumption.
  - intros Hs Hbk Hfull He Htg Hm Hl Hre Hd.
    destruct (attempt_reaches_success pos area o e target
                Hs Hbk Hfull He Htg Hm Hl Hre Hd) as (e' & He').
    destruct (attempt_mined pos area o e e' He')
      as (t' & pre & Ht' & _ & _ & Hin & Heff).
    rewrite Htg in Ht'. inversion Ht'; subst t'.
    exists e', pre. repeat split; try assumption.
    unfold PositionConfirmer.waitAfterDig, PositionConfirmer.waitForBlockBreak in Hin.
    rewrite Hcount in Hin. exact Hin.
Qed.

Lemma waitAfterDig_polls_and_is_not_consulted_witness :
  exists e' pre,
    attempt (mkVec3 0 0 0) Samples.box2x1x2
      (Samples.pass (mkVec3 0 0 0) DigResolved Samples.stoneWorld)
      (Samples.midRun 0) = Return Mined e' /\
    In (WaitAfterDig (mkVec3 0 0 0) false 2) pre /\
    effects e'
    = pre ++ [AntiStuckMarkSafePosition;
              FileSave (mkSaved Samples.box2x1x2 0);
              Emit (MiningBlockMined (mkVec3 0 0 0) "stone")].
Proof.
  destruct (waitAfterDig_polls_and_is_not_consulted (mkVec3 0 0 0)
              Samples.box2x1x2
              (Samples.pass (mkVec3 0 0 0) DigResolved Samples.stoneWorld)
              (Samples.midRun 0) (Samples.stone (mkVec3 0 0 0)))
    as (_ & _ & _ & _ & H).
  apply H; try reflexivity. discriminate.
Defined.

(** A dig that the server never confirms is recorded as mined at the
    first pass: the waiter answers false after its two ticks, and the pass
    goes on to save the progress and announce the block. *)
Lemma unconfirmed_dig_is_recorded_as_mined :
  PositionConfirmer.waitAfterDig Samples.calm (fun _ => Samples.stoneWorld)
    (mkVec3 0 0 0) = (false, 2%nat) /\
  mineBlock (mkVec3 0 0 0) Samples.box2x1x2
    (fun _ => Samples.pass (mkVec3 0 0 0) DigResolved Samples.stoneWorld)
    (Samples.midRun 0)
  = Ret (Mined, 1%nat)
      (mkEngine Mining (Some Samples.box2x1x2) 4 0 (Some "Hand"%string) None
         (Some (mkSaved Samples.box2x1x2 0))
         [AntiStuckClearOverlapping;
          EquipFor (Samples.stone (mkVec3 0 0 0));
          BotLookAt (Samples.stone (mkVec3 0 0 0));
          BotDig (Samples.stone (mkVec3 0 0 0));
          WaitAfterDig (mkVec3 0 0 0) false 2;
          AntiStuckMarkSafePosition;
          FileSave (mkSaved Samples.box2x1x2 0);
          Emit (MiningBlockMined (mkVec3 0 0 0) "stone")]).
Proof. split; reflexivity. Qed.

(** *** Progress records *)










Lemma vec_eta (v : Vec3) : mkVec3 (x v) (y v) (z v) = v.
Proof. destruct v; reflexivity. Qed.

End Engine.

(** ** The recovery ladder *)

Section Recovery.

Import AntiStuck RecoveryShape.

Ltac break_goal :=
  match goal with
  | |- context [match ?t with _ => _ end] => destruct t eqn:?
  end.

Lemma minRecoveryLevel_range pm :
  0 <= AdaptiveTimings.minRecoveryLevel pm <= 2.
Proof. unfold AdaptiveTimings.minRecoveryLevel. repeat break_goal; lia. Qed.

Lemma triggerRecovery_range reason now pm st :
  levelInRange st -> levelInRange (triggerRecovery reason now pm st).
Proof.
  unfold levelInRange, MAX_RECOVERY_LEVEL, triggerRecovery. intro H.
  pose proof (minRecoveryLevel_range pm).
  repeat break_goal; simpl; lia.
Qed.

Lemma markSafePosition_level v st :
  recoveryLevel (markSafePosition v st) = recoveryLevel st.
Proof. unfold markSafePosition. repeat break_goal; reflexivity. Qed.

Lemma tickListener_range now pm v st :
  levelInRange st -> levelInRange (tickListener now pm v st).
Proof.
  intro H. unfold tickListener.
  destruct (entity v) as [ent|]; [|assumption].
  destruct (recovering st); [assumption|].
  set (st1 := set_lastTickPos _ _).
  assert (H1 : levelInRange st1).
  { subst st1. unfold levelInRange in *. simpl.
    repeat break_goal; simpl; assumption. }
  clearbody st1.
  set (st2 := if negb (isEmpty (getOverlappingBlocks v)) then _ else _).
  assert (H2 : levelInRange st2).
  { subst st2. repeat break_goal;
      try apply triggerRecovery_range;
      unfold levelInRange, MAX_RECOVERY_LEVEL in *; simpl; lia. }
  clearbody st2.
  repeat break_goal; try assumption.
  unfold levelInRange in *. simpl. now rewrite markSafePosition_level.
Qed.

Lemma checkForLoop_range now pm st :
  levelInRange st -> levelInRange (checkForLoop now pm st).
Proof.
  intro H. unfold checkForLoop.
  repeat break_goal; try assumption.
  apply triggerRecovery_range. exact H.
Qed.

Lemma clearBlockingPath_level v st :
  recoveryLevel (fst (clearBlockingPath v st)) = recoveryLevel st.
Proof. unfold clearBlockingPath. repeat break_goal; reflexivity. Qed.

Lemma stallCheck_range now pm v pathfinderActive st :
  levelInRange st ->
  levelInRange (fst (stallCheck now pm v pathfinderActive st)).
Proof.
  intro H. unfold stallCheck.
  destruct (entity v) as [ent|]; [|assumption].
  destruct (recovering st) eqn:Hrec; [assumption|].
  set (stH := set_posHistory _ st).
  assert (HH : levelInRange stH) by exact H.
  clearbody stH.
  destruct (lastMovePos stH) as [last|];
    [|simpl; apply checkForLoop_range; assumption].
  destruct (Qltb _ (dist2 _ last));
    [simpl; apply checkForLoop_range; exact HH|].
  destruct (now - lastMoveTime stH >? _);
    [|simpl; apply checkForLoop_range; assumption].
  destruct (pathfinderActive && negb (recovering stH));
    [|simpl; apply checkForLoop_range; assumption].
  destruct (negb (isEmpty (getBlockingBlocks v)) && negb (blockClearAttempted stH)).
  - pose proof (clearBlockingPath_level v (set_blockClearAttempted true stH)) as Hc.
    destruct (clearBlockingPath v (set_blockClearAttempted true stH)) as [s1 a1].
    simpl in Hc. simpl. apply checkForLoop_range.
    unfold levelInRange in *. simpl. rewrite Hc. exact HH.
  - simpl. apply checkForLoop_range.
    pose proof (triggerRecovery_range "stall" now pm
                  (set_blockClearAttempted false
                     (set_stats (count_stall (stats stH)) stH)) HH) as Ht.
    exact Ht.
Qed.

Lemma step_range st ev : levelInRange st -> levelInRange (step st ev).
Proof.
  intro H. destruct ev; cbn [step].
  - unfold enable. destruct (active st); assumption.
  - unfold disable, levelInRange, MAX_RECOVERY_LEVEL.
    destruct (negb (active st)); [exact H | simpl; lia].
  - unfold reset, levelInRange, MAX_RECOVERY_LEVEL. simpl. lia.
  - unfold levelInRange. now rewrite markSafePosition_level.
  - destruct (active st); [apply tickListener_range|]; assumption.
  - destruct (active st); [apply stallCheck_range|]; assumption.
  - unfold levelInRange. now rewrite clearBlockingPath_level.
  - unfold clearBlockingPath_finally. destruct (clearing st); assumption.
  - unfold triggerRecovery_action.
    destruct (suspended st) as [[level|]|]; simpl; try assumption.
    destruct (isEmergency level); [|assumption].
    destruct (entity (v0 vs)); [|assumption].
    unfold levelInRange, MAX_RECOVERY_LEVEL. simpl. lia.
  - unfold triggerRecovery_catch.
    destruct (suspended st) as [[level|]|]; try assumption.
    unfold levelInRange, MAX_RECOVERY_LEVEL in *. simpl. lia.
  - unfold triggerRecovery_recheck.
    destruct (suspended st) as [[level|]|]; try assumption.
    unfold levelInRange, MAX_RECOVERY_LEVEL in *.
    destruct (_ || _); simpl; lia.
Qed.

(** C5: whatever events reach the monitor (enabling, disabling, reset,
    ticks with or without overlap, stall checks, path clearing, and the
    start, the end, the failure and the re-check of a recovery), a
    recovery level that is between 0 and 5 stays between 0 and 5. The
    initial level is 0. *)
Theorem recoveryLevel_stays_in_range (evs : list Event) (st : State) :
  0 <= recoveryLevel st <= 5 ->
  0 <= recoveryLevel (run evs st) <= 5.
Proof.
  revert st. unfold run.
  induction evs as [|ev evs IH]; intros st H; simpl.
  - exact H.
  - apply IH. apply (step_range st ev). exact H.
Qed.

(** The bot buried in stone: three ticks start a recovery, whose re-check
    still finds it stuck. *)
Lemma recoveryLevel_stays_in_range_witness :
  recoveryLevel initial = 0 /\
  0 <= recoveryLevel
         (run [EvEnable 100000
                 (Samples.standing (mkQVec3 (1 # 2) 64 (1 # 2)) Samples.stoneWorld);
               EvPhysicTick 100050 Samples.calm
                 (Samples.standing (mkQVec3 (1 # 2) 64 (1 # 2)) Samples.stoneWorld);
               EvPhysicTick 100100 Samples.calm
                 (Samples.standing (mkQVec3 (1 # 2) 64 (1 # 2)) Samples.stoneWorld);
               EvPhysicTick 100150 Samples.calm
                 (Samples.standing (mkQVec3 (1 # 2) 64 (1 # 2)) Samples.stoneWorld);
               EvActionThrows]
            initial) <= 5.
Proof.
  split.
  - reflexivity.
  - apply recoveryLevel_stays_in_range. simpl. lia.
Defined.

Example buried_bot_escalates :
  let v := Samples.standing (mkQVec3 (1 # 2) 64 (1 # 2)) Samples.stoneWorld in
  let st := run [EvEnable 100000 v; EvPhysicTick 100050 Samples.calm v;
                 EvPhysicTick 100100 Samples.calm v;
                 EvPhysicTick 100150 Samples.calm v] initial in
  recovering st = true /\ suspended st = Some (InAction 0) /\
  totalRecoveries (stats st) = 1 /\
  recoveryLevel (step st EvActionThrows) = 1 /\
  recoveryLevel (run [EvActionDone (mkViews v v v); EvRecheck v] st) = 1.
Proof. vm_compute. repeat split. Qed.

(** *** The guards of triggerRecovery *)

Lemma triggerRecovery_guarded reason now pm st :
  recovering st = true \/
  now - lastRecoveryTime st < AdaptiveTimings.recoveryCooldown pm ->
  triggerRecovery reason now pm st = st.
Proof.
  intros [H|H]; unfold triggerRecovery.
  - now rewrite H.
  - destruct (recovering st); [reflexivity|].
    apply Z.ltb_lt in H. now rewrite H.
Qed.

Lemma triggerRecovery_executes reason now pm st :
  recovering st = false ->
  ~ now - lastRecoveryTime st < AdaptiveTimings.recoveryCooldown pm ->
  let st1 := triggerRecovery reason now pm st in
  recovering st1 = true /\ lastRecoveryTime st1 = now /\
  totalRecoveries (stats st1) = totalRecoveries (stats st) + 1 /\
  exists level, suspended st1 = Some (InAction level).
Proof.
  intros Hr Hc. unfold triggerRecovery. rewrite Hr.
  apply Z.ltb_nlt in Hc. rewrite Hc.
  destruct (recoveryLevel _ <? _); simpl; repeat split; eexists; reflexivity.
Qed.

(** C6: when a trigger has started a recovery, a second trigger that
    comes while that recovery is still running (in its action or in the
    sleep before its re-check), or after it has ended but less than
    2000 + L ms after its start, returns at once and leaves the whole
    monitor as it was: level, statistics, in-recovery flag, events, and no
    action dispatched. One recovery has been counted. *)
Theorem second_trigger_is_dropped
    (reason1 reason2 : string) (now1 now2 : Z) (pm1 pm2 : PingMonitor)
    (st : State) (vs : Views) (v : View) :
  recovering st = false ->
  ~ now1 - lastRecoveryTime st < AdaptiveTimings.recoveryCooldown pm1 ->
  let st1 := triggerRecovery reason1 now1 pm1 st in
  let st1' := fst (triggerRecovery_action vs st1) in
  let st2 := triggerRecovery_recheck v st1' in
  let st2' := triggerRecovery_catch st1 in
  AdaptiveTimings.recoveryCooldown pm2 = 2000 + currentPing pm2 /\
  triggerRecovery reason2 now2 pm2 st1 = st1 /\
  triggerRecovery reason2 now2 pm2 st1' = st1' /\
  (now2 - now1 < AdaptiveTimings.recoveryCooldown pm2 ->
   recovering st2 = false /\ suspended st2 = None /\
   triggerRecovery reason2 now2 pm2 st2 = st2 /\
   triggerRecovery reason2 now2 pm2 st2' = st2' /\
   totalRecoveries (stats (triggerRecovery reason2 now2 pm2 st2))
   = totalRecoveries (stats st) + 1 /\
   totalRecoveries (stats (triggerRecovery reason2 now2 pm2 st2'))
   = totalRecoveries (stats st) + 1).
Proof.
  intros Hr Hc st1 st1' st2 st2'.
  destruct (triggerRecovery_executes reason1 now1 pm1 st Hr Hc)
    as (Hrec & Hlast & Htot & level & Hsus).
  fold st1 in Hrec, Hlast, Htot, Hsus.
  assert (Hact : exists sA,
             st1' = set_suspended (Some InSleep) sA /\
             recovering sA = true /\ lastRecoveryTime sA = now1 /\
             stats sA = stats st1).
  { subst st1'. unfold triggerRecovery_action. rewrite Hsus. cbn [fst].
    eexists. split; [reflexivity|].
    destruct (isEmergency level); [destruct (entity (v0 vs))|]; simpl; auto. }
  destruct Hact as (sA & HsA & HrA & HlA & HtA).
  assert (Hrec' : recovering st1' = true) by (rewrite HsA; exact HrA).
  assert (Hlast2 : lastRecoveryTime st2 = now1 /\ recovering st2 = false /\
                   suspended st2 = None /\
                   totalRecoveries (stats st2) = totalRecoveries (stats st1)).
  { subst st2. rewrite HsA. unfold triggerRecovery_recheck. simpl.
    destruct (_ || _); simpl; rewrite HlA, HtA; auto. }
  assert (Hlast2' : lastRecoveryTime st2' = now1 /\
                    totalRecoveries (stats st2') = totalRecoveries (stats st1)).
  { subst st2'. unfold triggerRecovery_catch. rewrite Hsus. simpl. auto. }
  destruct Hlast2 as (Hl2 & Hr2 & Hs2 & Ht2). destruct Hlast2' as (Hl2' & Ht2').
  split; [reflexivity|].
  split; [apply triggerRecovery_guarded; left; assumption|].
  split; [apply triggerRecovery_guarded; left; assumption|].
  intro Hcool.
  assert (E2 : triggerRecovery reason2 now2 pm2 st2 = st2)
    by (apply triggerRecovery_guarded; right; rewrite Hl2; assumption).
  assert (E2' : triggerRecovery reason2 now2 pm2 st2' = st2')
    by (apply triggerRecovery_guarded; right; rewrite Hl2'; assumption).
  rewrite E2, E2'. repeat split; try assumption; congruence.
Qed.

Lemma second_trigger_is_dropped_witness :
  let st1 := triggerRecovery "stall" 100000 Samples.calm initial in
  triggerRecovery "loop" 100500 Samples.calm st1 = st1.
Proof.
  pose proof (second_trigger_is_dropped "stall" "loop" 100000 100500
                Samples.calm Samples.calm initial
                (mkViews (Samples.standing (mkQVec3 0 64 0) Samples.airWorld)
                         (Samples.standing (mkQVec3 0 64 0) Samples.airWorld)
                         (Samples.standing (mkQVec3 0 64 0) Samples.airWorld))
                (Samples.standing (mkQVec3 0 64 0) Samples.airWorld)
                eq_refl ltac:(vm_compute; discriminate)) as H.
  exact (proj1 (proj2 H)).
Defined.

(** Two ticks of the suffocation monitor inside the cooldown: both
    triggers are dropped and no recovery is counted, while the monitor's
    own counter of detections, which it bumps before it calls
    [triggerRecovery], moves twice. *)
Example suffocation_tick_inside_cooldown :
  let v := Samples.standing (mkQVec3 (1 # 2) 64 (1 # 2)) Samples.stoneWorld in
  let st := run [EvEnable 100000 v; EvPhysicTick 100050 Samples.calm v;
                 EvPhysicTick 100100 Samples.calm v;
                 EvPhysicTick 100150 Samples.calm v;
                 EvActionDone (mkViews v v v); EvRecheck v] initial in
  let st' := step st (EvPhysicTick 100600 Samples.calm v) in
  let st'' := step st' (EvPhysicTick 100650 Samples.calm v) in
  recovering st = false /\
  totalRecoveries (stats st'') = totalRecoveries (stats st) /\
  recoveryLevel st'' = recoveryLevel st /\
  suspended st'' = None /\
  suffocations (stats st'') = suffocations (stats st) + 2.
Proof. vm_compute. repeat split. Qed.

(** *** No recovery digs bedrock *)

Lemma loop_up_invariant {S : Type} (P : S -> Prop) (body : Z -> S -> S) :
  (forall i s, P s -> P (body i s)) ->
  forall n i s, P s -> P (loop_up n i body s).
Proof.
  intros Hbody. induction n as [|n IH]; intros i s Hs; simpl.
  - exact Hs.
  - apply IH. apply Hbody. exact Hs.
Qed.

Lemma for_up_invariant {S : Type} (P : S -> Prop) (body : Z -> S -> S) lo hi s :
  (forall i s, P s -> P (body i s)) -> P s -> P (for_up lo hi body s).
Proof. intros Hb Hs. unfold for_up. now apply loop_up_invariant. Qed.

Lemma shouldMine_notBedrock b : ToolSelector.shouldMine b = true -> notBedrock b.
Proof.
  unfold ToolSelector.shouldMine, notBedrock. intros H E.
  rewrite E in H. vm_compute in H. discriminate.
Qed.

Lemma Forall_push {A : Type} (P : A -> Prop) (l : list A) (a : A) :
  Forall P l -> P a -> Forall P (push l a).
Proof.
  intros Hl Ha. unfold push. apply Forall_app. split; [assumption|].
  constructor; [assumption | constructor].
Qed.

Lemma getOverlappingBlocks_notBedrock v :
  Forall notBedrock (getOverlappingBlocks v).
Proof.
  unfold getOverlappingBlocks. destruct (entity v) as [ent|]; [|constructor].
  apply for_up_invariant; [|constructor]. intros bx s Hs.
  apply for_up_invariant; [|assumption]. intros by_ s1 Hs1.
  apply for_up_invariant; [|assumption]. intros bz s2 Hs2.
  destruct (blockAt (world v) (mkVec3 bx by_ bz)) as [b|]; [|assumption].
  destruct (negb (boundingBox b =? "block")%string) eqn:Hbb; simpl;
    [assumption|].
  destruct (name b =? "bedrock")%string eqn:Hn; [assumption|].
  break_goal; [|assumption].
  apply Forall_push; [assumption|].
  unfold notBedrock. now apply String.eqb_neq.
Qed.

Lemma tryAdd_shouldMine w p st :
  Forall (fun b => ToolSelector.shouldMine b = true) (snd st) ->
  Forall (fun b => ToolSelector.shouldMine b = true) (snd (tryAdd w p st)).
Proof.
  destruct st as [checked blocks]. unfold tryAdd. simpl. intro H.
  destruct (existsb (Vec3_eqb p) checked); [assumption|].
  destruct (blockAt w p) as [b|]; [|assumption].
  destruct (boundingBox b =? "block")%string; simpl; [|assumption].
  destruct (ToolSelector.shouldMine b) eqn:Hm; simpl; [|assumption].
  apply Forall_push; assumption.
Qed.

Lemma fold_left_invariant {A B : Type} (P : A -> Prop) (f : A -> B -> A) :
  (forall a b, P a -> P (f a b)) ->
  forall l a, P a -> P (fold_left f l a).
Proof.
  intro Hf. induction l as [|b l IH]; intros a Ha; simpl.
  - exact Ha.
  - apply IH. apply Hf. exact Ha.
Qed.

Lemma getBlockingBlocks_shouldMine v :
  Forall (fun b => ToolSelector.shouldMine b = true) (getBlockingBlocks v).
Proof.
  unfold getBlockingBlocks.
  destruct (entity v) as [ent|]; [|constructor].
  destruct (heading v) as [[dirx dirz]|]; [|constructor].
  cbv zeta.
  set (sx := if Qltb (3 # 10) dirx then 1 else _).
  set (sz := if Qltb (3 # 10) dirz then 1 else _).
  clearbody sx sz.
  destruct ((sx =? 0) && (sz =? 0)); [constructor|].
  apply (fold_left_invariant
           (fun st : list Vec3 * list Block =>
              Forall (fun b => ToolSelector.shouldMine b = true) (snd st)));
    [|constructor].
  intros st dy Hst.
  destruct (negb (sx =? 0)), (negb (sz =? 0)); simpl;
    repeat apply tryAdd_shouldMine; assumption.
Qed.

Lemma digAll_In b blocks after :
  In (Dig b) (digAll blocks after) -> In b blocks \/ In (Dig b) after.
Proof.
  unfold digAll. rewrite in_flat_map. intros (b' & Hb' & [E|Hin]).
  - inversion E; subst. now left.
  - now right.
Qed.

Lemma digsOnly_app P l1 l2 :
  digsOnly P l1 -> digsOnly P l2 -> digsOnly P (l1 ++ l2).
Proof.
  intros H1 H2 b Hin. apply in_app_or in Hin. destruct Hin; auto.
Qed.

Lemma digsOnly_digAll P blocks after :
  Forall P blocks -> digsOnly P after -> digsOnly P (digAll blocks after).
Proof.
  intros Hb Ha b Hin. apply digAll_In in Hin. destruct Hin as [Hin|Hin].
  - rewrite Forall_forall in Hb. auto.
  - auto.
Qed.

Lemma digsOnly_push P acts b :
  digsOnly P acts -> P b -> digsOnly P (push acts (Dig b)).
Proof.
  intros Ha Hb b' Hin. unfold push in Hin. apply in_app_or in Hin.
  destruct Hin as [Hin|[E|[]]]; [auto|]. inversion E; subst. assumption.
Qed.

(** A list of actions without any [Dig]. *)
Ltac no_digs :=
  let b := fresh in let H := fresh in
  intros b H; simpl in H;
  repeat (destruct H as [H|H]; [discriminate|]); contradiction.

Lemma Forall_filter_shouldMine (blocks : list Block) :
  Forall notBedrock (filter ToolSelector.shouldMine blocks).
Proof.
  rewrite Forall_forall. intros b Hb. apply filter_In in Hb.
  apply shouldMine_notBedrock. tauto.
Qed.

Lemma Forall_shouldMine_notBedrock (blocks : list Block) :
  Forall (fun b => ToolSelector.shouldMine b = true) blocks ->
  Forall notBedrock blocks.
Proof.
  intro H. eapply Forall_impl; [|exact H].
  intros b. apply shouldMine_notBedrock.
Qed.

Lemma recoverLevel3_clearSpace_notBedrock v :
  digsOnly notBedrock (recoverLevel3_clearSpace v).
Proof.
  unfold recoverLevel3_clearSpace.
  destruct (entity v) as [ent|]; [|no_digs].
  apply digsOnly_app; [|no_digs].
  apply for_up_invariant; [|no_digs]. intros dy s Hs.
  apply for_up_invariant; [|assumption]. intros dx s1 Hs1.
  apply for_up_invariant; [|assumption]. intros dz s2 Hs2.
  destruct (blockAt _ _) as [b|]; [|assumption].
  destruct (boundingBox b =? "block")%string; simpl; [|assumption].
  destruct (ToolSelector.shouldMine b) eqn:Hm; [|assumption].
  apply digsOnly_push; [assumption|]. now apply shouldMine_notBedrock.
Qed.

Lemma recoverLevel5_emergency_spares v ent :
  entity v = Some ent ->
  digsOnly (fun b => notBedrock b /\
                     position b <> offset (floored (entity_position ent)) 0 (-1) 0)
           (recoverLevel5_emergency v).
Proof.
  intro Hent. unfold recoverLevel5_emergency. rewrite Hent.
  apply digsOnly_app; [|no_digs].
  apply for_up_invariant; [|no_digs]. intros dy s Hs.
  apply for_up_invariant; [|assumption]. intros dx s1 Hs1.
  apply for_up_invariant; [|assumption]. intros dz s2 Hs2.
  destruct ((dx =? 0) && (dz =? 0) && (dy =? -1)) eqn:Hskip; [assumption|].
  unfold blockAt.
  destruct (world v _) as [[n bb]|]; [|assumption].
  simpl.
  destruct (bb =? "block")%string; simpl; [|assumption].
  destruct (n =? "bedrock")%string eqn:Hn; simpl; [assumption|].
  apply digsOnly_push; [assumption|]. split.
  - unfold notBedrock. simpl. now apply String.eqb_neq.
  - simpl. unfold offset. intro E. inversion E.
    assert (dx = 0 /\ dy = -1 /\ dz = 0) as (-> & -> & ->) by lia.
    discriminate.
Qed.

Lemma dispatch_notBedrock level vs : digsOnly notBedrock (dispatch level vs).
Proof.
  unfold dispatch. repeat break_goal.
  - unfold recoverLevel0_jump. apply digsOnly_app; [|no_digs].
    apply digsOnly_digAll; [|no_digs].
    apply Forall_shouldMine_notBedrock, getBlockingBlocks_shouldMine.
  - unfold recoverLevel1_jumpAndMove.
    destruct (entity (v0 vs)); [|no_digs].
    apply digsOnly_app.
    { apply digsOnly_digAll; [|no_digs].
      apply Forall_shouldMine_notBedrock, getBlockingBlocks_shouldMine. }
    apply digsOnly_app.
    { apply digsOnly_digAll; [|no_digs]. apply Forall_filter_shouldMine. }
    apply digsOnly_app; [no_digs|].
    repeat break_goal; no_digs.
  - unfold recoverLevel2_digOverlapping. apply digsOnly_app; [no_digs|].
    apply digsOnly_digAll; [|no_digs]. apply Forall_filter_shouldMine.
  - apply recoverLevel3_clearSpace_notBedrock.
  - unfold recoverLevel4_digUp. destruct (entity (v0 vs)); [|no_digs].
    apply digsOnly_app; [apply recoverLevel3_clearSpace_notBedrock|].
    apply digsOnly_app; [|no_digs].
    apply for_up_invariant; [|no_digs]. intros dy s Hs.
    destruct (blockAt _ _) as [b|]; [|assumption].
    destruct (boundingBox b =? "block")%string; simpl; [|assumption].
    destruct (ToolSelector.shouldMine b) eqn:Hm; [|assumption].
    apply digsOnly_push; [assumption|]. now apply shouldMine_notBedrock.
  - destruct (entity (v0 vs)) as [ent|] eqn:He.
    + intros b Hb. now apply (recoverLevel5_emergency_spares _ _ He).
    + unfold recoverLevel5_emergency. rewrite He. no_digs.
Qed.

Lemma clearBlockingPath_notBedrock v st :
  digsOnly notBedrock (snd (clearBlockingPath v st)).
Proof.
  unfold clearBlockingPath. repeat break_goal; simpl; try no_digs.
  apply digsOnly_digAll; [|no_digs].
  apply Forall_shouldMine_notBedrock, getBlockingBlocks_shouldMine.
Qed.

Lemma stallCheck_notBedrock now pm v pathfinderActive st :
  digsOnly notBedrock (snd (stallCheck now pm v pathfinderActive st)).
Proof.
  unfold stallCheck.
  destruct (entity v) as [ent|]; [|no_digs].
  destruct (recovering st); [no_digs|].
  set (stH := set_posHistory _ st). clearbody stH.
  destruct (lastMovePos stH) as [last|]; [|no_digs].
  destruct (Qltb _ (dist2 _ last)); [no_digs|].
  destruct (now - lastMoveTime stH >? _); [|no_digs].
  destruct (pathfinderActive && negb (recovering stH)); [|no_digs].
  destruct (negb (isEmpty (getBlockingBlocks v)) && negb (blockClearAttempted stH));
    [|no_digs].
  pose proof (clearBlockingPath_notBedrock v (set_blockClearAttempted true stH)) as Hc.
  destruct (clearBlockingPath v (set_blockClearAttempted true stH)) as [s1 a1].
  exact Hc.
Qed.

Lemma actionsOf_notBedrock st ev : digsOnly notBedrock (actionsOf st ev).
Proof.
  destruct ev; cbn [actionsOf]; try no_digs.
  - destruct (active st); [apply stallCheck_notBedrock | no_digs].
  - apply clearBlockingPath_notBedrock.
  - unfold triggerRecovery_action.
    destruct (suspended st) as [[level|]|]; simpl; try no_digs.
    apply dispatch_notBedrock.
Qed.

Lemma trace_notBedrock (evs : list Event) :
  forall st, digsOnly notBedrock (trace evs st).
Proof.
  induction evs as [|ev evs IH]; intro st; simpl.
  - no_digs.
  - apply digsOnly_app; [apply actionsOf_notBedrock | apply IH].
Qed.

(** C10: the overlap scan never returns bedrock; no block that a clearing
    helper, a recovery level or any run of the monitor digs is bedrock;
    and the emergency level digs neither bedrock nor the block right
    under the bot's feet. *)
Theorem recovery_never_digs_bedrock :
  (forall v b, In b (getOverlappingBlocks v) -> name b <> "bedrock"%string) /\
  (forall v b, In (Dig b) (clearOverlapping v) -> name b <> "bedrock"%string) /\
  (forall v b, In (Dig b) (forceClearArea v) -> name b <> "bedrock"%string) /\
  (forall level vs b,
      In (Dig b) (dispatch level vs) -> name b <> "bedrock"%string) /\
  (forall evs st b, In (Dig b) (trace evs st) -> name b <> "bedrock"%string) /\
  (forall v ent b,
      entity v = Some ent ->
      In (Dig b) (recoverLevel5_emergency v) ->
      name b <> "bedrock"%string /\
      position b <> offset (floored (entity_position ent)) 0 (-1) 0).
Proof.
  split; [|split; [|split; [|split; [|split]]]].
  - intros v b Hb.
    pose proof (getOverlappingBlocks_notBedrock v) as H.
    rewrite Forall_forall in H. now apply H.
  - intros v b Hb. unfold clearOverlapping in Hb.
    apply (digsOnly_digAll notBedrock _ [WaitTicks 2]) in Hb; try assumption.
    + apply Forall_filter_shouldMine.
    + no_digs.
  - intros v b Hb. now apply (recoverLevel3_clearSpace_notBedrock v).
  - intros level vs b Hb. now apply (dispatch_notBedrock level vs).
  - intros evs st b Hb. now apply (trace_notBedrock evs st).
  - intros v ent b He Hb. now apply (recoverLevel5_emergency_spares v ent He).
Qed.

(** The emergency level around a bot that stands on stone, in stone: the
    stone two blocks up is dug and is neither bedrock nor the block under
    the feet. *)
Lemma recovery_never_digs_bedrock_witness :
  name (Samples.stone (mkVec3 0 66 0)) <> "bedrock"%string /\
  position (Samples.stone (mkVec3 0 66 0)) <> mkVec3 0 63 0.
Proof.
  destruct recovery_never_digs_bedrock as (_ & _ & _ & _ & _ & H).
  apply (H (Samples.standing (mkQVec3 (1 # 2) 64 (1 # 2)) Samples.stoneWorld)
           (mkEntity (mkQVec3 (1 # 2) 64 (1 # 2)) true)
           (Samples.stone (mkVec3 0 66 0))).
  - reflexivity.
  - vm_compute. do 30 right. left. reflexivity.
Defined.

Example emergency_in_bedrock_digs_nothing :
  recoverLevel5_emergency
    (Samples.standing (mkQVec3 (1 # 2) 64 (1 # 2)) Samples.bedrockWorld)
  = [SetControlState jump true; Sleep 500; ClearControlStates; PathfinderStop].
Proof. reflexivity. Qed.

End Recovery.

(** ** The navigator's timeout wrapper *)

Section Nav.

Import Navigator NavigatorShape.

Ltac break_if_nav :=
  match goal with
  | |- context [if ?t then _ else _] => destruct t eqn:?
  end.

Lemma gotoWithTimeout_wellFormed pos cs : wellFormed (gotoWithTimeout pos cs).
Proof. unfold wellFormed; simpl. repeat split. discriminate. Qed.

Lemma finish_settles err c :
  isDone c = false -> solver c <> Solving ->
  let c' := finish err c in
  settled c' = Some (match err with Some e => Rejected e | None => Resolved end) /\
  wellFormed c'.
Proof.
  intros Hd Hs. unfold finish. rewrite Hd. unfold wellFormed; simpl.
  repeat split. assumption.
Qed.

Ltac nav_crush :=
  repeat break_if_nav; simpl in *;
  repeat split; auto; try congruence; try discriminate.

Lemma step_wellFormed c ev : wellFormed c -> wellFormed (step c ev).
Proof.
  destruct c as [d sc t lp sm jr se cs so cr].
  unfold wellFormed. simpl. intro H.
  destruct se as [o|].
  - destruct H as (-> & Hc & -> & -> & Hs).
    destruct ev; cbn [step]; simpl; auto;
      try (destruct jr; simpl; now auto);
      destruct so; simpl; nav_crush.
  - destruct H as (-> & -> & -> & Hs).
    destruct ev; cbn [step]; simpl;
      try (destruct jr; simpl; now auto);
      try (unfold stuckCheck; simpl; destruct entityPos as [p|]; simpl);
      destruct so; simpl; nav_crush.
Qed.

Lemma run_wellFormed (evs : list Event) :
  forall c, wellFormed c -> wellFormed (run evs c).
Proof.
  unfold run. induction evs as [|ev evs IH]; intros c H; simpl.
  - exact H.
  - apply IH. now apply step_wellFormed.
Qed.

Lemma step_keeps_settlement c ev o :
  wellFormed c -> settled c = Some o -> settled (step c ev) = Some o.
Proof.
  destruct c as [d sc t lp sm jr se cs so cr].
  unfold wellFormed. simpl. intros H ->.
  destruct H as (-> & Hc & -> & -> & Hs).
  destruct ev; cbn [step]; simpl; auto.
  - destruct jr; reflexivity.
  - destruct so; reflexivity.
  - destruct so; reflexivity.
  - destruct so; reflexivity.
Qed.

Lemma run_keeps_settlement (evs : list Event) :
  forall c o, wellFormed c -> settled c = Some o -> settled (run evs c) = Some o.
Proof.
  unfold run. induction evs as [|ev evs IH]; intros c o Hw Hs; simpl.
  - exact Hs.
  - apply IH; [now apply step_wellFormed | now apply step_keeps_settlement].
Qed.

(** C8: take any course of events of a navigation call. (1) If its
    promise has settled, no control is held down. (2) While it is pending,
    each of the three exits settles it and releases every control at that
    very step: the solver's success resolves it, the solver's failure
    rejects it with the solver's error, and the timeout cancels the solver
    and rejects it with "Path timeout". (3) Once settled, the outcome
    stays, and so does the release of the controls, whatever timers or
    late solver answers still arrive. *)
Theorem gotoWithTimeout_releases_controls
    (pos : QVec3) (cs : Controls) (evs : list Event) :
  let c := run evs (gotoWithTimeout pos cs) in
  (settled c <> None -> forall k, controls c k = false) /\
  (settled c = None ->
   (settled (step c EvSolverResolves) = Some Resolved /\
    forall k, controls (step c EvSolverResolves) k = false) /\
   (forall err,
       settled (step c (EvSolverRejects err)) = Some (Rejected err) /\
       forall k, controls (step c (EvSolverRejects err)) k = false) /\
   (settled (step c EvTimeout) = Some (Rejected "Path timeout") /\
    solver (step c EvTimeout) <> Solving /\
    forall k, controls (step c EvTimeout) k = false)) /\
  (forall o evs',
      settled c = Some o ->
      settled (run evs' c) = Some o /\
      forall k, controls (run evs' c) k = false).
Proof.
  intro c.
  assert (Hw : wellFormed c)
    by (apply run_wellFormed, gotoWithTimeout_wellFormed).
  clearbody c. split; [|split].
  - intros Hs k. unfold wellFormed in Hw.
    destruct (settled c); [|congruence]. now apply Hw.
  - intro Hs. unfold wellFormed in Hw. rewrite Hs in Hw.
    destruct Hw as (Hd & Ht & Hk & Hso).
    destruct c as [d sc t lp sm jr se cs' so cr]. simpl in *. subst.
    repeat split; try (destruct so; simpl; congruence || reflexivity).
  - intros o evs' Hs.
    pose proof (run_keeps_settlement evs' c o Hw Hs) as Hs'.
    split; [assumption|].
    pose proof (run_wellFormed evs' c Hw) as Hw'.
    unfold wellFormed in Hw'. rewrite Hs' in Hw'. apply Hw'.
Qed.

(** A walk that stalls, gets a jump kick and then times out. *)
Lemma gotoWithTimeout_releases_controls_witness :
  let c := run [EvSolverInput forward true;
                EvStuckCheck (Some (mkQVec3 0 64 0)) true Samples.calm;
                EvStuckCheck (Some (mkQVec3 0 64 0)) true Samples.calm;
                EvStuckCheck (Some (mkQVec3 0 64 0)) true Samples.calm;
                EvStuckCheck (Some (mkQVec3 0 64 0)) true Samples.calm;
                EvTimeout; EvJumpRelease; EvSolverRejects "stopped"]
             (gotoWithTimeout (mkQVec3 0 64 0) (fun _ => false)) in
  settled c = Some (Rejected "Path timeout") /\
  controls c forward = false /\ controls c jump = false.
Proof.
  intro c.
  destruct (gotoWithTimeout_releases_controls (mkQVec3 0 64 0) (fun _ => false)
              [EvSolverInput forward true;
               EvStuckCheck (Some (mkQVec3 0 64 0)) true Samples.calm;
               EvStuckCheck (Some (mkQVec3 0 64 0)) true Samples.calm;
               EvStuckCheck (Some (mkQVec3 0 64 0)) true Samples.calm;
               EvStuckCheck (Some (mkQVec3 0 64 0)) true Samples.calm;
               EvTimeout; EvJumpRelease; EvSolverRejects "stopped"])
    as (H & _ & _).
  split; [reflexivity|].
  split; apply H; discriminate.
Defined.

Example stalled_walk_holds_jump_until_the_exit :
  let c := run [EvSolverInput forward true;
                EvStuckCheck (Some (mkQVec3 0 64 0)) true Samples.calm;
                EvStuckCheck (Some (mkQVec3 0 64 0)) true Samples.calm;
                EvStuckCheck (Some (mkQVec3 0 64 0)) true Samples.calm;
                EvStuckCheck (Some (mkQVec3 0 64 0)) true Samples.calm]
             (gotoWithTimeout (mkQVec3 0 64 0) (fun _ => false)) in
  settled c = None /\ controls c jump = true /\ controls c forward = true /\
  clearRequests c = 1%nat /\
  controls (step c EvTimeout) jump = false /\
  controls (step c EvTimeout) forward = false.
Proof. vm_compute. repeat split. Qed.

End Nav.

(** ** More on the timings and on the area helpers *)

Section TimingFacts.

Import AdaptiveTimings.

Lemma Math_round_le (a b : Q) : (a <= b)%Q -> Math_round a <= Math_round b.
Proof.
  intro H. unfold Math_round. apply Qfloor_resp_le.
  apply Qplus_le_compat; [assumption | apply Qle_refl].
Qed.

Lemma Qmax_1_pos (t : Q) : (0 < Qmax 1 t)%Q.
Proof.
  apply Qlt_le_trans with (y := 1%Q); [reflexivity | apply Q.le_max_l].
Qed.

Lemma tpsFactor_nonneg (t : Q) : (0 <= 20 / Qmax 1 t)%Q.
Proof.
  apply Qle_shift_div_l; [apply Qmax_1_pos|].
  rewrite Qmult_0_l. discriminate.
Qed.

Lemma inject_Z_le (a b : Z) : a <= b -> (inject_Z a <= inject_Z b)%Q.
Proof. intro H. now rewrite <- Zle_Qle. Qed.

Lemma Z_min_le_compat (a b c : Z) : a <= b -> Z.min a c <= Z.min b c.
Proof. lia. Qed.

(** X2: with the tick rate fixed, no timing quantity shrinks when the
    latency grows: the five capped timeouts and delays, the stall and
    cooldown thresholds, the confirm ticks, the stuck-tick threshold, the
    recovery floor and the rubber-band distance do not decrease; the
    movement-speed multiplier does not increase. *)
Theorem timings_follow_latency (p1 p2 : Z) (t : Q) :
  p1 <= p2 ->
  let a := mkPingMonitor p1 t in
  let b := mkPingMonitor p2 t in
  digTimeout a <= digTimeout b /\
  pathfindTimeout a <= pathfindTimeout b /\
  navigationTimeout a <= navigationTimeout b /\
  interBlockDelay a <= interBlockDelay b /\
  safedigTimeout a <= safedigTimeout b /\
  stallTimeThreshold a <= stallTimeThreshold b /\
  recoveryCooldown a <= recoveryCooldown b /\
  postDigWaitTicks a <= postDigWaitTicks b /\
  stuckTicksThreshold a <= stuckTicksThreshold b /\
  minRecoveryLevel a <= minRecoveryLevel b /\
  (rubberBandDistance a <= rubberBandDistance b)%Q /\
  (speedMultiplier b <= speedMultiplier a)%Q.
Proof.
  intros H a b. subst a b.
  repeat match goal with |- _ /\ _ => split end.
  - unfold digTimeout; cbn [currentPing tps]. apply Z_min_le_compat, Math_round_le.
    apply Qmult_le_compat_r; [|apply tpsFactor_nonneg].
    apply inject_Z_le. lia.
  - unfold pathfindTimeout; cbn [currentPing tps]. apply Z_min_le_compat, Math_round_le.
    apply inject_Z_le. lia.
  - unfold navigationTimeout; cbn [currentPing tps]. apply Z_min_le_compat, Math_round_le.
    apply inject_Z_le. lia.
  - unfold interBlockDelay; cbn [currentPing tps]. apply Z_min_le_compat, Math_round_le.
    apply Q.max_le_compat_l.
    apply Qmult_le_compat_r; [|discriminate].
    apply inject_Z_le. lia.
  - unfold safedigTimeout; cbn [currentPing tps]. lia.
  - unfold stallTimeThreshold; cbn [currentPing tps]. lia.
  - unfold recoveryCooldown; cbn [currentPing tps]. lia.
  - unfold postDigWaitTicks; cbn [currentPing tps].
    repeat match goal with |- context [?u >? ?v] =>
      destruct (Z.gtb_spec u v) end; lia.
  - unfold stuckTicksThreshold; cbn [currentPing tps].
    repeat match goal with |- context [?u >? ?v] =>
      destruct (Z.gtb_spec u v) end; lia.
  - unfold minRecoveryLevel; cbn [currentPing tps].
    repeat match goal with |- context [?u >? ?v] =>
      destruct (Z.gtb_spec u v) end; lia.
  - unfold rubberBandDistance; cbn [currentPing tps].
    repeat match goal with |- context [?u >? ?v] =>
      destruct (Z.gtb_spec u v) end; try lia; discriminate.
  - unfold speedMultiplier; cbn [currentPing tps].
    repeat match goal with |- context [?u >? ?v] =>
      destruct (Z.gtb_spec u v) end; try lia; discriminate.
Qed.

Lemma timings_follow_latency_witness :
  digTimeout (mkPingMonitor 120 20) <= digTimeout (mkPingMonitor 450 20) /\
  (speedMultiplier (mkPingMonitor 450 20)
   <= speedMultiplier (mkPingMonitor 120 20))%Q.
Proof.
  pose proof (timings_follow_latency 120 450 20 ltac:(lia)) as H.
  simpl in H. split; [apply H | apply H].
Defined.

(** X3: for a latency that is not negative and a tick rate of at most 20,
    the timeouts are at least their base values (6000, 8000, 180000 and
    5000 ms) and the inter-step delay is not negative; and at a fixed
    latency the dig timeout does not shrink when the tick rate falls. *)
Theorem timings_at_least_base (pm : PingMonitor) :
  0 <= currentPing pm -> (tps pm <= 20)%Q ->
  6000 <= digTimeout pm /\
  8000 <= pathfindTimeout pm /\
  180000 <= navigationTimeout pm /\
  0 <= interBlockDelay pm /\
  5000 <= safedigTimeout pm /\
  (forall t', (tps pm <= t')%Q ->
              digTimeout (mkPingMonitor (currentPing pm) t') <= digTimeout pm).
Proof.
  intros Hp Ht.
  assert (Hone : (1 <= 20 / Qmax 1 (tps pm))%Q).
  { apply Qle_shift_div_l; [apply Qmax_1_pos|].
    rewrite Qmult_1_l. apply Q.max_lub; [discriminate | assumption]. }
  repeat match goal with |- _ /\ _ => split end.
  - unfold digTimeout. apply Z.min_glb; [|lia].
    apply Z.le_trans with (m := Math_round (inject_Z 6000));
      [rewrite Math_round_inject_Z; lia|].
    apply Math_round_le.
    apply Qle_trans with (y := (inject_Z (6000 + Z.max 0 (currentPing pm * 2)) * 1)%Q).
    + rewrite Qmult_1_r. apply inject_Z_le. lia.
    + apply Qmult_le_l; [|assumption].
      apply Qlt_le_trans with (y := inject_Z 6000); [reflexivity|].
      apply inject_Z_le. lia.
  - unfold pathfindTimeout. rewrite Math_round_inject_Z. lia.
  - unfold navigationTimeout. rewrite Math_round_inject_Z. lia.
  - unfold interBlockDelay. apply Z.min_glb; [|lia].
    apply Z.le_trans with (m := Math_round (inject_Z 0));
      [rewrite Math_round_inject_Z; lia|].
    apply Math_round_le. apply Q.le_max_l.
  - unfold safedigTimeout. lia.
  - intros t' Ht'. unfold digTimeout; cbn [currentPing tps].
    apply Z_min_le_compat, Math_round_le.
    apply Qmult_le_l.
    + apply Qlt_le_trans with (y := inject_Z 6000); [reflexivity|].
      apply inject_Z_le. lia.
    + apply Qle_shift_div_l; [apply Qmax_1_pos|].
      assert (E : (20 / Qmax 1 t' * Qmax 1 (tps pm)
                   == 20 * Qmax 1 (tps pm) / Qmax 1 t')%Q)
        by (unfold Qdiv; ring).
      rewrite E. apply Qle_shift_div_r; [apply Qmax_1_pos|].
      apply Qmult_le_l; [reflexivity|].
      apply Q.max_le_compat_l. assumption.
Qed.

Lemma timings_at_least_base_witness :
  6000 <= digTimeout (mkPingMonitor 80 (15 # 1)) /\
  digTimeout (mkPingMonitor 80 20) <= digTimeout (mkPingMonitor 80 (15 # 1)).
Proof.
  pose proof (timings_at_least_base (mkPingMonitor 80 (15 # 1))
                ltac:(simpl; lia) ltac:(simpl; discriminate)) as H.
  split; [apply H|].
  destruct H as (_ & _ & _ & _ & _ & H). apply (H 20%Q). simpl. discriminate.
Defined.

End TimingFacts.

Section AreaFacts.

Import MiningEngine PlannerShape.

(** X1: the normalized area of two corners is ordered on every axis,
    contains both corners, is the same whichever corner comes first, is
    left alone by a second normalization, has a volume of at least 1, and
    lies inside every box that contains both corners. *)
Theorem normalizeArea_smallest_box (a : Area) :
  let n := normalizeArea a in
  (x (min n) <= x (max n) /\ y (min n) <= y (max n) /\ z (min n) <= z (max n)) /\
  in_box n (corner1 a) /\ in_box n (corner2 a) /\
  normalizeArea (mkArea (corner2 a) (corner1 a)) = n /\
  normalizeArea (mkArea (min n) (max n)) = n /\
  1 <= areaSize n /\
  (forall m, in_box m (corner1 a) -> in_box m (corner2 a) ->
             forall p, in_box n p -> in_box m p).
Proof.
  intro n. subst n. destruct a as [[x1 y1 z1] [x2 y2 z2]].
  unfold normalizeArea, in_box, areaSize; simpl.
  repeat match goal with |- _ /\ _ => split end; try lia.
  - now rewrite (Z.min_comm x2), (Z.min_comm y2), (Z.min_comm z2),
      (Z.max_comm x2), (Z.max_comm y2), (Z.max_comm z2).
  - f_equal; f_equal; lia.
  - apply Z.le_trans with (m := 1 * 1 * 1); [lia|].
    apply Z.mul_le_mono_nonneg; try lia.
    apply Z.mul_le_mono_nonneg; lia.
Qed.

Lemma normalizeArea_smallest_box_witness :
  in_box (mkNormalizedArea (mkVec3 (-5) 0 (-5)) (mkVec3 5 70 5)) (mkVec3 1 60 (-2)).
Proof.
  destruct (normalizeArea_smallest_box (mkArea (mkVec3 3 64 (-2)) (mkVec3 (-1) 60 4)))
    as (_ & _ & _ & _ & _ & _ & H).
  apply H; unfold in_box; simpl; lia.
Defined.

End AreaFacts.

(** ** The ping monitor's sampling *)

Section Sampling.

Import PingSampling SamplingShape.

Lemma insert_perm a l : Permutation (a :: l) (insert a l).
Proof.
  induction l as [|b l IH]; simpl.
  - apply Permutation_refl.
  - destruct (a <=? b); [apply Permutation_refl|].
    apply perm_trans with (l' := b :: a :: l); [apply perm_swap|].
    apply perm_skip. exact IH.
Qed.

Lemma sort_perm l : Permutation l (sort l).
Proof.
  induction l as [|a l IH]; simpl.
  - apply perm_nil.
  - apply perm_trans with (l' := a :: sort l); [now apply perm_skip|].
    apply insert_perm.
Qed.

Lemma insert_sorted a l :
  StronglySorted Z.le l -> StronglySorted Z.le (insert a l).
Proof.
  induction l as [|b l IH]; intro H; simpl.
  - constructor; constructor.
  - inversion H as [|? ? Hs Hf]; subst.
    destruct (Z.leb_spec a b).
    + constructor; [assumption|]. constructor; [assumption|].
      eapply Forall_impl; [|exact Hf]. intros c Hc. simpl in Hc. lia.
    + constructor; [now apply IH|].
      apply (Permutation_Forall (insert_perm a l)).
      constructor; [lia | assumption].
Qed.

Lemma sort_sorted l : StronglySorted Z.le (sort l).
Proof.
  induction l as [|a l IH]; simpl; [constructor | now apply insert_sorted].
Qed.

Lemma sorted_skipn_ge (l : list Z) :
  StronglySorted Z.le l ->
  forall m, (m < length l)%nat ->
            Forall (fun v => nth m l 0 <= v) (skipn m l).
Proof.
  induction 1 as [|a l Hs IH Hf]; intros m Hm; simpl in Hm; [lia|].
  destruct m as [|m]; simpl.
  - constructor; [lia | assumption].
  - apply IH. lia.
Qed.

Lemma sorted_firstn_le (l : list Z) :
  StronglySorted Z.le l ->
  forall m, (m < length l)%nat ->
            Forall (fun v => v <= nth m l 0) (firstn (S m) l).
Proof.
  induction 1 as [|a l Hs IH Hf]; intros m Hm; simpl in Hm; [lia|].
  destruct m as [|m].
  - simpl. constructor; [lia | constructor].
  - change (firstn (S (S m)) (a :: l)) with (a :: firstn (S m) l).
    change (nth (S m) (a :: l) 0) with (nth m l 0).
    constructor; [|apply IH; lia].
    rewrite Forall_forall in Hf. apply Hf. apply nth_In. lia.
Qed.

Lemma count_perm p l l' : Permutation l l' -> count p l = count p l'.
Proof.
  unfold count. induction 1 as [|a l l' _ IH|a b l|l l' l'' _ IH1 _ IH2]; simpl.
  - reflexivity.
  - destruct (p a); simpl; congruence.
  - destruct (p a), (p b); reflexivity.
  - congruence.
Qed.

Lemma count_all p l : Forall (fun v => p v = true) l -> count p l = length l.
Proof.
  unfold count. induction 1 as [|a l Ha _ IH]; simpl; [reflexivity|].
  rewrite Ha. simpl. congruence.
Qed.

Lemma count_split p l m :
  count p l = (count p (firstn m l) + count p (skipn m l))%nat.
Proof.
  unfold count. rewrite <- (firstn_skipn m l) at 1.
  now rewrite filter_app, length_app.
Qed.

Lemma median_upper (l : list Z) (B : Z) :
  l <> [] ->
  (2 * count (fun s => (B <? s)%Z) l < length l)%nat ->
  nth (Nat.div (length (sort l)) 2) (sort l) 0 <= B.
Proof.
  intros Hne Hc.
  pose proof (Permutation_length (sort_perm l)) as Hlen.
  assert (Hpos : (0 < length l)%nat) by (destruct l; [congruence | simpl; lia]).
  set (n := length (sort l)) in *. set (m := Nat.div n 2).
  assert (Hm : (m < n)%nat) by (apply Nat.Div0.div_lt_upper_bound; lia).
  destruct (Z.le_gt_cases (nth m (sort l) 0) B) as [|Hgt]; [assumption|].
  exfalso.
  pose proof (sorted_skipn_ge (sort l) (sort_sorted l) m Hm) as Hs.
  assert (Hall : count (fun s => B <? s) (skipn m (sort l))
                 = length (skipn m (sort l))).
  { apply count_all. eapply Forall_impl; [|exact Hs].
    intros v Hv. simpl in Hv. apply Z.ltb_lt. lia. }
  rewrite length_skipn in Hall. fold n in Hall.
  rewrite (count_perm _ _ _ (sort_perm l)) in Hc.
  rewrite (count_split _ (sort l) m) in Hc.
  assert (2 * m <= n)%nat by (apply Nat.Div0.mul_div_le).
  lia.
Qed.

Lemma median_lower (l : list Z) (B : Z) :
  l <> [] ->
  (2 * count (fun s => (s <? B)%Z) l <= length l)%nat ->
  B <= nth (Nat.div (length (sort l)) 2) (sort l) 0.
Proof.
  intros Hne Hc.
  pose proof (Permutation_length (sort_perm l)) as Hlen.
  assert (Hpos : (0 < length l)%nat) by (destruct l; [congruence | simpl; lia]).
  set (n := length (sort l)) in *. set (m := Nat.div n 2).
  assert (Hm : (m < n)%nat) by (apply Nat.Div0.div_lt_upper_bound; lia).
  destruct (Z.le_gt_cases B (nth m (sort l) 0)) as [|Hgt]; [assumption|].
  exfalso.
  pose proof (sorted_firstn_le (sort l) (sort_sorted l) m Hm) as Hs.
  assert (Hall : count (fun s => s <? B) (firstn (S m) (sort l))
                 = length (firstn (S m) (sort l))).
  { apply count_all. eapply Forall_impl; [|exact Hs].
    intros v Hv. simpl in Hv. apply Z.ltb_lt. lia. }
  rewrite length_firstn in Hall. fold n in Hall.
  rewrite (count_perm _ _ _ (sort_perm l)) in Hc.
  rewrite (count_split _ (sort l) (S m)) in Hc.
  assert (n < 2 * m + 2)%nat.
  { pose proof (Nat.div_mod_eq n 2) as E. fold m in E.
    pose proof (Nat.mod_upper_bound n 2 ltac:(lia)). lia. }
  lia.
Qed.

(** X4: a ping measurement keeps between 1 and 20 samples, the newest one
    last, and reports as current ping a sample of that window, their
    median: when fewer than half of the samples exceed a bound the current
    ping does not exceed it, and when at most half lie below a bound it
    does not lie below it. The critical event is emitted exactly above
    1000 ms, always together with the high event, and then the auto-pause
    trigger holds; the update event is emitted first at every measurement.
    A player entry whose ping is undefined is measured as 0 ms like any
    other sample; only when the bot has no player entry at all does the
    callback return without changing anything. *)
Theorem measure_reports_the_median (p : option Z) (st : State) :
  (length (samples st) <= SAMPLE_SIZE)%nat ->
  let ping := match p with Some v => v | None => 0 end in
  let st' := fst (measure (Some p) st) in
  let evs := snd (measure (Some p) st) in
  (1 <= length (samples st') <= SAMPLE_SIZE)%nat /\
  (exists older, samples st' = older ++ [ping]) /\
  In (_currentPing st') (samples st') /\
  (forall B, (2 * count (fun s => (B <? s)%Z) (samples st')
              < length (samples st'))%nat ->
             _currentPing st' <= B) /\
  (forall B, (2 * count (fun s => (s <? B)%Z) (samples st')
              <= length (samples st'))%nat ->
             B <= _currentPing st') /\
  (In (PingCritical (_currentPing st')) evs <-> 1000 < _currentPing st') /\
  (1000 < _currentPing st' ->
   In (PingHigh (_currentPing st')) evs /\
   AdaptiveTimings.shouldAutoPause (monitor st') = true) /\
  (exists more, evs = PingUpdate (getData st') :: more) /\
  (p = None -> exists older, samples st' = older ++ [0]) /\
  measure None st = (st, []).
Proof.
  intros Hlen ping st' evs. subst st' evs. unfold measure. fold ping.
  set (window := if (SAMPLE_SIZE <? length (samples st ++ [ping]))%nat
                 then tl (samples st ++ [ping]) else samples st ++ [ping]).
  cbn [fst snd samples _currentPing].
  assert (Hw : (1 <= length window <= SAMPLE_SIZE)%nat /\
               exists older, window = older ++ [ping]).
  { subst window. rewrite length_app. simpl length.
    destruct (Nat.ltb_spec SAMPLE_SIZE (length (samples st) + 1)) as [Hgt|Hle].
    - destruct (samples st) as [|s0 rest] eqn:Es;
        [unfold SAMPLE_SIZE in Hgt; simpl in Hgt; lia|].
      simpl. rewrite length_app. simpl in *. split; [lia|].
      exists rest. reflexivity.
    - rewrite length_app. simpl. split; [lia|]. exists (samples st). reflexivity. }
  destruct Hw as (Hwl & older & Hwo).
  assert (Hne : window <> []) by (intro E; rewrite E in Hwl; simpl in Hwl; lia).
  pose proof (Permutation_length (sort_perm window)) as Hsl.
  set (current := nth (Nat.div (length (sort window)) 2) (sort window) 0).
  assert (Hin : In current window).
  { apply (Permutation_in _ (Permutation_sym (sort_perm window))).
    apply nth_In. apply Nat.Div0.div_lt_upper_bound. lia. }
  split; [assumption|]. split; [exists older; assumption|].
  split; [assumption|].
  split; [intros B HB; now apply median_upper|].
  split; [intros B HB; now apply median_lower|].
  split; [|split; [|split; [eexists; reflexivity
                          |split; [intros ->; exists older; exact Hwo
                                  |reflexivity]]]].
  - split.
    + intro H. apply in_app_or in H. destruct H as [[H|[]]|H]; [discriminate|].
      apply in_app_or in H. destruct H as [H|H].
      * destruct (current >? 500); [destruct H as [H|[]]; discriminate | destruct H].
      * destruct (Z.gtb_spec current 1000); [lia | destruct H].
    + intro H. apply in_or_app. right. apply in_or_app. right.
      destruct (Z.gtb_spec current 1000); [left; reflexivity | lia].
  - intro H. split.
    + apply in_or_app. right. apply in_or_app. left.
      destruct (Z.gtb_spec current 500); [left; reflexivity | lia].
    + unfold AdaptiveTimings.shouldAutoPause, monitor. cbn [currentPing _currentPing].
      destruct (Z.gtb_spec current 1000); [reflexivity | lia].
Qed.

(** One spike of 4000 ms among quiet samples does not move the reading. *)
Lemma measure_reports_the_median_witness :
  _currentPing
    (fst (measure (Some (Some 4000))
            (mkState [40; 45; 50; 42] 0 [] 45 20))) <= 50.
Proof.
  destruct (measure_reports_the_median (Some 4000)
              (mkState [40; 45; 50; 42] 0 [] 45 20)
              ltac:(vm_compute; lia)) as (_ & _ & _ & H & _).
  apply H. vm_compute. lia.
Defined.

(** A player entry without a ping is measured as 0 ms, and announced. *)
Example undefined_ping_counts_as_zero :
  measure (Some None) initial
  = (mkState [0] 0 [] 0 20,
     [PingUpdate (getData (mkState [0] 0 [] 0 20))]) /\
  measure None initial = (initial, []).
Proof. split; reflexivity. Qed.

End Sampling.

Section TickRate.

Import PingSampling SamplingShape.

Lemma Qltb_lt (a b : Q) : Qltb a b = true <-> (a < b)%Q.
Proof.
  unfold Qltb. rewrite negb_true_iff. split.
  - intro H. apply Qnot_le_lt. intro Hle.
    apply Qle_bool_iff in Hle. congruence.
  - intro H. destruct (Qle_bool b a) eqn:E; [|reflexivity].
    apply Qle_bool_iff in E. exfalso. exact (Qlt_not_le _ _ H E).
Qed.

Lemma fold_add_bounds (lo hi : Z) (l : list Z) :
  Forall (fun d => lo <= d <= hi) l ->
  forall acc,
    acc + lo * Z.of_nat (length l) <= fold_left Z.add l acc
    <= acc + hi * Z.of_nat (length l).
Proof.
  induction 1 as [|d l Hd _ IH]; intro acc; simpl fold_left.
  - simpl. lia.
  - specialize (IH (acc + d)). rewrite length_cons, Nat2Z.inj_succ. lia.
Qed.

Lemma sum_bounds (l : list Z) :
  Forall (fun d => 0 < d < 500) l ->
  Z.of_nat (length l) <= sum l <= 499 * Z.of_nat (length l).
Proof.
  intro H. unfold sum.
  pose proof (fold_add_bounds 1 499 l) as B.
  assert (H' : Forall (fun d => 1 <= d <= 499) l)
    by (eapply Forall_impl; [|exact H]; simpl; intros; lia).
  specialize (B H' 0). lia.
Qed.

(** The estimate written from at least ten intervals, as a fraction. *)
Lemma estimate_range (S L : Z) :
  0 < L -> L <= S <= 499 * L ->
  (2 < 1000 / (inject_Z S / inject_Z L))%Q /\
  ((1000 / (inject_Z S / inject_Z L) < 5)%Q <-> 200 * L < S).
Proof.
  intros HL HS.
  assert (HLq : (0 < inject_Z L)%Q) by (rewrite <- (Zlt_Qlt 0); lia).
  assert (HSq : (0 < inject_Z S)%Q) by (rewrite <- (Zlt_Qlt 0); lia).
  assert (Havg : (0 < inject_Z S / inject_Z L)%Q).
  { apply Qlt_shift_div_l; [assumption|]. now rewrite Qmult_0_l. }
  assert (E : (1000 / (inject_Z S / inject_Z L)
               == inject_Z (1000 * L) / inject_Z S)%Q).
  { rewrite inject_Z_mult. field. split; intro Z0.
    - rewrite Z0 in HSq. discriminate.
    - rewrite Z0 in HLq. discriminate. }
  rewrite E. split.
  - apply Qlt_shift_div_l; [assumption|].
    change 2%Q with (inject_Z 2).
    rewrite <- (inject_Z_mult 2 S). rewrite <- Zlt_Qlt. lia.
  - split.
    + intro H. apply (Qmult_lt_r _ _ (inject_Z S) HSq) in H.
      assert (E2 : (inject_Z (1000 * L) / inject_Z S * inject_Z S
                    == inject_Z (1000 * L))%Q).
      { field. intro Z0. rewrite Z0 in HSq. discriminate. }
      rewrite E2 in H. change 5%Q with (inject_Z 5) in H.
      rewrite <- (inject_Z_mult 5 S) in H.
      rewrite <- Zlt_Qlt in H. lia.
    + intro H. apply Qlt_shift_div_r; [assumption|].
      change 5%Q with (inject_Z 5).
      rewrite <- (inject_Z_mult 5 S). rewrite <- Zlt_Qlt. lia.
Qed.

Lemma tickListener_invariant (now : Z) (st : State) :
  tpsInvariant st -> tpsInvariant (tickListener now st).
Proof.
  intros (Hd & Hl & Hlo & Hhi). unfold tpsInvariant, tickListener.
  cbn [tickDeltas _tps].
  set (delta := now - lastTickTime st).
  set (deltas := if (delta >? 0) && (delta <? 500) then _ else tickDeltas st).
  assert (Hdel : Forall (fun d => 0 < d < 500) deltas /\
                 (length deltas <= TPS_SAMPLE_SIZE)%nat).
  { subst deltas.
    destruct ((delta >? 0) && (delta <? 500)) eqn:Hin; [|now split].
    apply andb_true_iff in Hin. destruct Hin as (H1 & H2).
    apply Z.gtb_lt in H1. apply Z.ltb_lt in H2.
    assert (Hall : Forall (fun d => 0 < d < 500) (tickDeltas st ++ [delta])).
    { apply Forall_app. split; [assumption|]. constructor; [lia | constructor]. }
    destruct (Nat.ltb_spec TPS_SAMPLE_SIZE (length (tickDeltas st ++ [delta])))
      as [Hgt|Hle]; [|now split].
    rewrite length_app in Hgt. simpl in Hgt.
    destruct (tickDeltas st ++ [delta]) as [|d0 rest] eqn:E.
    - simpl. split; [constructor | lia].
    - simpl. inversion Hall; subst. split; [assumption|].
      assert (length (d0 :: rest) = length (tickDeltas st) + 1)%nat
        by (rewrite <- E, length_app; simpl; lia).
      simpl in *. lia. }
  destruct Hdel as (Hdf & Hdl).
  split; [assumption|]. split; [assumption|].
  clearbody deltas.
  destruct (Nat.leb_spec 10 (length deltas)) as [H10|H10]; [|now split].
  pose proof (sum_bounds deltas Hdf) as Hs.
  destruct (estimate_range (sum deltas) (Z.of_nat (length deltas))
              ltac:(lia) Hs) as (H2 & _).
  split.
  - apply Q.min_glb_lt; [reflexivity | assumption].
  - apply Q.le_min_l.
Qed.

(** X5: the tick listener keeps only intervals strictly between 0 and
    500 ms, at most 40 of them, and its estimate of the tick rate stays
    above 2 and at most 20 per second, whatever the tick times; and an
    estimate made from at least ten intervals is below 5, the auto-pause
    bound, exactly when those intervals average more than 200 ms. *)
Theorem tickListener_estimate_in_range (times : list Z) (st : State) :
  tpsInvariant st ->
  tpsInvariant (fold_left (fun s now => tickListener now s) times st) /\
  tpsInvariant initial /\
  (forall now,
      let st' := tickListener now st in
      (10 <= length (tickDeltas st'))%nat ->
      (Qltb (_tps st') 5 = true <->
       200 * Z.of_nat (length (tickDeltas st')) < sum (tickDeltas st'))).
Proof.
  intro H. split; [|split].
  - revert st H. induction times as [|t times IH]; intros st H; simpl.
    + exact H.
    + apply IH. now apply tickListener_invariant.
  - unfold tpsInvariant, initial; simpl.
    repeat split; try constructor; try lia; try reflexivity; discriminate.
  - intros now st' H10.
    pose proof (tickListener_invariant now st H) as (Hdf & _).
    fold st' in Hdf.
    assert (Etps : _tps st'
                   = Qmin 20 (1000 / (inject_Z (sum (tickDeltas st'))
                                      / inject_Z (Z.of_nat (length (tickDeltas st')))))).
    { subst st'. unfold tickListener in *. cbn [tickDeltas _tps] in *.
      apply Nat.leb_le in H10. now rewrite H10. }
    rewrite Etps. rewrite Qltb_lt.
    pose proof (sum_bounds _ Hdf) as Hs.
    destruct (estimate_range (sum (tickDeltas st'))
                (Z.of_nat (length (tickDeltas st'))) ltac:(lia) Hs) as (_ & Hiff).
    rewrite Q.min_lt_iff. rewrite <- Hiff. split.
    + intros [Hbad|Hok]; [discriminate Hbad | exact Hok].
    + intro Hok. right. exact Hok.
Qed.

(** Ten ticks 250 ms apart after the start: ten intervals, four ticks
    per second. *)
Lemma tickListener_estimate_in_range_witness :
  tpsInvariant (fold_left (fun s now => tickListener now s)
                  [250; 500; 750; 1000; 1250; 1500; 1750; 2000; 2250; 2500]
                  initial).
Proof.
  destruct (tickListener_estimate_in_range
              [250; 500; 750; 1000; 1250; 1500; 1750; 2000; 2250; 2500]
              initial) as (H & _).
  - unfold tpsInvariant, initial; simpl.
    repeat split; try constructor; try lia; try reflexivity; discriminate.
  - apply H.
Defined.

Example slow_ticks_trigger_auto_pause :
  let st := fold_left (fun s now => tickListener now s)
              [250; 500; 750; 1000; 1250; 1500; 1750; 2000; 2250; 2500]
              initial in
  (_tps st == 4)%Q /\ AdaptiveTimings.shouldAutoPause (monitor st) = true.
Proof. vm_compute. split; reflexivity. Qed.

End TickRate.


(** ** The monitor's buffers *)

Section Buffers.

Import AntiStuck MonitorShape.

Ltac break_goal :=
  match goal with
  | |- context [match ?t with _ => _ end] => destruct t eqn:?
  end.

Lemma Qltb_false_le (a b : Q) : Qltb a b = false -> (b <= a)%Q.
Proof.
  unfold Qltb. intro H. apply negb_false_iff in H.
  now apply Qle_bool_iff.
Qed.

Lemma spaced_tl (l : list QVec3) : spaced l -> spaced (tl l).
Proof.
  destruct l as [|a [|b l]]; simpl; auto. intros [_ H]. exact H.
Qed.

Lemma lastOf_cons {A : Type} (a b : A) (l : list A) :
  lastOf (a :: b :: l) = lastOf (b :: l).
Proof.
  unfold lastOf. simpl.
  destruct (rev l ++ [b]) as [|c r] eqn:E.
  - destruct (rev l); discriminate.
  - reflexivity.
Qed.

Lemma spaced_push (l : list QVec3) (p : QVec3) :
  spaced l ->
  match lastOf l with
  | Some last => Qltb (dist2 p last) 1 = false
  | None => True
  end ->
  spaced (push l p).
Proof.
  unfold push. induction l as [|a l IH]; intros Hs Hl.
  - exact I.
  - destruct l as [|b l].
    + simpl in *. split; [|exact I]. now apply Qltb_false_le.
    + rewrite lastOf_cons in Hl. destruct Hs as [Hab Hs].
      change (spaced (a :: (b :: l) ++ [p])).
      simpl. split; [exact Hab|]. apply IH; assumption.
Qed.

Lemma markSafePosition_buffers v st :
  buffersBounded st -> buffersBounded (markSafePosition v st).
Proof.
  intros (Hs & Hp & Hsp). unfold markSafePosition.
  destruct (entity v) as [ent|]; [|now repeat split].
  destruct (lastOf (safePositions st)) as [last|] eqn:El.
  - destruct (Qltb (dist2 (entity_position ent) last) 1) eqn:Eq;
      [now repeat split|].
    assert (Hpush : spaced (push (safePositions st) (entity_position ent)))
      by (apply spaced_push; [assumption | now rewrite El]).
    unfold buffersBounded. cbn [safePositions posHistory set_safePositions].
    destruct (Nat.ltb_spec SAFE_POSITIONS_KEEP
                (length (push (safePositions st) (entity_position ent))))
      as [Hgt|Hle].
    + split; [|split; [assumption | now apply spaced_tl]].
      unfold shift, push in *. rewrite length_app in Hgt. simpl in Hgt.
      destruct (safePositions st ++ [entity_position ent]) eqn:E; simpl; [lia|].
      assert (length (q :: l) = length (safePositions st) + 1)%nat
        by (rewrite <- E, length_app; simpl; lia).
      simpl in *. lia.
    + repeat split; assumption.
  - assert (Hpush : spaced (push (safePositions st) (entity_position ent)))
      by (apply spaced_push; [assumption | now rewrite El]).
    unfold buffersBounded. cbn [safePositions posHistory set_safePositions].
    destruct (Nat.ltb_spec SAFE_POSITIONS_KEEP
                (length (push (safePositions st) (entity_position ent))))
      as [Hgt|Hle].
    + split; [|split; [assumption | now apply spaced_tl]].
      unfold shift, push in *. rewrite length_app in Hgt. simpl in Hgt.
      destruct (safePositions st ++ [entity_position ent]) eqn:E; simpl; [lia|].
      assert (length (q :: l) = length (safePositions st) + 1)%nat
        by (rewrite <- E, length_app; simpl; lia).
      simpl in *. lia.
    + repeat split; assumption.
Qed.

Lemma buffersBounded_ext (a b : State) :
  safePositions a = safePositions b -> posHistory a = posHistory b ->
  buffersBounded b -> buffersBounded a.
Proof. unfold buffersBounded. intros -> ->. auto. Qed.

Lemma triggerRecovery_buffers reason now pm st :
  safePositions (triggerRecovery reason now pm st) = safePositions st /\
  posHistory (triggerRecovery reason now pm st) = posHistory st.
Proof. unfold triggerRecovery. repeat break_goal; split; reflexivity. Qed.

Lemma clearBlockingPath_buffers v st :
  safePositions (fst (clearBlockingPath v st)) = safePositions st /\
  posHistory (fst (clearBlockingPath v st)) = posHistory st.
Proof. unfold clearBlockingPath. repeat break_goal; split; reflexivity. Qed.

Lemma tickListener_buffers now pm v st :
  buffersBounded st -> buffersBounded (tickListener now pm v st).
Proof.
  intro H. unfold tickListener.
  destruct (entity v) as [ent|]; [|assumption].
  destruct (recovering st); [assumption|].
  set (st1 := set_lastTickPos _ _).
  assert (H1 : buffersBounded st1).
  { apply (buffersBounded_ext _ st); [| |assumption];
      subst st1; simpl; repeat break_goal; reflexivity. }
  clearbody st1.
  set (st2 := if negb (isEmpty (getOverlappingBlocks v)) then _ else _).
  assert (H2 : buffersBounded st2).
  { apply (buffersBounded_ext _ st1); [| |assumption]; subst st2;
      repeat break_goal; simpl;
      rewrite ?(proj1 (triggerRecovery_buffers _ _ _ _)),
              ?(proj2 (triggerRecovery_buffers _ _ _ _)); reflexivity. }
  clearbody st2.
  repeat break_goal; try assumption.
  apply (buffersBounded_ext _ (markSafePosition v st2)); try reflexivity.
  now apply markSafePosition_buffers.
Qed.

Lemma checkForLoop_buffers now pm st :
  buffersBounded st -> buffersBounded (checkForLoop now pm st).
Proof.
  intros (Hs & Hp & Hsp). unfold checkForLoop.
  repeat break_goal; try (repeat split; assumption).
  unfold buffersBounded.
  rewrite (proj1 (triggerRecovery_buffers _ _ _ _)),
          (proj2 (triggerRecovery_buffers _ _ _ _)).
  simpl. repeat split; try assumption. lia.
Qed.

Lemma stallCheck_buffers now pm v pathfinderActive st :
  buffersBounded st ->
  buffersBounded (fst (stallCheck now pm v pathfinderActive st)).
Proof.
  intro H. unfold stallCheck.
  destruct (entity v) as [ent|]; [|assumption].
  destruct (recovering st) eqn:Hrec; [assumption|].
  set (stH := set_posHistory _ st).
  assert (HH : buffersBounded stH).
  { destruct H as (Hs & Hp & Hsp). subst stH. unfold buffersBounded.
    cbn [safePositions posHistory set_posHistory].
    split; [assumption|]. split; [|assumption].
    unfold push, shift.
    destruct (Nat.ltb_spec POSITION_HISTORY_SIZE
                (length (posHistory st ++ [(entity_position ent, now)])))
      as [Hgt|Hle]; [|assumption].
    rewrite length_app in Hgt. simpl in Hgt.
    destruct (posHistory st ++ [(entity_position ent, now)]) eqn:E; simpl; [lia|].
    assert (length (p :: l) = length (posHistory st) + 1)%nat
      by (rewrite <- E, length_app; simpl; lia).
    simpl in *. lia. }
  clearbody stH.
  destruct (lastMovePos stH) as [last|];
    [|simpl; apply checkForLoop_buffers; assumption].
  destruct (Qltb _ (dist2 _ last));
    [simpl; apply checkForLoop_buffers;
     apply (buffersBounded_ext _ stH); [reflexivity | reflexivity | exact HH]|].
  destruct (now - lastMoveTime stH >? _);
    [|simpl; apply checkForLoop_buffers; assumption].
  destruct (pathfinderActive && negb (recovering stH));
    [|simpl; apply checkForLoop_buffers; assumption].
  destruct (negb (isEmpty (getBlockingBlocks v)) && negb (blockClearAttempted stH)).
  - pose proof (clearBlockingPath_buffers v (set_blockClearAttempted true stH)) as Hc.
    destruct (clearBlockingPath v (set_blockClearAttempted true stH)) as [s1 a1].
    simpl in Hc. simpl. apply checkForLoop_buffers.
    apply (buffersBounded_ext _ stH); [apply Hc | apply Hc | exact HH].
  - simpl. apply checkForLoop_buffers.
    apply (buffersBounded_ext _ stH); [| |exact HH]; simpl.
    + now rewrite (proj1 (triggerRecovery_buffers _ _ _ _)).
    + now rewrite (proj2 (triggerRecovery_buffers _ _ _ _)).
Qed.

Lemma step_buffers st ev : buffersBounded st -> buffersBounded (step st ev).
Proof.
  intro H. destruct ev; cbn [step].
  - unfold enable. destruct (active st); [assumption|].
    apply (buffersBounded_ext _ st); [reflexivity | reflexivity | exact H].
  - unfold disable. destruct (negb (active st)); [assumption|].
    destruct H as (Hs & Hp & Hsp). unfold buffersBounded. simpl.
    repeat split; try assumption. lia.
  - unfold reset, buffersBounded. simpl. repeat split; lia.
  - now apply markSafePosition_buffers.
  - destruct (active st); [apply tickListener_buffers|]; assumption.
  - destruct (active st); [apply stallCheck_buffers|]; assumption.
  - apply (buffersBounded_ext _ st); [apply clearBlockingPath_buffers
                                      | apply clearBlockingPath_buffers | exact H].
  - unfold clearBlockingPath_finally. destruct (clearing st); [|assumption].
    apply (buffersBounded_ext _ st); [reflexivity | reflexivity | exact H].
  - unfold triggerRecovery_action.
    destruct (suspended st) as [[level|]|]; simpl; try assumption.
    apply (buffersBounded_ext _ st); [| |exact H];
      repeat break_goal; reflexivity.
  - unfold triggerRecovery_catch.
    destruct (suspended st) as [[level|]|]; assumption.
  - unfold triggerRecovery_recheck.
    destruct (suspended st) as [[level|]|]; try assumption.
    apply (buffersBounded_ext _ st); [| |exact H];
      repeat break_goal; reflexivity.
Qed.

(** X6: the monitor's two buffers stay bounded whatever happens to it: it
    keeps at most 15 safe positions and at most 30 entries of position
    history, and every safe position it keeps lies at least one block from
    the one saved just before it. *)
Theorem buffers_stay_bounded (evs : list Event) (st : State) :
  buffersBounded st -> buffersBounded (run evs st).
Proof.
  revert st. unfold run.
  induction evs as [|ev evs IH]; intros st H; simpl.
  - exact H.
  - apply IH. now apply step_buffers.
Qed.

(** Twenty safe positions two blocks apart: fifteen are kept. *)
Lemma buffers_stay_bounded_witness :
  let mark := fun i : Z =>
    EvMarkSafePosition (Samples.standing (mkQVec3 (inject_Z (2 * i)) 64 0)
                          Samples.airWorld) in
  let st := run (map mark (PlannerShape.ups 20 0)) initial in
  buffersBounded st /\ length (safePositions st) = 15%nat.
Proof.
  split.
  - apply buffers_stay_bounded. unfold buffersBounded. simpl.
    repeat split; lia.
  - vm_compute. reflexivity.
Defined.

End Buffers.


(** ** One recovery at a time *)

Section Exclusion.

Import AntiStuck MonitorShape.

Ltac break_goal :=
  match goal with
  | |- context [match ?t with _ => _ end] => destruct t eqn:?
  end.

Lemma exclusive_ext (a b : State) :
  flags a = flags b -> exclusive b -> exclusive a.
Proof.
  unfold flags, exclusive, flagsConsistent, unstuckEvents, stuckEvents,
    pendingRecoveries.
  intro E. injection E as -> -> -> ->. auto.
Qed.

Lemma idle_flags st :
  flagsConsistent st -> recovering st = false ->
  suspended st = None /\ clearing st = false.
Proof.
  unfold flagsConsistent.
  destruct (suspended st), (clearing st); intros; try contradiction;
    try congruence; auto.
Qed.

Lemma busy_flags st p :
  flagsConsistent st -> suspended st = Some p ->
  clearing st = false /\ recovering st = true.
Proof.
  unfold flagsConsistent. intros H Hs. rewrite Hs in H.
  destruct (clearing st); [contradiction | auto].
Qed.

Lemma triggerRecovery_exclusive reason now pm st :
  exclusive st -> exclusive (triggerRecovery reason now pm st).
Proof.
  unfold triggerRecovery. intros [Hf He].
  destruct (recovering st) eqn:Hr; [now split|].
  destruct (_ <? _); [now split|].
  destruct (idle_flags st Hf Hr) as [Hs Hc].
  unfold exclusive, flagsConsistent, unstuckEvents, stuckEvents,
    pendingRecoveries, push in *. rewrite Hs in He.
  destruct (recoveryLevel _ <? _); simpl; rewrite Hc;
    rewrite !filter_app, !length_app; simpl; split; try reflexivity; lia.
Qed.

Lemma clearBlockingPath_exclusive v st :
  exclusive st -> exclusive (fst (clearBlockingPath v st)).
Proof.
  unfold clearBlockingPath. intros [Hf He].
  destruct (recovering st) eqn:Hr; [now split|].
  destruct (isEmpty _); [now split|].
  destruct (idle_flags st Hf Hr) as [Hs Hc].
  unfold exclusive, flagsConsistent, unstuckEvents, stuckEvents,
    pendingRecoveries in *. simpl. rewrite Hs in *.
  split; [reflexivity | exact He].
Qed.

Lemma markSafePosition_flags v st : flags (markSafePosition v st) = flags st.
Proof. unfold markSafePosition. repeat break_goal; reflexivity. Qed.

Lemma tickListener_exclusive now pm v st :
  exclusive st -> exclusive (tickListener now pm v st).
Proof.
  intro H. unfold tickListener.
  destruct (entity v) as [ent|]; [|assumption].
  destruct (recovering st); [assumption|].
  set (st1 := set_lastTickPos _ _).
  assert (H1 : exclusive st1).
  { apply (exclusive_ext _ st); [|assumption].
    subst st1. repeat break_goal; reflexivity. }
  clearbody st1.
  set (st2 := if negb (isEmpty (getOverlappingBlocks v)) then _ else _).
  assert (H2 : exclusive st2).
  { subst st2. repeat break_goal;
      try apply triggerRecovery_exclusive;
      (apply (exclusive_ext _ st1); [reflexivity | assumption]). }
  clearbody st2.
  repeat break_goal; try assumption.
  apply (exclusive_ext _ st2); [|assumption].
  apply (markSafePosition_flags v st2).
Qed.

Lemma checkForLoop_exclusive now pm st :
  exclusive st -> exclusive (checkForLoop now pm st).
Proof.
  intro H. unfold checkForLoop.
  repeat break_goal; try assumption.
  apply triggerRecovery_exclusive.
  apply (exclusive_ext _ st); [reflexivity | assumption].
Qed.

Lemma stallCheck_exclusive now pm v pathfinderActive st :
  exclusive st ->
  exclusive (fst (stallCheck now pm v pathfinderActive st)).
Proof.
  intro H. unfold stallCheck.
  destruct (entity v) as [ent|]; [|assumption].
  destruct (recovering st) eqn:Hrec; [assumption|].
  set (stH := set_posHistory _ st).
  assert (HH : exclusive stH)
    by (apply (exclusive_ext _ st); [reflexivity | assumption]).
  clearbody stH.
  destruct (lastMovePos stH) as [last|];
    [|simpl; apply checkForLoop_exclusive; assumption].
  destruct (Qltb _ (dist2 _ last));
    [simpl; apply checkForLoop_exclusive;
     apply (exclusive_ext _ stH); [reflexivity | exact HH]|].
  destruct (now - lastMoveTime stH >? _);
    [|simpl; apply checkForLoop_exclusive; assumption].
  destruct (pathfinderActive && negb (recovering stH));
    [|simpl; apply checkForLoop_exclusive; assumption].
  destruct (negb (isEmpty (getBlockingBlocks v)) && negb (blockClearAttempted stH)).
  - pose proof (clearBlockingPath_exclusive v (set_blockClearAttempted true stH)) as Hc.
    destruct (clearBlockingPath v (set_blockClearAttempted true stH)) as [s1 a1].
    simpl in Hc. simpl. apply checkForLoop_exclusive.
    apply (exclusive_ext _ s1); [reflexivity|].
    apply Hc. apply (exclusive_ext _ stH); [reflexivity | exact HH].
  - simpl. apply checkForLoop_exclusive.
    apply (exclusive_ext _ (triggerRecovery "stall" now pm
                              (set_blockClearAttempted false
                                 (set_stats (count_stall (stats stH)) stH))));
      [reflexivity|].
    apply triggerRecovery_exclusive.
    apply (exclusive_ext _ stH); [reflexivity | exact HH].
Qed.

Lemma step_exclusive st ev : exclusive st -> exclusive (step st ev).
Proof.
  intro H. destruct ev; cbn [step].
  - unfold enable. destruct (active st); [assumption|].
    apply (exclusive_ext _ st); [reflexivity | exact H].
  - unfold disable. destruct (negb (active st)); [assumption|].
    apply (exclusive_ext _ st); [reflexivity | exact H].
  - apply (exclusive_ext _ st); [reflexivity | exact H].
  - apply (exclusive_ext _ st); [apply markSafePosition_flags | exact H].
  - destruct (active st); [apply tickListener_exclusive|]; assumption.
  - destruct (active st); [apply stallCheck_exclusive|]; assumption.
  - now apply clearBlockingPath_exclusive.
  - unfold clearBlockingPath_finally. destruct (clearing st) eqn:Hc; [|assumption].
    destruct H as [Hf He].
    unfold exclusive, flagsConsistent, unstuckEvents, stuckEvents,
      pendingRecoveries in *. simpl. rewrite Hc in Hf.
    destruct (suspended st); [contradiction|]. split; [reflexivity | exact He].
  - unfold triggerRecovery_action.
    destruct (suspended st) as [[level|]|] eqn:Hs; simpl; try assumption.
    destruct H as [Hf He].
    destruct (busy_flags st _ Hf Hs) as [Hc Hr].
    unfold exclusive, flagsConsistent, unstuckEvents, stuckEvents,
      pendingRecoveries in *. rewrite Hs in He.
    destruct (isEmergency level); [destruct (entity (v0 vs))|];
      simpl; rewrite Hc; split; assumption.
  - unfold triggerRecovery_catch.
    destruct (suspended st) as [[level|]|] eqn:Hs; try assumption.
    destruct H as [Hf He].
    destruct (busy_flags st _ Hf Hs) as [Hc Hr].
    unfold exclusive, flagsConsistent, unstuckEvents, stuckEvents,
      pendingRecoveries in *. rewrite Hs in He. simpl. rewrite Hc.
    split; [reflexivity | lia].
  - unfold triggerRecovery_recheck.
    destruct (suspended st) as [[level|]|] eqn:Hs; try assumption.
    destruct H as [Hf He].
    destruct (busy_flags st _ Hf Hs) as [Hc Hr].
    unfold exclusive, flagsConsistent, unstuckEvents, stuckEvents,
      pendingRecoveries, push in *. rewrite Hs in He.
    destruct (_ || _); simpl; rewrite Hc, ?filter_app, ?length_app; simpl;
      split; try reflexivity; lia.
Qed.

(** X7: recoveries never overlap. Whatever happens to the monitor, the
    in-recovery flag is set exactly while a [triggerRecovery] call or a
    [clearBlockingPath] call is suspended, never both at once; every
    unstuck event, and every recovery still running, has its own stuck
    event before it; and while the flag is set the tick monitor, the stall
    monitor, another path clearing and another trigger all return at once,
    changing nothing and digging nothing. *)
Theorem recoveries_never_overlap (evs : list Event) (st : State) :
  exclusive st ->
  let st' := run evs st in
  exclusive st' /\
  (suspended st' <> None \/ clearing st' = true ->
   recovering st' = true /\
   forall now pm v pathfinderActive reason,
     step st' (EvPhysicTick now pm v) = st' /\
     step st' (EvStallCheck now pm v pathfinderActive) = st' /\
     actionsOf st' (EvStallCheck now pm v pathfinderActive) = [] /\
     clearBlockingPath v st' = (st', []) /\
     triggerRecovery reason now pm st' = st').
Proof.
  intros H st'.
  assert (Hex : exclusive st').
  { subst st'. revert st H. unfold run.
    induction evs as [|ev evs IH]; intros st H; simpl.
    - exact H.
    - apply IH. now apply step_exclusive. }
  split; [exact Hex|].
  intro Hbusy.
  assert (Hr : recovering st' = true).
  { destruct Hex as [Hf _]. unfold flagsConsistent in Hf.
    destruct (suspended st'), (clearing st'), Hbusy;
      try contradiction; congruence. }
  split; [exact Hr|].
  intros now pm v pa reason. cbn [step actionsOf].
  unfold tickListener, stallCheck, clearBlockingPath, triggerRecovery.
  rewrite Hr.
  destruct (active st'), (entity v); repeat split; reflexivity.
Qed.

(** The buried bot, while its recovery runs: a further tick changes
    nothing. *)
Lemma recoveries_never_overlap_witness :
  let v := Samples.standing (mkQVec3 (1 # 2) 64 (1 # 2)) Samples.stoneWorld in
  let st := run [EvEnable 100000 v; EvPhysicTick 100050 Samples.calm v;
                 EvPhysicTick 100100 Samples.calm v;
                 EvPhysicTick 100150 Samples.calm v] initial in
  exclusive st /\ step st (EvPhysicTick 100200 Samples.calm v) = st.
Proof.
  intros v st.
  assert (H0 : exclusive initial).
  { unfold exclusive, flagsConsistent. simpl. split; [reflexivity|].
    vm_compute. lia. }
  destruct (recoveries_never_overlap
              [EvEnable 100000 v; EvPhysicTick 100050 Samples.calm v;
               EvPhysicTick 100100 Samples.calm v;
               EvPhysicTick 100150 Samples.calm v] initial H0) as [Hex Hmute].
  split; [exact Hex|].
  destruct Hmute as [_ Hm]; [left; vm_compute; discriminate|].
  exact (proj1 (Hm 100200 Samples.calm v true "stall"%string)).
Defined.

End Exclusion.


(** ** The suffocation monitor *)

Section Suffocation.

Import AntiStuck MonitorShape.

Ltac break_goal :=
  match goal with
  | |- context [match ?t with _ => _ end] => destruct t eqn:?
  end.

Lemma suffocating_entity v : suffocating v -> exists ent, entity v = Some ent.
Proof.
  unfold suffocating, getOverlappingBlocks.
  destruct (entity v) as [ent|]; [eauto | congruence].
Qed.

Lemma suffocating_tick now pm v st :
  recovering st = false -> suffocating v ->
  exists st1,
    stuckTicks st1 = stuckTicks st /\ recovering st1 = false /\
    recoveryLevel st1 = recoveryLevel st /\
    lastRecoveryTime st1 = lastRecoveryTime st /\
    emitted st1 = emitted st /\
    totalRecoveries (stats st1) = totalRecoveries (stats st) /\
    suffocations (stats st1) = suffocations (stats st) /\
    tickListener now pm v st =
      if stuckTicks st + 1 >=? AdaptiveTimings.stuckTicksThreshold pm
      then triggerRecovery "suffocation" now pm
             (set_stats (count_suffocation (stats st1))
                (set_stuckTicks (stuckTicks st + 1) st1))
      else set_stuckTicks (stuckTicks st + 1) st1.
Proof.
  intros Hr Hs. destruct (suffocating_entity v Hs) as [ent He].
  unfold tickListener. rewrite He, Hr.
  set (st1 := set_lastTickPos _ _).
  exists st1.
  assert (H1 : stuckTicks st1 = stuckTicks st /\ recovering st1 = false /\
               recoveryLevel st1 = recoveryLevel st /\
               lastRecoveryTime st1 = lastRecoveryTime st /\
               emitted st1 = emitted st /\
               totalRecoveries (stats st1) = totalRecoveries (stats st) /\
               suffocations (stats st1) = suffocations (stats st)).
  { subst st1. repeat break_goal; simpl; auto 10. }
  destruct H1 as (E1 & E2 & E3 & E4 & E5 & E6 & E7).
  repeat (split; [assumption|]).
  clearbody st1.
  unfold suffocating in Hs.
  destruct (getOverlappingBlocks v) as [|b bs]; [congruence|].
  cbn [isEmpty negb andb stuckTicks set_stuckTicks recovering].
  rewrite E1, E2. cbn [negb]. rewrite andb_true_r.
  destruct (stuckTicks st + 1 >=? AdaptiveTimings.stuckTicksThreshold pm);
    reflexivity.
Qed.

Lemma quiet_ticks pm (l : list (Z * View)) :
  forall st,
    recovering st = false ->
    Forall (fun t => suffocating (snd t)) l ->
    stuckTicks st + Z.of_nat (length l) < AdaptiveTimings.stuckTicksThreshold pm ->
    let st' := ticks pm l st in
    stuckTicks st' = stuckTicks st + Z.of_nat (length l) /\
    recovering st' = false /\
    recoveryLevel st' = recoveryLevel st /\
    lastRecoveryTime st' = lastRecoveryTime st /\
    emitted st' = emitted st /\
    totalRecoveries (stats st') = totalRecoveries (stats st) /\
    suffocations (stats st') = suffocations (stats st).
Proof.
  induction l as [|[now v] l IH]; intros st Hr Hall Hlt.
  - simpl. rewrite Z.add_0_r. auto 10.
  - inversion Hall as [|t l' Hv Hall']; subst. cbn [snd] in Hv.
    rewrite length_cons, Nat2Z.inj_succ in Hlt.
    destruct (suffocating_tick now pm v st Hr Hv)
      as (st1 & E1 & E2 & E3 & E4 & E5 & E6 & E7 & Et).
    assert (Hc : (stuckTicks st + 1 >=? AdaptiveTimings.stuckTicksThreshold pm)
                 = false) by (rewrite Z.geb_leb; apply Z.leb_gt; lia).
    rewrite Hc in Et.
    unfold ticks. cbn [fold_left fst snd]. rewrite Et.
    fold (ticks pm l (set_stuckTicks (stuckTicks st + 1) st1)).
    destruct (IH (set_stuckTicks (stuckTicks st + 1) st1))
      as (F1 & F2 & F3 & F4 & F5 & F6 & F7);
      [exact E2 | exact Hall' | cbn [stuckTicks set_stuckTicks]; lia |].
    cbn [stuckTicks set_stuckTicks recovering recoveryLevel lastRecoveryTime
         emitted stats] in *.
    rewrite length_cons, Nat2Z.inj_succ.
    repeat split; try congruence; lia.
Qed.

(** X8: the suffocation monitor fires at the threshold tick and not
    before. While the bot's box overlaps a solid block, each physics tick
    adds one to the stuck-tick counter; as long as the counter stays below
    the threshold (3, 4 or 5 ticks by latency) no recovery starts, nothing
    is emitted and no detection is counted. The tick that brings the
    counter to the threshold, once the cooldown has passed, counts one
    suffocation and one recovery, emits the stuck event with the reason
    suffocation and suspends in the action of the current level, raised to
    the latency floor. *)
Theorem suffocation_fires_at_the_threshold
    (pm : PingMonitor) (l : list (Z * View)) (st : State) :
  recovering st = false ->
  Forall (fun t => suffocating (snd t)) l ->
  stuckTicks st + Z.of_nat (length l) < AdaptiveTimings.stuckTicksThreshold pm ->
  let st' := ticks pm l st in
  stuckTicks st' = stuckTicks st + Z.of_nat (length l) /\
  recovering st' = false /\
  recoveryLevel st' = recoveryLevel st /\
  emitted st' = emitted st /\
  totalRecoveries (stats st') = totalRecoveries (stats st) /\
  suffocations (stats st') = suffocations (stats st) /\
  forall now v,
    suffocating v ->
    AdaptiveTimings.stuckTicksThreshold pm <= stuckTicks st' + 1 ->
    AdaptiveTimings.recoveryCooldown pm <= now - lastRecoveryTime st ->
    let st'' := tickListener now pm v st' in
    let level := Z.max (recoveryLevel st) (AdaptiveTimings.minRecoveryLevel pm) in
    recovering st'' = true /\
    suspended st'' = Some (InAction level) /\
    recoveryLevel st'' = level /\
    emitted st'' = emitted st ++ [SafetyStuck level "suffocation"] /\
    suffocations (stats st'') = suffocations (stats st) + 1 /\
    totalRecoveries (stats st'') = totalRecoveries (stats st) + 1.
Proof.
  intros Hr Hall Hlt st'.
  destruct (quiet_ticks pm l st Hr Hall Hlt) as (F1 & F2 & F3 & F4 & F5 & F6 & F7).
  fold st' in F1, F2, F3, F4, F5, F6, F7.
  repeat (split; [assumption|]).
  intros now v Hv Hthr Hcool st'' level.
  destruct (suffocating_tick now pm v st' F2 Hv)
    as (st1 & E1 & E2 & E3 & E4 & E5 & E6 & E7 & Et).
  assert (Hc : (stuckTicks st' + 1 >=? AdaptiveTimings.stuckTicksThreshold pm)
               = true) by (apply Z.geb_le; lia).
  rewrite Hc in Et. subst st''. rewrite Et.
  unfold triggerRecovery.
  cbn [recovering set_stats set_stuckTicks lastRecoveryTime].
  rewrite E2, E4, F4.
  assert (Hcd : (now - lastRecoveryTime st <? AdaptiveTimings.recoveryCooldown pm)
                = false) by (apply Z.ltb_ge; lia).
  rewrite Hcd. subst level.
  cbn [recoveryLevel set_consecutiveStucks set_stats set_lastRecoveryTime
       set_recovering set_stuckTicks].
  rewrite E3, F3.
  destruct (Z.ltb_spec (recoveryLevel st) (AdaptiveTimings.minRecoveryLevel pm))
    as [Hlow|Hhigh].
  - rewrite Z.max_r by lia. simpl. unfold push.
    rewrite E5, F5, E6, F6, E7, F7. repeat split; reflexivity.
  - rewrite Z.max_l by lia. simpl. unfold push.
    rewrite E3, F3, E5, F5, E6, F6, E7, F7. repeat split; reflexivity.
Qed.

(** Buried in stone on a calm connection: two ticks pass quietly, the
    third starts the recovery. *)
Lemma suffocation_fires_at_the_threshold_witness :
  let v := Samples.standing (mkQVec3 (1 # 2) 64 (1 # 2)) Samples.stoneWorld in
  let st' := ticks Samples.calm [(100050, v); (100100, v)] initial in
  stuckTicks st' = 2 /\ recovering st' = false /\
  suspended (tickListener 100150 Samples.calm v st') = Some (InAction 0).
Proof.
  intros v st'.
  assert (Hv : suffocating v) by (vm_compute; discriminate).
  destruct (suffocation_fires_at_the_threshold Samples.calm
              [(100050, v); (100100, v)] initial eq_refl
              ltac:(repeat constructor; exact Hv)
              ltac:(vm_compute; reflexivity))
    as (H1 & H2 & _ & _ & _ & _ & Hfire).
  split; [exact H1|]. split; [exact H2|].
  destruct (Hfire 100150 v Hv ltac:(vm_compute; discriminate)
              ltac:(vm_compute; discriminate)) as (_ & Hs & _).
  exact Hs.
Defined.

End Suffocation.


(** ** One turn of the recovery ladder *)

Section Ladder.

Import AntiStuck MonitorShape.

Lemma isEmergency_top (level : Z) :
  0 <= level <= 5 -> isEmergency level = (level =? 5).
Proof.
  intro H.
  assert (E : level = 0 \/ level = 1 \/ level = 2 \/ level = 3 \/ level = 4
              \/ level = 5) by lia.
  destruct E as [->|[->|[->|[->|[->| ->]]]]]; reflexivity.
Qed.

Lemma triggerRecovery_fires reason now pm st :
  recovering st = false ->
  AdaptiveTimings.recoveryCooldown pm <= now - lastRecoveryTime st ->
  let level := Z.max (recoveryLevel st) (AdaptiveTimings.minRecoveryLevel pm) in
  triggerRecovery reason now pm st =
  set_suspended (Some (InAction level))
    (set_emitted (push (emitted st) (SafetyStuck level reason))
       (set_recoveryLevel level
          (set_consecutiveStucks (consecutiveStucks st + 1)
             (set_stats (count_recovery (stats st))
                (set_lastRecoveryTime now (set_recovering true st)))))).
Proof.
  intros Hr Hc level. unfold triggerRecovery. rewrite Hr.
  assert (Hcd : (now - lastRecoveryTime st <? AdaptiveTimings.recoveryCooldown pm)
                = false) by (apply Z.ltb_ge; lia).
  rewrite Hcd. subst level.
  cbn [recoveryLevel set_consecutiveStucks set_stats set_lastRecoveryTime
       set_recovering].
  destruct (Z.ltb_spec (recoveryLevel st) (AdaptiveTimings.minRecoveryLevel pm)).
  - rewrite Z.max_r by lia. reflexivity.
  - rewrite Z.max_l by lia. reflexivity.
Qed.

(** X9: one full recovery moves the ladder by one rung. A trigger that
    passes its guards dispatches the action of the current level, raised
    to the latency floor, and after the 300 ms re-check the in-recovery
    flag is down again. Below the top level the level goes up by one when
    the bot is still stuck and down by one (not below 0) when it is free,
    and only then is the unstuck event emitted. The emergency level resets
    the ladder, so that it ends at 1 when still stuck and at 0 when free;
    without an entity it leaves the level alone, which then ends at 5 or 4.
    An action that throws raises the level by one, capped at 5. *)
Theorem recovery_cycle_moves_one_rung
    (reason : string) (now : Z) (pm : PingMonitor) (st : State)
    (vs : Views) (v : View) :
  recovering st = false ->
  AdaptiveTimings.recoveryCooldown pm <= now - lastRecoveryTime st ->
  0 <= recoveryLevel st <= MAX_RECOVERY_LEVEL ->
  let level := Z.max (recoveryLevel st) (AdaptiveTimings.minRecoveryLevel pm) in
  let st1 := triggerRecovery reason now pm st in
  let st3 := run [EvActionDone vs; EvRecheck v] st1 in
  let stillStuck := negb (isEmpty (getOverlappingBlocks v))
                    || negb (isEmpty (getBlockingBlocks v)) in
  trace [EvActionDone vs; EvRecheck v] st1 = dispatch level vs /\
  recovering st3 = false /\ suspended st3 = None /\
  emitted st3 = emitted st ++ SafetyStuck level reason
                             :: (if stillStuck then [] else [SafetyUnstuck]) /\
  (level < 5 ->
   recoveryLevel st3 = if stillStuck then level + 1 else Z.max 0 (level - 1)) /\
  (level = 5 -> entity (v0 vs) <> None ->
   recoveryLevel st3 = (if stillStuck then 1 else 0) /\
   consecutiveStucks st3 = 0) /\
  (level = 5 -> entity (v0 vs) = None ->
   recoveryLevel st3 = if stillStuck then 5 else 4) /\
  recoveryLevel (step st1 EvActionThrows) = Z.min (level + 1) 5 /\
  recovering (step st1 EvActionThrows) = false.
Proof.
  intros Hr Hc Hl level st1 st3 stillStuck.
  assert (Hlevel : 0 <= level <= 5).
  { subst level. unfold MAX_RECOVERY_LEVEL in Hl.
    pose proof (minRecoveryLevel_range pm). lia. }
  assert (E1 : st1 = _) by (exact (triggerRecovery_fires reason now pm st Hr Hc)).
  cbv zeta in E1. fold level in E1.
  subst st3. unfold run, trace. cbn [fold_left step actionsOf].
  unfold triggerRecovery_action.
  rewrite E1. cbn [suspended set_suspended].
  rewrite (isEmergency_top level Hlevel).
  unfold triggerRecovery_recheck, triggerRecovery_catch.
  cbn [fst snd suspended set_suspended]. fold stillStuck.
  rewrite app_nil_r.
  split; [reflexivity|].
  destruct (Z.eqb_spec level 5) as [E5|N5].
  - destruct (entity (v0 vs)) as [ent|] eqn:Eent;
      destruct stillStuck; simpl; unfold push, MAX_RECOVERY_LEVEL;
      rewrite ?E5, <- ?app_assoc; simpl;
      repeat match goal with |- _ /\ _ => split end;
      try reflexivity; try (intros; lia); try congruence;
      try (intros; split; reflexivity).
  - destruct stillStuck; simpl; unfold push, MAX_RECOVERY_LEVEL;
      rewrite <- ?app_assoc; simpl;
      repeat match goal with |- _ /\ _ => split end;
      try reflexivity; try (intros; lia).
Qed.

(** From the top of the ladder: the emergency action resets the level,
    and a bot that is still buried ends the turn at level 1. *)
Lemma recovery_cycle_moves_one_rung_witness :
  let v := Samples.standing (mkQVec3 (1 # 2) 64 (1 # 2)) Samples.stoneWorld in
  let st1 := triggerRecovery "stall" 100000 Samples.calm
               (set_recoveryLevel 5 initial) in
  recoveryLevel (run [EvActionDone (mkViews v v v); EvRecheck v] st1) = 1.
Proof.
  intros v st1.
  destruct (recovery_cycle_moves_one_rung "stall" 100000 Samples.calm
              (set_recoveryLevel 5 initial) (mkViews v v v) v eq_refl
              ltac:(vm_compute; discriminate)
              ltac:(vm_compute; split; discriminate))
    as (_ & _ & _ & _ & _ & H5 & _).
  destruct (H5 eq_refl ltac:(discriminate)) as [H _].
  exact H.
Defined.

End Ladder.


(** ** Loop detection *)

Section Loops.

Import AntiStuck MonitorShape.

Lemma returns_le_outside (current : QVec3) (l : list (QVec3 * Z)) :
  forall (r : Z) (ln : bool),
    let res :=
      fold_left
        (fun (acc : Z * bool) (entry : QVec3 * Z) =>
           let (returns, lastWasNear) := acc in
           let near := Qltb (dist2 (fst entry) current) ((25 # 10) * (25 # 10)) in
           ((if near && negb lastWasNear then returns + 1 else returns),
            near))
        l (r, ln) in
    fst res + (if snd res then 0 else 1)
    <= r + (if ln then 0 else 1)
       + Z.of_nat (length (filter (outside current) l)).
Proof.
  induction l as [|entry l IH]; intros r ln.
  - simpl. lia.
  - cbn [fold_left filter]. cbv zeta.
    specialize (IH (if Qltb (dist2 (fst entry) current) ((25 # 10) * (25 # 10))
                       && negb ln then r + 1 else r)
                   (Qltb (dist2 (fst entry) current) ((25 # 10) * (25 # 10)))).
    cbv zeta in IH. unfold outside at 1.
    destruct (Qltb (dist2 (fst entry) current) ((25 # 10) * (25 # 10)));
      destruct ln; cbn [andb negb] in *;
      rewrite ?length_cons, ?Nat2Z.inj_succ; lia.
Qed.

(** X10: loop detection needs a long enough history and four excursions.
    With fewer than 15 recorded positions, or with fewer than 4 of them
    outside the 2.5-block radius around the newest one, the check leaves
    the monitor as it was. Whenever it does clear the history, it has
    counted one loop, and at least 15 positions were recorded of which at
    least 4 lay outside the radius. *)
Theorem loop_needs_four_excursions
    (now : Z) (pm : PingMonitor) (st : State) (current : QVec3) (t : Z) :
  lastOf (posHistory st) = Some (current, t) ->
  let far := length (filter (outside current) (posHistory st)) in
  let st' := checkForLoop now pm st in
  ((far < 4)%nat \/ (length (posHistory st) < 15)%nat -> st' = st) /\
  (st' = st \/
   (posHistory st' = [] /\ loops (stats st') = loops (stats st) + 1 /\
    (4 <= far)%nat /\ (15 <= length (posHistory st))%nat)).
Proof.
  intros Hlast far st'. subst st'. unfold checkForLoop.
  destruct (Nat.ltb_spec (2 * length (posHistory st)) POSITION_HISTORY_SIZE)
    as [Hshort|Hlong].
  - split; [reflexivity | left; reflexivity].
  - unfold POSITION_HISTORY_SIZE in Hlong. rewrite Hlast.
    pose proof (returns_le_outside current (posHistory st) 0 true) as Hret.
    cbv zeta in Hret. fold far in Hret.
    match goal with
    | |- context [fst ?c >=? LOOP_COUNT] =>
        destruct (Z.geb_spec (fst c) LOOP_COUNT) as [Hge|Hlt]
    end.
    + unfold LOOP_COUNT in Hge.
      assert (Hfar : (4 <= far)%nat).
      { match type of Hret with
        | _ + (if ?b then _ else _) <= _ => destruct b
        end; lia. }
      split; [intros [H|H]; lia|].
      right. unfold triggerRecovery.
      repeat match goal with
             | |- context [if ?c then _ else _] => destruct c
             end; simpl; repeat split; try reflexivity; lia.
    + split; [reflexivity | left; reflexivity].
Qed.

(** Fifteen recorded positions, all at the same spot: no loop. *)
Lemma loop_needs_four_excursions_witness :
  let st := set_posHistory
              (map (fun i => (mkQVec3 0 64 0, 1000 * i)) (PlannerShape.ups 15 0))
              initial in
  checkForLoop 20000 Samples.calm st = st.
Proof.
  intro st.
  destruct (loop_needs_four_excursions 20000 Samples.calm st
              (mkQVec3 0 64 0) 14000 eq_refl) as [H _].
  apply H. left. vm_compute. lia.
Defined.

(** Four excursions of three blocks and back: the loop is counted and
    starts a recovery. *)
Example pacing_bot_is_caught :
  let there := mkQVec3 3 64 0 in
  let here := mkQVec3 0 64 0 in
  let path := [here; there; here; there; here; there; here; there;
               here; here; here; here; here; here; here] in
  let st := set_posHistory (map (fun p => (p, 0)) path) initial in
  let st' := checkForLoop 20000 Samples.calm st in
  loops (stats st') = 1 /\ posHistory st' = [] /\
  suspended st' = Some (InAction 0).
Proof. vm_compute. repeat split. Qed.

End Loops.


(** ** The navigator's stall kick *)

Section StallKick.

Import Navigator NavigatorShape.

Lemma stalled_check canClear pm p c m :
  isDone c = false -> stuckChecker c = true ->
  stalledAt (lastPos c) p -> stuckMs c = 500 * m -> 0 <= m < 4 ->
  let c1 := step c (EvStuckCheck (Some p) canClear pm) in
  isDone c1 = false /\ stuckChecker c1 = true /\ lastPos c1 = lastPos c /\
  settled c1 = settled c /\ solver c1 = solver c /\
  (m < 3 ->
   stuckMs c1 = 500 * (m + 1) /\ jumpReleases c1 = jumpReleases c /\
   clearRequests c1 = clearRequests c /\ controls c1 = controls c) /\
  (m = 3 ->
   stuckMs c1 = 0 /\ jumpReleases c1 = S (jumpReleases c) /\
   clearRequests c1 = (if canClear then S (clearRequests c)
                       else clearRequests c) /\
   controls c1 = setControlState jump true (controls c)).
Proof.
  intros Hd Hs Hst Hm Hr. cbn [step]. rewrite Hs.
  unfold stuckCheck, AdaptiveTimings.stuckCheckInterval.
  rewrite Hd. unfold stalledAt in Hst. rewrite Hst. rewrite Hm.
  destruct (Z.geb_spec (500 * m + 500) 2000) as [Hge|Hlt];
    cbn [isDone stuckChecker lastPos settled solver stuckMs jumpReleases
         clearRequests controls];
    (split; [first [assumption | reflexivity]|];
     split; [first [assumption | reflexivity]|]; split; [reflexivity|];
     split; [reflexivity|]; split; [reflexivity|];
     split; intro Hx; try (exfalso; lia);
     repeat split; try reflexivity; lia).
Qed.

Lemma stalled_checks canClear pm (ps : list QVec3) :
  forall c m,
    isDone c = false -> stuckChecker c = true ->
    stuckMs c = 500 * m -> 0 <= m < 4 ->
    Forall (stalledAt (lastPos c)) ps ->
    let n := Z.of_nat (length ps) in
    let c' := stuckChecks canClear pm ps c in
    stuckMs c' = 500 * ((m + n) mod 4) /\
    Z.of_nat (jumpReleases c') = Z.of_nat (jumpReleases c) + (m + n) / 4 /\
    Z.of_nat (clearRequests c')
    = Z.of_nat (clearRequests c) + (if canClear then (m + n) / 4 else 0) /\
    lastPos c' = lastPos c /\ settled c' = settled c /\
    solver c' = solver c /\ isDone c' = false /\
    forall k, controls c' k
              = if 4 <=? m + n
                then (if Control_eqb jump k then true else controls c k)
                else controls c k.
Proof.
  induction ps as [|p ps IH]; intros c m Hd Hs Hm Hr Hall n c'.
  - subst n c'. cbn [length stuckChecks fold_left Z.of_nat].
    rewrite Z.add_0_r.
    rewrite Z.mod_small, Z.div_small by lia.
    assert (E : (4 <=? m) = false) by (apply Z.leb_gt; lia). rewrite E.
    destruct canClear; repeat split; try assumption; lia.
  - inversion Hall as [|p' ps' Hp Hall']; subst.
    destruct (stalled_check canClear pm p c m Hd Hs Hp Hm Hr)
      as (D1 & S1 & L1 & T1 & V1 & Hlow & Hkick).
    set (c1 := step c (EvStuckCheck (Some p) canClear pm)) in *.
    assert (Ec' : c' = stuckChecks canClear pm ps c1) by reflexivity.
    assert (Hall1 : Forall (stalledAt (lastPos c1)) ps) by (rewrite L1; exact Hall').
    assert (En : n = Z.of_nat (length ps) + 1)
      by (subst n; rewrite length_cons, Nat2Z.inj_succ; lia).
    destruct (Z.eq_dec m 3) as [E3|N3].
    + destruct (Hkick E3) as (M1 & J1 & C1 & K1).
      destruct (IH c1 0 D1 S1 ltac:(lia) ltac:(lia) Hall1)
        as (A1 & A2 & A3 & A4 & A5 & A6 & A7 & A8).
      rewrite <- Ec' in *. rewrite Z.add_0_l in *.
      assert (Emn : m + n = Z.of_nat (length ps) + 1 * 4) by lia.
      rewrite Emn. rewrite Z.mod_add, Z.div_add by lia.
      assert (E4 : (4 <=? Z.of_nat (length ps) + 1 * 4) = true)
        by (apply Z.leb_le; lia).
      rewrite E4.
      split; [exact A1|]. split; [rewrite A2, J1; lia|].
      split; [rewrite A3, C1; destruct canClear; lia|].
      split; [congruence|]. split; [congruence|]. split; [congruence|].
      split; [exact A7|].
      intro k. rewrite A8, K1. unfold setControlState.
      destruct (4 <=? Z.of_nat (length ps)), (Control_eqb jump k); reflexivity.
    + destruct (Hlow ltac:(lia)) as (M1 & J1 & C1 & K1).
      destruct (IH c1 (m + 1) D1 S1 M1 ltac:(lia) Hall1)
        as (A1 & A2 & A3 & A4 & A5 & A6 & A7 & A8).
      rewrite <- Ec' in *.
      assert (Emn : m + 1 + Z.of_nat (length ps) = m + n) by lia.
      rewrite Emn in *.
      split; [exact A1|]. split; [rewrite A2, J1; lia|].
      split; [rewrite A3, C1; lia|].
      split; [congruence|]. split; [congruence|]. split; [congruence|].
      split; [exact A7|].
      intro k. rewrite A8, K1. reflexivity.
Qed.

(** X11: the stall kick of the timeout wrapper. While the call is pending
    and the bot stays within 0.2 blocks of where it last moved, every
    stuck check adds 500 ms to the stall time; the fourth check in a row
    presses jump, schedules one release, asks the recovery subsystem to
    clear the path if it is attached and idle, and starts counting again.
    So after n stalled checks from a fresh call there have been n / 4
    kicks and the stall time is 500 * (n mod 4); before the fourth check
    no control is touched, and no check touches any control but jump. *)
Theorem stall_kick_every_fourth_check
    (canClear : bool) (pm : PingMonitor) (ps : list QVec3) (c : Call) :
  isDone c = false -> stuckChecker c = true -> stuckMs c = 0 ->
  Forall (stalledAt (lastPos c)) ps ->
  let n := Z.of_nat (length ps) in
  let c' := stuckChecks canClear pm ps c in
  stuckMs c' = 500 * (n mod 4) /\
  Z.of_nat (jumpReleases c') = Z.of_nat (jumpReleases c) + n / 4 /\
  Z.of_nat (clearRequests c')
  = Z.of_nat (clearRequests c) + (if canClear then n / 4 else 0) /\
  lastPos c' = lastPos c /\ settled c' = settled c /\ isDone c' = false /\
  (n < 4 -> forall k, controls c' k = controls c k) /\
  (4 <= n -> controls c' jump = true) /\
  (forall k, k <> jump -> controls c' k = controls c k).
Proof.
  intros Hd Hs Hm Hall n c'.
  destruct (stalled_checks canClear pm ps c 0 Hd Hs ltac:(lia) ltac:(lia) Hall)
    as (A1 & A2 & A3 & A4 & A5 & A6 & A7 & A8).
  fold n in A1, A2, A3, A8. fold c' in A1, A2, A3, A4, A5, A6, A7, A8.
  rewrite Z.add_0_l in *.
  repeat match goal with |- _ /\ _ => split end; try assumption.
  - intros Hn k. rewrite A8.
    assert (E : (4 <=? n) = false) by (apply Z.leb_gt; lia).
    now rewrite E.
  - intro Hn. rewrite A8.
    assert (E : (4 <=? n) = true) by (apply Z.leb_le; lia).
    now rewrite E.
  - intros k Hk. rewrite A8.
    destruct (4 <=? n); [|reflexivity].
    destruct k; try reflexivity. contradiction.
Qed.

(** Four checks with the bot standing still: one kick. *)
Lemma stall_kick_every_fourth_check_witness :
  let home := mkQVec3 0 64 0 in
  let c' := stuckChecks true Samples.calm [home; home; home; home]
              (gotoWithTimeout home (fun _ => false)) in
  stuckMs c' = 0 /\ jumpReleases c' = 1%nat /\ clearRequests c' = 1%nat /\
  controls c' jump = true.
Proof.
  intros home c'.
  destruct (stall_kick_every_fourth_check true Samples.calm
              [home; home; home; home]
              (gotoWithTimeout home (fun _ => false))
              eq_refl eq_refl eq_refl
              ltac:(repeat constructor))
    as (A1 & A2 & A3 & _ & _ & _ & _ & A8 & _).
  fold c' in A1, A2, A3, A8.
  split; [exact A1|].
  split; [apply Nat2Z.inj; exact A2|].
  split; [apply Nat2Z.inj; exact A3|].
  apply A8. vm_compute. discriminate.
Defined.

End StallKick.


(** ** Travelling to the base *)

Section Travel.

Import MiningEngine BaseTravel.

(** While the engine travels, pausing and resuming do nothing; only a
    stop changes it, and nothing brings it back. *)
Lemma await_while_traveling (during : list Command) :
  forall e,
    (status e = Traveling \/ (status e = Idle /\ error e = None)) ->
    (In CmdStop during \/ status e = Idle ->
     status (await during e) = Idle /\ error (await during e) = None) /\
    (~ In CmdStop during -> status e = Traveling ->
     status (await during e) = Traveling /\
     error (await during e) = error e /\
     stateFile (await during e) = stateFile e /\
     effects (await during e) = effects e).
Proof.
  induction during as [|c during IH]; intros e He.
  - simpl. split.
    + intros [[]|Hi]. destruct He as [Ht|[_ Hn]]; [congruence | auto].
    + auto.
  - cbn [await fold_left]. fold (await during (command e c)).
    destruct c.
    + (* pause *)
      assert (Ec : command e CmdPause = e).
      { cbn [command]. unfold pause.
        destruct He as [Ht|[Hi _]]; [rewrite Ht | rewrite Hi]; reflexivity. }
      rewrite Ec. destruct (IH e He) as [IH1 IH2]. split.
      * intros [[Hd|Hin]|Hi]; [discriminate | apply IH1; auto | apply IH1; auto].
      * intros Hn Ht. apply IH2; [|assumption]. intro Hin. apply Hn. now right.
    + (* resume *)
      assert (Ec : command e CmdResume = e).
      { cbn [command]. unfold resume.
        destruct He as [Ht|[Hi _]]; [rewrite Ht | rewrite Hi]; reflexivity. }
      rewrite Ec. destruct (IH e He) as [IH1 IH2]. split.
      * intros [[Hd|Hin]|Hi]; [discriminate | apply IH1; auto | apply IH1; auto].
      * intros Hn Ht. apply IH2; [|assumption]. intro Hin. apply Hn. now right.
    + (* stop *)
      destruct (IH (command e CmdStop)) as [IH1 _].
      { right. split; reflexivity. }
      split.
      * intros _. apply IH1. right. reflexivity.
      * intros Hn. exfalso. apply Hn. now left.
Qed.

(** X12: travelling to the base, for an engine with no mining run in
    flight (status idle, finished or error) and with only pause, resume
    and stop calls arriving while the navigation is awaited. The call
    configures the navigator for travel and makes one navigation call, to
    the base column when no height is given and to within 2 blocks of the
    base otherwise. It returns, never in the status travelling: it ends in
    error exactly when the navigation failed and no stop arrived
    meanwhile, with the navigator's message after the prefix; otherwise it
    ends idle with no error text. The mined counter is untouched, and the
    last thing it does is to disable the recovery subsystem. The call is
    refused, with the engine untouched, when no base is configured and
    when the engine is mining or already travelling; a paused engine is
    not refused. *)
Theorem goToBase_ends_idle_or_error
    (base : BaseLocation) (during : list Command) (nav : NavResult)
    (e : Engine) :
  status e = Idle \/ status e = Finished \/ status e = Error ->
  (exists e',
      goToBase (Some base) during nav e
      = Ret [ConfigureForTravel;
             match base_y base with
             | None => GoToXZ (base_x base) (base_z base)
             | Some y => GoTo (base_x base) y (base_z base) 2
             end] e' /\
      (status e' = Idle \/ status e' = Error) /\
      (status e' = Error <->
       (exists msg, nav = NavFailed msg) /\ ~ In CmdStop during) /\
      (status e' = Idle -> error e' = None) /\
      (forall msg, nav = NavFailed msg -> status e' = Error ->
                   error e' = Some ("Navigation error: " ++ msg)%string) /\
      minedBlocks e' = minedBlocks e /\
      exists before, effects e' = before ++ [AntiStuckDisable]) /\
  goToBase None during nav e = Throw "Base coordinates not set in .env" e /\
  (forall busy,
      status busy = Mining \/ status busy = Traveling ->
      goToBase (Some base) during nav busy = Throw "Bot is busy" busy) /\
  (forall paused msg e',
      status paused = Paused ->
      goToBase (Some base) during nav paused <> Throw msg e').
Proof.
  intro Hst. split; [|split; [reflexivity|split]].
  - unfold goToBase.
    assert (Eg : status_eqb (status e) Mining || status_eqb (status e) Traveling
                 = false)
      by (destruct Hst as [->|[->| ->]]; reflexivity).
    rewrite Eg.
    set (e0 := effect AntiStuckEnable _).
    assert (H0 : status e0 = Traveling) by reflexivity.
    assert (M0 : minedBlocks e0 = minedBlocks e) by reflexivity.
    pose proof (await_minedBlocks during e0) as Hm. rewrite M0 in Hm.
    destruct (await_while_traveling during e0 (or_introl H0)) as [Hstop Hgo].
    eexists. split; [reflexivity|].
    destruct (in_dec (fun a b : Command =>
                        ltac:(decide equality) : {a = b} + {a <> b})
                CmdStop during) as [Hin|Hnin].
    + destruct (Hstop (or_introl Hin)) as [Hi He].
      destruct nav as [|msg]; rewrite Hi; cbn [status_eqb negb];
        cbn [status error minedBlocks effects effect set_effects];
        rewrite ?Hi, ?He;
        (split; [left; reflexivity|]);
        (split; [split; [discriminate | intros [_ Hn]; contradiction]|]);
        (split; [reflexivity|]);
        (split; [intros; discriminate|]);
        (split; [exact Hm | eexists; reflexivity]).
    + destruct (Hgo Hnin H0) as (Ht & He & _ & _).
      destruct nav as [|msg]; rewrite Ht; cbn [status_eqb negb];
        cbn [status error minedBlocks effects effect set_effects set_status
             set_error].
      * split; [left; reflexivity|].
        split; [split; [discriminate | intros [[m Hm'] _]; discriminate]|].
        split; [reflexivity|].
        split; [intros; discriminate|].
        split; [exact Hm | eexists; reflexivity].
      * split; [right; reflexivity|].
        split; [split; [intros _; split; [eexists; reflexivity | exact Hnin]
                       | reflexivity]|].
        split; [discriminate|].
        split; [intros m Hm' _; injection Hm' as <-; reflexivity|].
        split; [exact Hm | eexists; reflexivity].
  - intros busy [Hb|Hb]; unfold goToBase; rewrite Hb; reflexivity.
  - intros paused msg e' Hp. unfold goToBase. rewrite Hp.
    cbn [status_eqb orb]. discriminate.
Qed.

(** From idle, a stop arrives on the way and the navigation then fails:
    no error is reported. *)
Lemma goToBase_ends_idle_or_error_witness :
  exists e',
    goToBase (Some (mkBase 10 None (-4))) [CmdPause; CmdStop]
             (NavFailed "Path timeout") initial
    = Ret [ConfigureForTravel; GoToXZ 10 (-4)] e' /\
    status e' = Idle /\ error e' = None.
Proof.
  destruct (goToBase_ends_idle_or_error (mkBase 10 None (-4))
              [CmdPause; CmdStop] (NavFailed "Path timeout") initial
              (or_introl eq_refl))
    as ((e' & Hr & Hs & Herr & Hidle & _) & _).
  exists e'. split; [exact Hr|].
  destruct Hs as [Hs|Hs].
  - split; [exact Hs | exact (Hidle Hs)].
  - exfalso. apply Herr in Hs. destruct Hs as [_ Hn].
    apply Hn. right. left. reflexivity.
Defined.

(** Without a stop the failure is reported, with the prefix. *)
Example goToBase_reports_the_failure :
  goToBase (Some (mkBase 10 (Some 70) (-4))) [CmdPause]
           (NavFailed "Path timeout") initial
  = Ret [ConfigureForTravel; GoTo 10 70 (-4) 2]
        (mkEngine Error None 0 0 None
                  (Some "Navigation error: Path timeout"%string) None
                  [AntiStuckEnable; AntiStuckDisable]).
Proof. reflexivity. Qed.

End Travel.


(** ** What the engine digs *)

Section EngineDigs.

Import MiningEngine EngineShape.

Lemma dm_effect f e : minable f -> digsMinable e -> digsMinable (effect f e).
Proof.
  unfold digsMinable, effect. cbn [effects set_effects]. intros Hf He.
  apply Forall_app. split; [exact He | constructor; [exact Hf | constructor]].
Qed.

Lemma dm_set_status v e : digsMinable e -> digsMinable (set_status v e).
Proof. exact (fun H => H). Qed.

Lemma dm_set_error v e : digsMinable e -> digsMinable (set_error v e).
Proof. exact (fun H => H). Qed.

Lemma dm_set_currentTool v e : digsMinable e -> digsMinable (set_currentTool v e).
Proof. exact (fun H => H). Qed.

Lemma dm_set_minedBlocks v e : digsMinable e -> digsMinable (set_minedBlocks v e).
Proof. exact (fun H => H). Qed.

Lemma dm_set_totalBlocks v e : digsMinable e -> digsMinable (set_totalBlocks v e).
Proof. exact (fun H => H). Qed.

Lemma dm_set_area v e : digsMinable e -> digsMinable (set_area v e).
Proof. exact (fun H => H). Qed.

Lemma dm_set_stateFile v e : digsMinable e -> digsMinable (set_stateFile v e).
Proof. exact (fun H => H). Qed.

Lemma dm_emit ev e : digsMinable e -> digsMinable (emit ev e).
Proof. intro H. apply dm_effect; [exact I | exact H]. Qed.

Lemma dm_save a n e : digsMinable e -> digsMinable (save a n e).
Proof. intro H. unfold save. apply dm_effect; [exact I | exact H]. Qed.

Lemma dm_clear e : digsMinable e -> digsMinable (clear e).
Proof. intro H. unfold clear. apply dm_effect; [exact I | exact H]. Qed.

Lemma dm_command e c : digsMinable e -> digsMinable (command e c).
Proof.
  intro H. destruct c; cbn [command]; unfold pause, resume, stop.
  - destruct (status_eqb _ _); [|exact H].
    apply dm_emit. cbn [area set_status]. destruct (area e); [apply dm_save|]; exact H.
  - destruct (status_eqb _ _); [|exact H]. apply dm_emit. exact H.
  - apply dm_clear. repeat (apply dm_effect; [exact I|]). exact H.
Qed.

Lemma dm_await (during : list Command) :
  forall e, digsMinable e -> digsMinable (await during e).
Proof.
  unfold await. induction during as [|c during IH]; intros e H; simpl.
  - exact H.
  - apply IH. now apply dm_command.
Qed.

Ltac dm :=
  repeat first
    [ assumption
    | apply dm_await
    | apply dm_set_status | apply dm_set_error | apply dm_set_currentTool
    | apply dm_set_minedBlocks | apply dm_set_totalBlocks | apply dm_set_area
    | apply dm_set_stateFile
    | apply dm_emit | apply dm_save | apply dm_clear
    | apply dm_effect; [first [exact I | assumption]|] ].

Lemma dm_awaitCapacity (w : list (list Command * bool)) :
  forall e e', digsMinable e -> awaitCapacity w e = Some e' -> digsMinable e'.
Proof.
  induction w as [|[during full] w IH]; intros e e' He H; simpl in H.
  - destruct (status_eqb _ _); [discriminate | now inversion H; subst].
  - destruct (status_eqb _ _); [|now inversion H; subst].
    destruct full; simpl in H.
    + eapply IH; [|exact H]. dm.
    + inversion H; subst. dm.
Qed.

Lemma dm_checkInventory area o e e' go :
  digsMinable e -> checkInventory area o e = Some (e', go) -> digsMinable e'.
Proof.
  unfold checkInventory. intros He H.
  destruct (isFull o); [|now inversion H; subst].
  destruct (freed o); simpl in H.
  - inversion H; subst. dm.
  - destruct (awaitCapacity _ _) as [e1|] eqn:Hw; [|discriminate].
    inversion H; subst. eapply dm_awaitCapacity; [|exact Hw]. dm.
Qed.

Lemma dm_lookAndDig target o e :
  ToolSelector.shouldMine target = true ->
  digsMinable e -> digsMinable (fst (lookAndDig target o e)).
Proof.
  intros Ht He. unfold lookAndDig.
  assert (Hd : minable (BotDig target)) by exact Ht.
  destruct (negb (lookAt_ok o)); [cbn [fst]; dm|].
  destruct (negb (reachable_after o)); [cbn [fst]; dm|].
  destruct (dig o); cbn [fst]; dm.
Qed.

Lemma dm_attempt pos area o e e' :
  digsMinable e -> engineOf (attempt pos area o e) = Some e' -> digsMinable e'.
Proof.
  unfold attempt. intros He H.
  destruct (status_eqb (status e) Idle); [now inversion H; subst|].
  destruct (negb (worthMining (block o))).
  { inversion H; subst. dm. }
  destruct (checkInventory _ _ _) as [[e1 go]|] eqn:Hinv; [|discriminate].
  apply dm_checkInventory in Hinv; [|dm].
  destruct go; [|now inversion H; subst].
  destruct (entity_missing o); [now inversion H; subst|].
  set (e2 := if out_of_reach o then _ else e1) in H.
  assert (H2 : digsMinable e2).
  { subst e2. destruct (out_of_reach o); dm. }
  clearbody e2.
  destruct (targetBlock o) as [target|]; [|now inversion H; subst].
  destruct (ToolSelector.shouldMine target) eqn:Hsm; cbn [negb] in H;
    [|now inversion H; subst].
  match type of H with
  | context [lookAndDig target o ?e3] =>
      assert (H3 : digsMinable (fst (lookAndDig target o e3)))
        by (apply dm_lookAndDig; [exact Hsm | dm]);
      destruct (lookAndDig target o e3) as [e4 ok]
  end.
  cbn [fst] in H3.
  destruct ok.
  - destruct (PositionConfirmer.waitAfterDig _ _ _) as [confirmed ticks].
    inversion H; subst. dm.
  - inversion H; subst. dm.
Qed.

Lemma dm_mineBlock_loop pos area obs (left : nat) :
  forall attempts e e',
    digsMinable e ->
    endOf (mineBlock_loop left attempts pos area obs e) = Some e' ->
    digsMinable e'.
Proof.
  induction left as [|left IH]; intros attempts e e' He H; simpl in H.
  - now inversion H; subst.
  - destruct (attempt pos area (obs attempts) e) as [h e1|e1|m e1|] eqn:Ha;
      try discriminate.
    + inversion H; subst. eapply dm_attempt; [exact He | rewrite Ha; reflexivity].
    + eapply IH; [|exact H].
      eapply dm_attempt; [exact He | rewrite Ha; reflexivity].
    + inversion H; subst. eapply dm_attempt; [exact He | rewrite Ha; reflexivity].
Qed.

Lemma dm_awaitConnection (w : list (list Command * PingMonitor)) :
  forall pm e e',
    digsMinable e -> awaitConnection pm w e = Some e' -> digsMinable e'.
Proof.
  induction w as [|[during pm'] w IH]; intros pm e e' He H; simpl in H.
  - destruct (_ && _); [discriminate | now inversion H; subst].
  - destruct (_ && _); [|now inversion H; subst].
    eapply IH; [|exact H]. dm.
Qed.

Lemma dm_autoPause o e e' :
  digsMinable e -> autoPause o e = Some e' -> digsMinable e'.
Proof.
  unfold autoPause. intros He H.
  destruct (_ && _); [|now inversion H; subst].
  destruct (awaitConnection _ _ _) as [e1|] eqn:Hw; [|discriminate].
  inversion H; subst.
  apply dm_awaitConnection in Hw; [|unfold autoPause_enter; dm].
  unfold autoPause_leave. destruct (status_eqb _ _); dm.
Qed.

Lemma dm_awaitHealing cfg (w : list (list Command * list Command * Q)) :
  forall h e e' b,
    digsMinable e -> awaitHealing cfg h w e = Some (e', b) -> digsMinable e'.
Proof.
  induction w as [|[[d1 d2] h'] w IH]; intros h e e' b He H; simpl in H.
  - destruct (Qltb _ _); [discriminate | now inversion H; subst].
  - destruct (Qltb _ _); [|now inversion H; subst].
    destruct (status_eqb _ _).
    + inversion H; subst. dm.
    + eapply IH; [|exact H]. dm.
Qed.

Lemma dm_healthCheck cfg o e e' b :
  digsMinable e -> healthCheck cfg o e = Some (e', b) -> digsMinable e'.
Proof.
  unfold healthCheck. intros He H.
  destruct (Qltb _ _); [|now inversion H; subst].
  destruct (awaitHealing _ _ _ _) as [[e1 [|]]|] eqn:Hw; try discriminate;
    inversion H; subst; apply dm_awaitHealing in Hw; dm.
Qed.

Lemma dm_awaitResume (w : list (list Command)) :
  forall e e' b,
    digsMinable e -> awaitResume w e = Some (e', b) -> digsMinable e'.
Proof.
  induction w as [|during w IH]; intros e e' b He H; simpl in H.
  - destruct (status_eqb _ _); [discriminate | now inversion H; subst].
  - destruct (status_eqb (status e) Paused); [|now inversion H; subst].
    destruct (status_eqb _ _).
    + inversion H; subst. dm.
    + eapply IH; [|exact H]. dm.
Qed.

Lemma dm_prelude cfg area i o e e' :
  digsMinable e -> endOf (prelude cfg area i o e) = Some e' -> digsMinable e'.
Proof.
  unfold prelude. intros He H.
  destruct (status_eqb _ _); [now inversion H; subst|].
  set (e1 := if Z.rem i 50 =? 0 then _ else e) in H.
  assert (H1 : digsMinable e1) by (subst e1; destruct (_ =? _); dm).
  clearbody e1.
  destruct (autoPause o e1) as [e2|] eqn:Ha; [|discriminate].
  apply dm_autoPause in Ha; [|assumption].
  destruct (healthCheck cfg o e2) as [[e3 [|]]|] eqn:Hh; try discriminate;
    apply dm_healthCheck in Hh; try assumption.
  - now inversion H; subst.
  - destruct (awaitResume _ _) as [[e4 [|]]|] eqn:Hr; try discriminate;
      apply dm_awaitResume in Hr; try assumption;
      inversion H; subst; dm.
Qed.

Lemma dm_advance i o e : digsMinable e -> digsMinable (advance i o e).
Proof.
  intro He. unfold advance. destruct (_ >? _); dm.
Qed.

Lemma dm_iteration cfg positions area i o e e' :
  digsMinable e ->
  endOf (iteration cfg positions area i o e) = Some e' -> digsMinable e'.
Proof.
  unfold iteration. intros He H.
  destruct (prelude cfg area i o e) as [[|] e1|m e1|] eqn:Hp; try discriminate;
    pose proof (dm_prelude cfg area i o e e1 He) as H1; rewrite Hp in H1;
    specialize (H1 eq_refl).
  - destruct (positionAt positions i) as [pos|]; [|now inversion H; subst].
    unfold mineBlock in H.
    destruct (mineBlock_loop _ _ _ _ _ _) as [r e2|m e2|] eqn:Hm;
      try discriminate;
      pose proof (dm_mineBlock_loop pos area (attempts o)
                    (Z.to_nat (maxAttempts - 0)) 0%nat e1 e2 H1) as H2;
      rewrite Hm in H2; specialize (H2 eq_refl);
      inversion H; subst; [now apply dm_advance | assumption].
  - now inversion H; subst.
  - now inversion H; subst.
Qed.

Lemma dm_mineArea_loop cfg positions area obs (n : nat) :
  forall i e e',
    digsMinable e ->
    endOf (mineArea_loop n i cfg positions area obs e) = Some e' ->
    digsMinable e'.
Proof.
  induction n as [|n IH]; intros i e e' He H; simpl in H.
  - now inversion H; subst.
  - destruct (iteration cfg positions area i (obs i) e) as [[|] e1|m e1|] eqn:Hi;
      try discriminate;
      pose proof (dm_iteration cfg positions area i (obs i) e e1 He) as H1;
      rewrite Hi in H1; specialize (H1 eq_refl).
    + eapply IH; [exact H1 | exact H].
    + now inversion H; subst.
    + now inversion H; subst.
Qed.

(** X13: the engine digs only what the tool selector lets through. If
    every dig so far was of a block that passes [shouldMine], the same
    holds when [start] (and so [resumeIfNeeded]) ends, however it ends and
    whatever pause, resume and stop calls arrive on the way: air, liquids
    and bedrock are never handed to [bot.dig]. *)
Theorem engine_digs_only_minable_blocks
    (cfg : AppConfig) (area : Area) (startIndex : Z) (obs : Z -> IterObs)
    (e e' : Engine) :
  digsMinable e ->
  (endOf (start cfg area startIndex obs e) = Some e' -> digsMinable e') /\
  (endOf (resumeIfNeeded cfg obs e) = Some e' -> digsMinable e').
Proof.
  intro He.
  assert (Hstart : forall a i e0 e1,
             digsMinable e0 ->
             endOf (start cfg a i obs e0) = Some e1 -> digsMinable e1).
  { intros a i e0 e1 H0 H. unfold start in H.
    destruct (_ && _); [now inversion H; subst|].
    unfold mineArea in H.
    match type of H with
    | context [mineArea_loop ?n ?j cfg ?ps ?ar obs ?e2] =>
        assert (H2 : digsMinable e2) by dm;
        pose proof (dm_mineArea_loop cfg ps ar obs n j e2) as Hl;
        destruct (mineArea_loop n j cfg ps ar obs e2) as [u e3|m e3|] eqn:Hm
    end; try discriminate; specialize (Hl e3 H2 eq_refl);
      cbn [start_settle endOf] in H; inversion H; subst;
      destruct (status_eqb (status e3) _); cbn [negb]; dm. }
  split.
  - apply Hstart. exact He.
  - unfold resumeIfNeeded. destruct (stateFile e) as [saved|].
    + apply Hstart. exact He.
    + intro H. now inversion H; subst.
Qed.

(** A run over bedrock: every target is skipped and nothing is dug. *)
Lemma engine_digs_only_minable_blocks_witness :
  let bedrock := fun p => mkBlock "bedrock" "block" p in
  let o := fun p => mkAttemptObs [] (Some (bedrock p)) false [] true [] false
                      false [] (Some (bedrock p)) [] "Hand" [] true true []
                      DigResolved Samples.calm (fun _ => Samples.bedrockWorld)
                      [] [] in
  exists e',
    endOf (start Samples.cfg (mkArea (mkVec3 0 0 0) (mkVec3 1 0 1)) 0
             (fun _ => Samples.quiet (fun _ => o (mkVec3 0 0 0))) initial)
    = Some e' /\
    digsMinable e' /\ digs e' = 0%nat /\ status e' = Finished.
Proof.
  intros bedrock o. eexists. split; [vm_compute; reflexivity|]. split.
  - apply (proj1 (engine_digs_only_minable_blocks Samples.cfg
                    (mkArea (mkVec3 0 0 0) (mkVec3 1 0 1)) 0
                    (fun _ => Samples.quiet (fun _ => o (mkVec3 0 0 0)))
                    initial _ (Forall_nil _))).
    vm_compute. reflexivity.
  - split; reflexivity.
Defined.

End EngineDigs.


(** ** An undisturbed run *)

Section CleanRun.

Import MiningEngine EngineShape.

Lemma skipn_nth_error {A : Type} (l : list A) :
  forall n a, nth_error l n = Some a -> skipn n l = a :: skipn (S n) l.
Proof.
  induction l as [|b l IH]; intros [|n] a H; simpl in *; try discriminate.
  - now inversion H.
  - now apply IH.
Qed.

Lemma minedPositions_effect f e :
  minedPositions (effect f e) = minedPositions e ++ minedAt f.
Proof.
  unfold minedPositions, effect. cbn [effects set_effects].
  rewrite flat_map_app. simpl. now rewrite app_nil_r.
Qed.

Lemma digs_effect_count f e :
  digs (effect f e) = (digs e + if isDig f then 1 else 0)%nat.
Proof.
  unfold digs, effect. cbn [effects set_effects].
  rewrite filter_app, length_app. simpl. now destruct (isDig f).
Qed.

Lemma cleanPass_mines pos area o e :
  cleanPass o -> status e = Mining ->
  exists e',
    attempt pos area o e = Return Mined e' /\
    status e' = Mining /\ minedBlocks e' = minedBlocks e /\
    totalBlocks e' = totalBlocks e /\ error e' = error e /\
    MiningEngine.area e' = MiningEngine.area e /\
    minedPositions e' = minedPositions e ++ [pos] /\
    digs e' = S (digs e).
Proof.
  intros (H1 & H2 & H3 & H4 & H5 & H6 & H7 & H8 & H9 & H10 & H11 & H12 & H13) Hs.
  unfold attempt, checkInventory, lookAndDig.
  rewrite Hs, H1, H2, H3, H4, H5, H7, H8, H9, H10, H11, H12, H13.
  cbn [status_eqb negb await fold_left].
  destruct (targetBlock o) as [target|]; [|discriminate].
  cbn [worthMining] in H6. rewrite H6. cbn [negb].
  destruct (PositionConfirmer.waitAfterDig _ _ _) as [confirmed ticks].
  eexists. split; [reflexivity|].
  destruct (out_of_reach o); cbn [await fold_left].
  all: split; [exact Hs|].
  all: do 4 (split; [reflexivity|]).
  all: unfold minedPositions, digs, save, emit, effect;
       cbn [effects set_effects set_stateFile set_currentTool].
  all: rewrite !flat_map_app, !filter_app, !length_app; simpl;
       rewrite ?app_nil_r; split; [reflexivity | lia].
Qed.

Lemma cleanIter_step cfg positions area i o e pos :
  cleanIter o -> status e = Mining -> positionAt positions i = Some pos ->
  exists e',
    iteration cfg positions area i o e = Ret Next e' /\
    status e' = Mining /\ minedBlocks e' = i + 1 /\
    totalBlocks e' = totalBlocks e /\ error e' = error e /\
    MiningEngine.area e' = MiningEngine.area e /\
    minedPositions e' = minedPositions e ++ [pos] /\
    digs e' = S (digs e).
Proof.
  intros (H1 & H2 & H3 & H4 & H5 & H6) Hs Hpos.
  unfold iteration, prelude, autoPause, healthCheck.
  rewrite Hs, H1, H2, H3, H4, Hpos.
  cbn [status_eqb andb await fold_left].
  set (e1 := if Z.rem i 50 =? 0 then _ else e).
  assert (F1 : status e1 = Mining /\ minedBlocks e1 = minedBlocks e /\
               totalBlocks e1 = totalBlocks e /\ error e1 = error e /\
               MiningEngine.area e1 = MiningEngine.area e /\
               minedPositions e1 = minedPositions e /\ digs e1 = digs e).
  { subst e1. destruct (Z.rem i 50 =? 0).
    - split; [exact Hs|]. do 4 (split; [reflexivity|]).
      unfold minedPositions, digs, save, effect.
      cbn [effects set_effects set_stateFile].
      rewrite !flat_map_app, !filter_app, !length_app; simpl.
      rewrite ?app_nil_r. split; [reflexivity | lia].
    - repeat split; try reflexivity; exact Hs. }
  clearbody e1. destruct F1 as (S1 & M1 & T1 & R1 & A1 & P1 & D1).
  assert (Er : awaitResume (pause_wait o) e1 = Some (e1, false)).
  { destruct (pause_wait o); simpl; rewrite S1; reflexivity. }
  rewrite Er.
  set (e2 := effect EatIfNeeded e1).
  assert (F2 : status e2 = Mining /\ minedBlocks e2 = minedBlocks e /\
               totalBlocks e2 = totalBlocks e /\ error e2 = error e /\
               MiningEngine.area e2 = MiningEngine.area e /\
               minedPositions e2 = minedPositions e /\ digs e2 = digs e).
  { subst e2. rewrite minedPositions_effect, digs_effect_count. simpl.
    rewrite app_nil_r. repeat split; try assumption; lia. }
  clearbody e2. destruct F2 as (S2 & M2 & T2 & R2 & A2 & P2 & D2).
  destruct (cleanPass_mines pos area (attempts o 0%nat) e2 H5 S2)
    as (e3 & Ha & S3 & M3 & T3 & R3 & A3 & P3 & D3).
  unfold mineBlock. change (Z.to_nat (maxAttempts - 0)) with 3%nat.
  cbn [mineBlock_loop]. rewrite Ha.
  eexists. split; [reflexivity|].
  unfold advance. rewrite H6. cbn [await fold_left].
  destruct (AdaptiveTimings.interBlockDelay (pm_delay o) >? 0);
    unfold emit; rewrite ?minedPositions_effect, ?digs_effect_count;
    cbn [minedAt isDig]; rewrite ?app_nil_r;
    (split; [exact S3|]); (split; [reflexivity|]);
    (split; [cbn; congruence|]); (split; [cbn; congruence|]);
    (split; [cbn; congruence|]);
    (split; [unfold minedPositions in *; cbn [effects set_minedBlocks] in *;
             congruence|]);
    unfold digs in *; cbn [effects set_minedBlocks] in *; lia.
Qed.

Lemma cleanIters_run cfg positions area obs (n : nat) :
  forall i e,
    0 <= i -> i + Z.of_nat n = Z.of_nat (length positions) ->
    status e = Mining -> minedBlocks e = i ->
    (forall j, i <= j < Z.of_nat (length positions) -> cleanIter (obs j)) ->
    exists e',
      mineArea_loop n i cfg positions area obs e = Ret tt e' /\
      status e' = Mining /\ minedBlocks e' = Z.of_nat (length positions) /\
      totalBlocks e' = totalBlocks e /\ error e' = error e /\
      MiningEngine.area e' = MiningEngine.area e /\
      minedPositions e' = minedPositions e ++ skipn (Z.to_nat i) positions /\
      digs e' = (digs e + n)%nat.
Proof.
  induction n as [|n IH]; intros i e Hi Hlen Hs Hm Hobs.
  - exists e. simpl. split; [reflexivity|].
    rewrite skipn_all2 by lia. rewrite app_nil_r.
    repeat split; try assumption; lia.
  - assert (Hp : exists pos, positionAt positions i = Some pos).
    { unfold positionAt.
      assert (E : (i <? 0) = false) by (apply Z.ltb_ge; lia). rewrite E.
      destruct (nth_error positions (Z.to_nat i)) as [pos|] eqn:En; [eauto|].
      apply nth_error_None in En. lia. }
    destruct Hp as [pos Hp].
    destruct (cleanIter_step cfg positions area i (obs i) e pos
                (Hobs i ltac:(lia)) Hs Hp)
      as (e1 & Hit & S1 & M1 & T1 & R1 & A1 & P1 & D1).
    cbn [mineArea_loop]. rewrite Hit.
    destruct (IH (i + 1) e1 ltac:(lia) ltac:(lia) S1 M1)
      as (e' & Hl & S' & M' & T' & R' & A' & P' & D').
    { intros j Hj. apply Hobs. lia. }
    exists e'. split; [exact Hl|].
    split; [exact S'|]. split; [exact M'|].
    split; [congruence|]. split; [congruence|]. split; [congruence|].
    split; [|lia].
    rewrite P', P1, <- app_assoc. f_equal.
    unfold positionAt in Hp.
    assert (E : (i <? 0) = false) by (apply Z.ltb_ge; lia). rewrite E in Hp.
    rewrite (skipn_nth_error positions (Z.to_nat i) pos Hp).
    replace (Z.to_nat (i + 1)) with (S (Z.to_nat i)) by lia. reflexivity.
Qed.

Lemma positions_count (a : NormalizedArea) :
  x (min a) <= x (max a) -> y (min a) <= y (max a) -> z (min a) <= z (max a) ->
  Z.of_nat (length (ZigzagPlanner.generateZigzagPositions a)) = areaSize a.
Proof.
  intros Hx Hy Hz.
  rewrite generateZigzagPositions_layers, layers_length.
  unfold PlannerShape.height, PlannerShape.depth, PlannerShape.width, areaSize.
  rewrite !Nat2Z.inj_mul, !Z2Nat.id by lia. ring.
Qed.

(** X14: a run that nothing disturbs digs the whole area once, in the
    planner's order, and finishes. When, from the start index on, every
    iteration finds a good connection and good health, no command
    arrives, and the first pass at every target digs through, [start]
    returns with the status finished, the mined counter and the total both
    equal to the number of blocks of the normalized area, no error text
    and no progress file; it has issued one dig per remaining target, and
    the block-mined events it emitted list exactly the remaining targets
    of the zigzag traversal, in order. *)
Theorem undisturbed_run_finishes
    (cfg : AppConfig) (a : Area) (startIndex : Z) (obs : Z -> IterObs)
    (e : Engine) :
  let n := normalizeArea a in
  let positions := ZigzagPlanner.generateZigzagPositions n in
  0 <= startIndex <= areaSize n ->
  status e <> Mining \/ startIndex <> 0 ->
  (forall i, startIndex <= i < areaSize n -> cleanIter (obs i)) ->
  exists e',
    start cfg a startIndex obs e = Ret tt e' /\
    status e' = Finished /\
    minedBlocks e' = areaSize n /\ totalBlocks e' = areaSize n /\
    error e' = None /\ stateFile e' = None /\
    MiningEngine.area e' = Some n /\
    minedPositions e' = minedPositions e ++ skipn (Z.to_nat startIndex) positions /\
    digs e' = (digs e + Z.to_nat (areaSize n - startIndex))%nat /\
    exists before,
      effects e' = before ++ [FileClear; Emit MiningFinished; AntiStuckDisable].
Proof.
  intros n positions Hi Hfree Hobs.
  assert (Hcount : Z.of_nat (length positions) = areaSize n).
  { subst positions. apply positions_count; subst n; simpl; lia. }
  unfold start.
  assert (Eguard : status_eqb (status e) Mining && (startIndex =? 0) = false).
  { destruct Hfree as [Hs|Hz].
    - rewrite status_eqb_neq by exact Hs. reflexivity.
    - apply andb_false_iff. right. now apply Z.eqb_neq. }
  rewrite Eguard. unfold mineArea. fold n. fold positions.
  set (e0 := set_totalBlocks _ _).
  assert (F0 : status e0 = Mining /\ minedBlocks e0 = startIndex /\
               totalBlocks e0 = areaSize n /\ error e0 = None /\
               MiningEngine.area e0 = Some n /\
               minedPositions e0 = minedPositions e /\ digs e0 = digs e).
  { subst e0. split; [reflexivity|]. split; [reflexivity|].
    split; [exact Hcount|]. split; [reflexivity|]. split; [reflexivity|].
    unfold minedPositions, digs, emit, effect.
    cbn [effects set_effects set_totalBlocks set_error set_minedBlocks
         set_area set_status].
    rewrite !flat_map_app, !filter_app, !length_app; simpl.
    rewrite ?app_nil_r. split; [reflexivity | lia]. }
  clearbody e0. destruct F0 as (S0 & M0 & T0 & R0 & A0 & P0 & D0).
  destruct (cleanIters_run cfg positions n obs
              (Z.to_nat (Z.of_nat (length positions) - startIndex))
              startIndex e0 ltac:(lia) ltac:(lia) S0 M0)
    as (e1 & Hl & S1 & M1 & T1 & R1 & A1 & P1 & D1).
  { intros j Hj. apply Hobs. lia. }
  rewrite Hl. cbn [start_settle]. rewrite S1. cbn [status_eqb].
  eexists. split; [reflexivity|].
  split; [reflexivity|].
  split; [cbn; congruence|]. split; [cbn; congruence|].
  split; [cbn; congruence|]. split; [reflexivity|].
  split; [cbn; congruence|].
  unfold minedPositions, digs, emit, clear, effect in *.
  cbn [effects set_effects set_stateFile set_status] in *.
  rewrite !flat_map_app, !filter_app, !length_app; simpl.
  rewrite ?app_nil_r.
  split; [congruence|]. split; [rewrite Hcount in D1; lia|].
  exists (effects e1). rewrite <- !app_assoc. reflexivity.
Qed.

(** The 2 x 1 x 2 box, undisturbed: four digs, in zigzag order. *)
Lemma undisturbed_run_finishes_witness :
  exists e',
    start Samples.cfg (mkArea (mkVec3 1 0 1) (mkVec3 0 0 0)) 0
          (fun _ => Samples.quiet
                      (fun _ => Samples.pass (mkVec3 0 0 0) DigResolved
                                  Samples.airWorld))
          initial = Ret tt e' /\
    status e' = Finished /\
    minedPositions e'
    = [mkVec3 0 0 0; mkVec3 1 0 0; mkVec3 1 0 1; mkVec3 0 0 1].
Proof.
  destruct (undisturbed_run_finishes Samples.cfg
              (mkArea (mkVec3 1 0 1) (mkVec3 0 0 0)) 0
              (fun _ => Samples.quiet
                          (fun _ => Samples.pass (mkVec3 0 0 0) DigResolved
                                      Samples.airWorld))
              initial)
    as (e' & H1 & H2 & _ & _ & _ & _ & _ & H3 & _).
  - vm_compute. split; discriminate.
  - left. discriminate.
  - intros i _. unfold cleanIter, cleanPass. simpl.
    repeat split; reflexivity.
  - exists e'. split; [exact H1|]. split; [exact H2|]. exact H3.
Defined.

End CleanRun.


(** ** A stop that arrives inside a pass *)

Section StopInsidePass.

Import MiningEngine EngineShape.

Lemma idle_ignores (during : list Command) :
  forall e,
    status e = Idle ->
    status (await during e) = Idle /\
    (~ In CmdStop during -> await during e = e).
Proof.
  unfold await. induction during as [|c during IH]; intros e Hs; simpl.
  - auto.
  - destruct c.
    + assert (Ec : command e CmdPause = e)
        by (cbn [command]; unfold pause; now rewrite Hs).
      rewrite Ec. destruct (IH e Hs) as [I1 I2]. split; [exact I1|].
      intro Hn. apply I2. intro Hin. apply Hn. now right.
    + assert (Ec : command e CmdResume = e)
        by (cbn [command]; unfold resume; now rewrite Hs).
      rewrite Ec. destruct (IH e Hs) as [I1 I2]. split; [exact I1|].
      intro Hn. apply I2. intro Hin. apply Hn. now right.
    + destruct (IH (command e CmdStop) eq_refl) as [I1 _]. split; [exact I1|].
      intro Hn. exfalso. apply Hn. now left.
Qed.

Lemma stop_wins (during : list Command) :
  forall e, In CmdStop during -> status (await during e) = Idle.
Proof.
  induction during as [|c during IH]; intros e Hin; [contradiction|].
  change (await (c :: during) e) with (await during (command e c)).
  destruct Hin as [->|Hin].
  - apply idle_ignores. reflexivity.
  - now apply IH.
Qed.

Lemma attempt_mined_status pos area o e e' :
  attempt pos area o e = Return Mined e' ->
  In CmdStop (during_dig o) \/ In CmdStop (during_confirm o) ->
  status e' = Idle.
Proof.
  unfold attempt. intros H Hstop.
  destruct (status_eqb (status e) Idle); [discriminate|].
  destruct (negb (worthMining (block o))); [discriminate|].
  destruct (checkInventory _ _ _) as [[e1 go]|]; [|discriminate].
  destruct go; [|discriminate].
  destruct (entity_missing o); [discriminate|].
  set (e2 := if out_of_reach o then _ else e1) in H. clearbody e2.
  destruct (targetBlock o) as [target|]; [|discriminate].
  destruct (negb (ToolSelector.shouldMine target)); [discriminate|].
  unfold lookAndDig in H.
  destruct (negb (lookAt_ok o)); [discriminate|].
  destruct (negb (reachable_after o)); [discriminate|].
  destruct (dig o); try discriminate.
  destruct (PositionConfirmer.waitAfterDig _ _ _) as [confirmed ticks].
  inversion H; subst e'; clear H.
  match goal with
  | |- context [await (during_confirm o) ?e5] =>
      assert (H5 : status (await (during_confirm o) e5) = Idle)
  end.
  { destruct Hstop as [Hd|Hc].
    - apply idle_ignores.
      match goal with
      | |- context [await (during_dig o) ?e4] =>
          exact (stop_wins (during_dig o) e4 Hd)
      end.
    - now apply stop_wins. }
  exact H5.
Qed.

(** X15: a stop that arrives inside a pass does not keep the progress
    file deleted. When stop is called while a dig, or the confirmation
    after it, is awaited, and that dig resolves, the pass still runs to its
    end: the engine is idle, but the pass has written the progress file
    again, with the index of the block just dug. The target loop then
    returns at its next head without touching the file (unless another
    stop arrives during the inter-block delay), [start] leaves it in
    place, and [resumeIfNeeded] on that state starts mining again from the
    saved index. *)
Theorem stop_inside_a_pass_leaves_the_progress_file
    (pos : Vec3) (area : NormalizedArea) (o : AttemptObs) (e e' : Engine)
    (cfg : AppConfig) (positions : list Vec3) (obs : Z -> IterObs)
    (i : Z) (io : IterObs) (n : nat) :
  attempt pos area o e = Return Mined e' ->
  In CmdStop (during_dig o) \/ In CmdStop (during_confirm o) ->
  ~ In CmdStop (during_delay io) ->
  let e2 := advance i io e' in
  let final := effect AntiStuckDisable e2 in
  status e' = Idle /\
  stateFile e' = Some (mkSaved area (minedBlocks e)) /\
  mineArea_loop (S n) (i + 1) cfg positions area obs e2 = Ret tt e2 /\
  start_settle (Ret tt e2) = Ret tt final /\
  status final = Idle /\
  stateFile final = Some (mkSaved area (minedBlocks e)) /\
  resumeIfNeeded cfg obs final
  = start cfg (mkArea (min area) (max area)) (minedBlocks e) obs final.
Proof.
  intros Ha Hstop Hdelay e2 final.
  pose proof (attempt_mined_status pos area o e e' Ha Hstop) as Hs.
  destruct (attempt_mined pos area o e e' Ha) as (target & pre & _ & _ & Hf & _).
  assert (F2 : status e2 = Idle /\ stateFile e2 = stateFile e').
  { subst e2. unfold advance.
    set (e1 := emit _ _).
    assert (H1 : status e1 = Idle) by exact Hs.
    destruct (_ >? _); [|split; [exact H1 | reflexivity]].
    match goal with
    | |- context [await (during_delay io) ?e0] =>
        destruct (idle_ignores (during_delay io) e0 H1) as [I1 I2]
    end.
    split; [exact I1|]. rewrite (I2 Hdelay). reflexivity. }
  destruct F2 as [S2 T2].
  split; [exact Hs|]. split; [exact Hf|].
  split.
  { cbn [mineArea_loop]. unfold iteration, prelude. rewrite S2. reflexivity. }
  split.
  { cbn [start_settle]. rewrite S2. reflexivity. }
  split; [exact S2|].
  assert (Tf : stateFile final = Some (mkSaved area (minedBlocks e)))
    by (subst final; cbn [stateFile effect set_effects]; congruence).
  split; [exact Tf|].
  unfold resumeIfNeeded. rewrite Tf.
  cbn [saved_area saved_minedBlocks]. rewrite !vec_eta. reflexivity.
Qed.

(** Stop during the dig of the first block of the 2 x 1 x 2 box. *)
Lemma stop_inside_a_pass_leaves_the_progress_file_witness :
  let p := mkVec3 0 0 0 in
  let o := mkAttemptObs [] (Some (Samples.stone p)) false [] true [] false
             false [] (Some (Samples.stone p)) [] "Hand" [] true true
             [CmdStop] DigResolved Samples.calm (fun _ => Samples.airWorld)
             [] [] in
  exists e',
    attempt p Samples.box2x1x2 o (Samples.midRun 0) = Return Mined e' /\
    status e' = Idle /\
    stateFile e' = Some (mkSaved Samples.box2x1x2 0).
Proof.
  intros p o. eexists. split; [vm_compute; reflexivity|].
  destruct (stop_inside_a_pass_leaves_the_progress_file
              p Samples.box2x1x2 o (Samples.midRun 0) _
              Samples.cfg [] (fun _ => Samples.quiet (fun _ => o)) 0
              (Samples.quiet (fun _ => o)) 0%nat
              ltac:(vm_compute; reflexivity)
              ltac:(left; left; reflexivity)
              ltac:(intros [])) as (H1 & H2 & _).
  split; [exact H1 | exact H2].
Defined.

End StopInsidePass.


(** ** The overlap scan *)

Section OverlapScan.

Import AntiStuck MonitorShape PlannerShape.

Lemma loop_up_app {A : Type} (g : Z -> list A) (body : Z -> list A -> list A) :
  (forall i s, body i s = s ++ g i) ->
  forall n i s, loop_up n i body s = s ++ flat_map g (ups n i).
Proof.
  intro Hb. induction n as [|n IH]; intros i s; simpl.
  - now rewrite app_nil_r.
  - rewrite IH, Hb. now rewrite <- app_assoc.
Qed.

Lemma flat_map_length_le {A B : Type} (f : A -> list B) (k : nat) (l : list A) :
  (forall a, (length (f a) <= k)%nat) ->
  (length (flat_map f l) <= length l * k)%nat.
Proof.
  intro Hf. induction l as [|a l IH]; simpl; [lia|].
  rewrite length_app. specialize (Hf a). lia.
Qed.

Lemma floor_gap (a b : Q) (k : Z) :
  (b < a + inject_Z k)%Q -> Qfloor b <= Qfloor a + k.
Proof.
  intro H.
  assert (H1 : (inject_Z (Qfloor b) < inject_Z (Qfloor a + 1 + k))%Q).
  { apply Qle_lt_trans with (y := b); [apply Qfloor_le|].
    apply Qlt_trans with (y := (a + inject_Z k)%Q); [exact H|].
    rewrite inject_Z_plus. apply Qplus_lt_l. apply Qlt_floor. }
  rewrite <- Zlt_Qlt in H1. lia.
Qed.

Lemma scan_flat v ent :
  entity v = Some ent ->
  let pos := entity_position ent in
  getOverlappingBlocks v
  = flat_map
      (fun bx =>
         flat_map
           (fun by_ =>
              flat_map (fun bz => overlappingAt v pos (mkVec3 bx by_ bz))
                (ups (Z.to_nat (Qfloor (qz pos + (3 # 10))
                                - Qfloor (qz pos - (3 # 10)) + 1))
                     (Qfloor (qz pos - (3 # 10)))))
           (ups (Z.to_nat (Qfloor (qy pos + (18 # 10)) - Qfloor (qy pos) + 1))
                (Qfloor (qy pos))))
      (ups (Z.to_nat (Qfloor (qx pos + (3 # 10))
                      - Qfloor (qx pos - (3 # 10)) + 1))
           (Qfloor (qx pos - (3 # 10)))).
Proof.
  intros He pos. unfold getOverlappingBlocks. rewrite He. cbv zeta.
  fold pos. unfold for_up.
  rewrite (loop_up_app
             (fun bx =>
                flat_map
                  (fun by_ =>
                     flat_map (fun bz => overlappingAt v pos (mkVec3 bx by_ bz))
                       (ups (Z.to_nat (Qfloor (qz pos + (3 # 10))
                                       - Qfloor (qz pos - (3 # 10)) + 1))
                            (Qfloor (qz pos - (3 # 10)))))
                  (ups (Z.to_nat (Qfloor (qy pos + (18 # 10))
                                  - Qfloor (qy pos) + 1))
                       (Qfloor (qy pos))))); [reflexivity|].
  intros bx s.
  apply (loop_up_app
           (fun by_ =>
              flat_map (fun bz => overlappingAt v pos (mkVec3 bx by_ bz))
                (ups (Z.to_nat (Qfloor (qz pos + (3 # 10))
                                - Qfloor (qz pos - (3 # 10)) + 1))
                     (Qfloor (qz pos - (3 # 10)))))).
  intros by_ s1.
  apply (loop_up_app (fun bz => overlappingAt v pos (mkVec3 bx by_ bz))).
  intros bz s2. unfold overlappingAt, push.
  destruct (blockAt (world v) (mkVec3 bx by_ bz)) as [b|];
    [|now rewrite app_nil_r].
  destruct (negb (boundingBox b =? "block")%string || (name b =? "bedrock")%string);
    [now rewrite app_nil_r|].
  match goal with
  | |- (if ?c then _ else _) = _ => destruct c
  end; [reflexivity | now rewrite app_nil_r].
Qed.

Lemma overlappingAt_In v pos p b :
  In b (overlappingAt v pos p) <->
  blockAt (world v) p = Some b /\ boundingBox b = "block"%string /\
  name b <> "bedrock"%string /\ overlaps pos (position b).
Proof.
  unfold overlappingAt, overlaps, offset. cbn [x y z].
  destruct (blockAt (world v) p) as [b0|] eqn:Hb.
  - destruct (boundingBox b0 =? "block")%string eqn:Hs; cbn [negb orb].
    + destruct (name b0 =? "bedrock")%string eqn:Hn.
      * split; [intros [] | intros (E & _ & Hnb & _)].
        inversion E; subst. apply String.eqb_eq in Hn. contradiction.
      * rewrite <- !Qltb_lt.
        match goal with
        | |- In b (if ?c then _ else _) <-> _ => destruct c eqn:Hc
        end.
        -- repeat (apply andb_true_iff in Hc; destruct Hc as [Hc ?]).
           split.
           ++ intros [<-|[]]. apply String.eqb_eq in Hs.
              apply String.eqb_neq in Hn. repeat split; assumption.
           ++ intros (E & _). inversion E. now left.
        -- split; [intros []|].
           intros (E & _ & _ & H1 & H2 & H3 & H4 & H5 & H6).
           inversion E; subst. rewrite H1, H2, H3, H4, H5, H6 in Hc.
           discriminate.
    + split; [intros [] | intros (E & Hbb & _)].
      inversion E; subst. apply String.eqb_neq in Hs. contradiction.
  - split; [intros [] | intros (E & _); discriminate].
Qed.

Lemma blockAt_position w p b : blockAt w p = Some b -> position b = p.
Proof.
  unfold blockAt. destruct (w p) as [[n bb]|]; [|discriminate].
  intro H. inversion H. reflexivity.
Qed.

(** X16: what the overlap scan returns. With the bot's entity present,
    every block that [getOverlappingBlocks] returns is a loaded block
    that is solid, is not bedrock, and whose unit cube strictly
    intersects the bot's box, 0.3 to each side of its position and 1.8
    up; a block that only touches the box, or lies away from it, is never
    returned. At most 12 blocks are returned. *)
Theorem getOverlappingBlocks_sound (v : View) (ent : Entity) :
  entity v = Some ent ->
  Forall (fun b =>
            blockAt (world v) (position b) = Some b /\
            boundingBox b = "block"%string /\ name b <> "bedrock"%string /\
            overlaps (entity_position ent) (position b))
         (getOverlappingBlocks v) /\
  (length (getOverlappingBlocks v) <= 12)%nat.
Proof.
  intro He. rewrite (scan_flat v ent He). cbv zeta.
  set (pos := entity_position ent).
  split.
  - apply Forall_forall. intros b Hin.
    apply in_flat_map in Hin. destruct Hin as (bx & _ & Hx).
    apply in_flat_map in Hx. destruct Hx as (by_ & _ & Hy).
    apply in_flat_map in Hy. destruct Hy as (bz & _ & Hz).
    apply overlappingAt_In in Hz. destruct Hz as (Hb & Hrest).
    split; [rewrite (blockAt_position _ _ _ Hb); exact Hb | exact Hrest].
  - assert (Hcell : forall p, (length (overlappingAt v pos p) <= 1)%nat).
    { intro p. unfold overlappingAt.
      repeat match goal with
             | |- context [match ?t with _ => _ end] => destruct t
             end; simpl; lia. }
    assert (Gx : Qfloor (qx pos + (3 # 10)) <= Qfloor (qx pos - (3 # 10)) + 1).
    { apply floor_gap. change (inject_Z 1) with 1%Q. lra. }
    assert (Gy : Qfloor (qy pos + (18 # 10)) <= Qfloor (qy pos) + 2).
    { apply floor_gap. change (inject_Z 2) with 2%Q. lra. }
    assert (Gz : Qfloor (qz pos + (3 # 10)) <= Qfloor (qz pos - (3 # 10)) + 1).
    { apply floor_gap. change (inject_Z 1) with 1%Q. lra. }
    eapply Nat.le_trans.
    { apply (flat_map_length_le _ 6). intro bx.
      eapply Nat.le_trans.
      { apply (flat_map_length_le _ 2). intro by_.
        eapply Nat.le_trans.
        { apply (flat_map_length_le _ 1). intro bz. apply Hcell. }
        rewrite ups_length. lia. }
      rewrite ups_length. lia. }
    rewrite ups_length. lia.
Qed.

(** Standing in the middle of a block column of stone: the two blocks the
    body fills are returned, and both intersect its box. *)
Lemma getOverlappingBlocks_sound_witness :
  let v := Samples.standing (mkQVec3 (1 # 2) 64 (1 # 2)) Samples.stoneWorld in
  getOverlappingBlocks v
  = [Samples.stone (mkVec3 0 64 0); Samples.stone (mkVec3 0 65 0)] /\
  Forall (fun b => overlaps (mkQVec3 (1 # 2) 64 (1 # 2)) (position b))
         (getOverlappingBlocks v).
Proof.
  intro v. split; [reflexivity|].
  destruct (getOverlappingBlocks_sound v
              (mkEntity (mkQVec3 (1 # 2) 64 (1 # 2)) true) eq_refl) as [H _].
  eapply Forall_impl; [|exact H]. intros b Hb.
  exact (proj2 (proj2 (proj2 Hb))).
Defined.

End OverlapScan.


(** ** The creeper guard *)

Section Creeper.

Import CreeperGuard.

Lemma closerThan_spec (d2 t : Q) :
  closerThan d2 t = true <-> (0 < t /\ d2 < t * t)%Q.
Proof.
  unfold closerThan. rewrite andb_true_iff, !Qltb_lt. reflexivity.
Qed.

Lemma closerThan_mono (d2 t u : Q) :
  (t <= u)%Q -> closerThan d2 t = true -> closerThan d2 u = true.
Proof.
  rewrite !closerThan_spec. intros Htu [H0 Hd]. split.
  - eapply Qlt_le_trans; eassumption.
  - nra.
Qed.

(** X17: the creeper guard's reactions are nested. When the disconnect
    distance is at most the evade distance and that is at most 10 blocks
    (as [loadConfig] sets them: 3 and 5), a tick that quits has evaded
    first, and a tick that evades has announced the creeper first; the
    tick quits exactly when there is a creeper closer than the disconnect
    distance, and does nothing without an entity or without a creeper. A
    hiss is answered by quitting exactly within 7 blocks. *)
Theorem creeper_reactions_nest
    (cfg : Config) (bot creeper : option QVec3) :
  (creeperDisconnectDistance cfg <= creeperEvadeDistance cfg)%Q ->
  (creeperEvadeDistance cfg <= 10)%Q ->
  let acts := tickListener cfg bot creeper in
  (acts = [] \/ acts = [EmitCreeperNearby] \/
   (exists c, acts = [EmitCreeperNearby; EvadeFrom c]) \/
   (exists c, acts = [EmitCreeperNearby; EvadeFrom c; BotQuit])) /\
  (In BotQuit acts <->
   exists pos c,
     bot = Some pos /\ creeper = Some c /\
     (0 < creeperDisconnectDistance cfg)%Q /\
     (AntiStuck.dist2 pos c
      < creeperDisconnectDistance cfg * creeperDisconnectDistance cfg)%Q) /\
  (bot = None \/ creeper = None -> acts = []) /\
  (forall pos position,
      soundListener (Some pos) true position = [BotQuit] <->
      (AntiStuck.dist2 pos position < 49)%Q) /\
  (forall primed position, soundListener None primed position = []) /\
  (forall b position, soundListener b false position = []).
Proof.
  intros Hde He10 acts. subst acts.
  split; [|split; [|split; [|split; [|split]]]].
  - unfold tickListener. destruct bot as [pos|]; [|now left].
    destruct creeper as [c|]; [|now left]. cbv zeta.
    destruct (closerThan _ (creeperDisconnectDistance cfg)) eqn:Hq.
    + pose proof (closerThan_mono _ _ _ Hde Hq) as Hev.
      pose proof (closerThan_mono _ _ _ He10 Hev) as Hn.
      rewrite Hev, Hn. right. right. right. exists c. reflexivity.
    + destruct (closerThan _ (creeperEvadeDistance cfg)) eqn:Hev.
      * pose proof (closerThan_mono _ _ _ He10 Hev) as Hn.
        rewrite Hn. right. right. left. exists c. reflexivity.
      * destruct (closerThan _ 10); [right; left | left]; reflexivity.
  - unfold tickListener. destruct bot as [pos|].
    + destruct creeper as [c|].
      * cbv zeta. rewrite !in_app_iff.
        split.
        -- intros [H|[H|H]].
           ++ destruct (closerThan _ 10); [destruct H as [H|[]]; discriminate | destruct H].
           ++ destruct (closerThan _ (creeperEvadeDistance cfg));
                [destruct H as [H|[]]; discriminate | destruct H].
           ++ destruct (closerThan _ (creeperDisconnectDistance cfg)) eqn:Hq;
                [|destruct H].
              apply closerThan_spec in Hq. exists pos, c. tauto.
        -- intros (pos' & c' & E1 & E2 & H0 & Hd).
           inversion E1; inversion E2; subst.
           right. right.
           assert (Hq : closerThan (AntiStuck.dist2 pos' c')
                          (creeperDisconnectDistance cfg) = true)
             by (apply closerThan_spec; split; assumption).
           rewrite Hq. now left.
      * split; [intros [] | intros (? & ? & _ & E & _); discriminate].
    + split; [intros [] | intros (? & ? & E & _); discriminate].
  - intros [->| ->]; [reflexivity|]. unfold tickListener.
    now destruct bot.
  - intros pos position. unfold soundListener.
    destruct (closerThan _ 7) eqn:Hc.
    + apply closerThan_spec in Hc. split; [intros _ | reflexivity].
      destruct Hc as [_ Hc]. exact Hc.
    + split; [discriminate|]. intro H. exfalso.
      assert (Hc' : closerThan (AntiStuck.dist2 pos position) 7 = true)
        by (apply closerThan_spec; split; [reflexivity | exact H]).
      congruence.
  - reflexivity.
  - intros b position. unfold soundListener. now destruct b.
Qed.

(** A creeper four blocks away, with the shipped configuration: the bot
    announces it and evades, and stays connected. *)
Lemma creeper_reactions_nest_witness :
  tickListener loadConfig (Some (mkQVec3 0 64 0)) (Some (mkQVec3 4 64 0))
  = [EmitCreeperNearby; EvadeFrom (mkQVec3 4 64 0)] /\
  ~ In BotQuit
      (tickListener loadConfig (Some (mkQVec3 0 64 0)) (Some (mkQVec3 4 64 0))).
Proof.
  destruct (creeper_reactions_nest loadConfig (Some (mkQVec3 0 64 0))
              (Some (mkQVec3 4 64 0))
              ltac:(vm_compute; discriminate) ltac:(vm_compute; discriminate))
    as (_ & Hq & _).
  split; [reflexivity|].
  intro Hin. apply Hq in Hin.
  destruct Hin as (pos & c & E1 & E2 & _ & Hd).
  inversion E1; inversion E2; subst. vm_compute in Hd. discriminate.
Defined.

End Creeper.


(** ** The path scan *)

Section PathScan.

Import AntiStuck MonitorShape.

Lemma tryAdd_if_Forall (P : Block -> Prop) (c : bool) w p st :
  (c = true -> forall b,
      blockAt w p = Some b -> boundingBox b = "block"%string ->
      ToolSelector.shouldMine b = true -> P b) ->
  Forall P (snd st) ->
  Forall P (snd (if c then tryAdd w p st else st)).
Proof.
  intros Hp Hst. destruct c; [|exact Hst]. specialize (Hp eq_refl).
  destruct st as [checked blocks]. unfold tryAdd. cbn [snd] in *.
  destruct (existsb (Vec3_eqb p) checked); [assumption|].
  destruct (blockAt w p) as [b|]; [|assumption].
  destruct (boundingBox b =? "block")%string eqn:Hs; cbn [andb]; [|assumption].
  destruct (ToolSelector.shouldMine b) eqn:Hm; [|assumption].
  cbn [snd]. apply Forall_push; [assumption|].
  apply Hp; [reflexivity | now apply String.eqb_eq | exact Hm].
Qed.

Lemma tryAdd_if_length (c : bool) w p st (n : nat) :
  (length (snd st) <= n)%nat ->
  (length (snd (if c then tryAdd w p st else st)) <= S n)%nat.
Proof.
  intro Hst. destruct c; [|lia].
  destruct st as [checked blocks]. unfold tryAdd, push. cbn [snd] in *.
  repeat match goal with
         | |- context [match ?t with _ => _ end] => destruct t
         end; cbn [snd]; rewrite ?length_app; simpl; lia.
Qed.

(** X18: the path scan looks only beside the bot. With the entity
    present, every block that [getBlockingBlocks] returns is a loaded,
    solid block that passes [shouldMine] and lies next to the column the
    bot stands in, at the level of its feet or of its head: never the
    block under its feet, never one in its own column. At most 6 blocks
    are returned, and none when neither horizontal component of the
    heading exceeds 0.3 in size. *)
Theorem getBlockingBlocks_beside (v : View) (ent : Entity) :
  entity v = Some ent ->
  Forall (fun b =>
            beside (entity_position ent) b /\
            blockAt (world v) (position b) = Some b /\
            boundingBox b = "block"%string /\
            ToolSelector.shouldMine b = true)
         (getBlockingBlocks v) /\
  (length (getBlockingBlocks v) <= 6)%nat /\
  (forall dirx dirz,
      heading v = Some (dirx, dirz) ->
      (- (3 # 10) <= dirx <= 3 # 10)%Q -> (- (3 # 10) <= dirz <= 3 # 10)%Q ->
      getBlockingBlocks v = []).
Proof.
  intro He. unfold getBlockingBlocks. rewrite He.
  destruct (heading v) as [[dirx dirz]|];
    [|split; [constructor | split; [simpl; lia | intros; discriminate]]].
  cbv zeta.
  set (pos := entity_position ent).
  set (sx := if Qltb (3 # 10) dirx then 1 else _).
  set (sz := if Qltb (3 # 10) dirz then 1 else _).
  assert (Hsx : -1 <= sx <= 1)
    by (subst sx; destruct (Qltb _ dirx); [lia|]; destruct (Qltb dirx _); lia).
  assert (Hsz : -1 <= sz <= 1)
    by (subst sz; destruct (Qltb _ dirz); [lia|]; destruct (Qltb dirz _); lia).
  assert (Hnone : forall dx dz,
             Some (dirx, dirz) = Some (dx, dz) ->
             (- (3 # 10) <= dx <= 3 # 10)%Q -> (- (3 # 10) <= dz <= 3 # 10)%Q ->
             (sx =? 0) && (sz =? 0) = true).
  { intros dx dz E [Hx1 Hx2] [Hz1 Hz2]. inversion E; subst dx dz.
    assert (Ex : Qltb (3 # 10) dirx = false).
    { destruct (Qltb (3 # 10) dirx) eqn:Hq; [|reflexivity].
      apply Qltb_lt in Hq. exfalso. exact (Qlt_not_le _ _ Hq Hx2). }
    assert (Ex' : Qltb dirx (- (3 # 10)) = false).
    { destruct (Qltb dirx (- (3 # 10))) eqn:Hq; [|reflexivity].
      apply Qltb_lt in Hq. exfalso. exact (Qlt_not_le _ _ Hq Hx1). }
    assert (Ez : Qltb (3 # 10) dirz = false).
    { destruct (Qltb (3 # 10) dirz) eqn:Hq; [|reflexivity].
      apply Qltb_lt in Hq. exfalso. exact (Qlt_not_le _ _ Hq Hz2). }
    assert (Ez' : Qltb dirz (- (3 # 10)) = false).
    { destruct (Qltb dirz (- (3 # 10))) eqn:Hq; [|reflexivity].
      apply Qltb_lt in Hq. exfalso. exact (Qlt_not_le _ _ Hq Hz1). }
    subst sx sz. rewrite Ex, Ex', Ez, Ez'. reflexivity. }
  clearbody sx sz.
  destruct ((sx =? 0) && (sz =? 0)) eqn:Hzero.
  { split; [constructor | split; [simpl; lia | reflexivity]]. }
  split; [|split].
  - cbn [fold_left].
    repeat (apply tryAdd_if_Forall;
            [intros Hc b Hb Hs Hm;
             pose proof (blockAt_position _ _ _ Hb) as Hp;
             (split; [|split; [rewrite Hp; exact Hb | split; assumption]]);
             unfold beside, floored; rewrite Hp; cbn [x y z];
             repeat match type of Hc with
                    | _ && _ = true =>
                        apply andb_true_iff in Hc; destruct Hc as [? Hc]
                    end;
             repeat match goal with
                    | H : negb (_ =? 0) = true |- _ =>
                        apply negb_true_iff, Z.eqb_neq in H
                    end;
             lia|]).
    constructor.
  - cbn [fold_left]. repeat apply tryAdd_if_length. simpl. lia.
  - intros dx dz E Hx Hz. discriminate (Hnone dx dz E Hx Hz).
Qed.

(** Heading east inside stone: the blocks at foot and head level to the
    east are in the way, and nothing else. *)
Lemma getBlockingBlocks_beside_witness :
  let v := Samples.standing (mkQVec3 (1 # 2) 64 (1 # 2)) Samples.stoneWorld in
  getBlockingBlocks v
  = [Samples.stone (mkVec3 1 64 0); Samples.stone (mkVec3 1 65 0)] /\
  Forall (fun b => beside (mkQVec3 (1 # 2) 64 (1 # 2)) b) (getBlockingBlocks v).
Proof.
  intro v. split; [reflexivity|].
  destruct (getBlockingBlocks_beside v
              (mkEntity (mkQVec3 (1 # 2) 64 (1 # 2)) true) eq_refl) as [H _].
  eapply Forall_impl; [|exact H]. intros b Hb. exact (proj1 Hb).
Defined.

End PathScan.

(** ** Progress records and the resumed run *)

Section ResumedRun.

Import MiningEngine EngineShape.



(** The run resumed from the record of target 2: undisturbed, it mines
    target 2 again and then target 3, and finishes. *)
Example resumed_run_digs_the_saved_target_again :
  let pass := fun _ : nat => Samples.pass (mkVec3 1 0 1) DigResolved
                               Samples.airWorld in
  let stopped := mkEngine Idle (Some Samples.box2x1x2) 4 3 None None
                   (Some (mkSaved Samples.box2x1x2 2)) [] in
  exists e',
    resumeIfNeeded Samples.cfg (fun _ => Samples.quiet pass) stopped
    = Ret tt e' /\
    status e' = Finished /\ minedBlocks e' = 4 /\
    minedPositions e' = [mkVec3 1 0 1; mkVec3 0 0 1].
Proof.
  intros pass stopped. eexists.
  split; [vm_compute; reflexivity|]. repeat split.
Qed.

End ResumedRun.
